(** * Find in Files: query compilation and match extraction

    A shallow embedding of [src/search/FindInFiles.js]: the query compiler
    [_getQueryRegExp], the match extractor [_getSearchMatches] and the
    per-file driver inside [doFindInFiles].

    The JavaScript run time that the code calls ([RegExp], [String.prototype.search],
    [match], [replace], [lastIndexOf], [substr]) is embedded too, following
    ECMAScript 5.1 section 15.10: patterns are parsed from their source text
    and run by the backtracking matcher of section 15.10.2, written with
    continuations as the standard does.  The parser takes the syntax that
    the engines of browsers take beyond the grammar of 15.10.1 (Annex B of
    the later editions of the standard): a brace or closing bracket that
    stands for itself, octal and identity escapes, quantified look-aheads.
    Look-behind and named groups, which came with later editions, are not
    part of it.  The regular expression literals of the source are parsed
    from their text by that same parser.

    Strings are lists of 8-bit code units (Latin-1); numbers that index a
    string are [nat], positions of a match are [Z] because the column
    arithmetic of the source can go below zero.  A pattern object carries
    its [lastIndex], which [exec] reads and writes; the object is handed
    from call to call as the source hands it from file to file.

    The [while] loop of the extractor need not end, so it runs on fuel:
    one unit for each call of [exec].  A run that is out of fuel is
    reported as still running, with the matches it has pushed so far.

    The rest of the file is embedded with the page reduced to what the
    code reads and writes in it: [_showSearchResults] builds the header
    and the rows of the results table, [FindInFilesDialog] is a record
    that the handlers of the search field change, and the resizer of
    [_initSearchResizer] is a record changed by the mouse handlers and by
    the animation frames.  Events come as lists, in the order in which
    the browser delivers them; pixel values are [Z]. *)

From Stdlib Require Import Ascii String List ZArith Lia Bool Arith.
Import ListNotations.

(** ** Strings and characters *)

Definition jsstring := list ascii.

Definition str (s : string) : jsstring := list_ascii_of_string s.

Definition LF : ascii := "010"%char.
Definition CR : ascii := "013"%char.

Definition code (c : ascii) : N := N_of_ascii c.

Definition between (lo hi : N) (c : ascii) : bool :=
  (N.leb lo (code c) && N.leb (code c) hi)%bool.

Definition isLineTerminator (c : ascii) : bool :=
  (Ascii.eqb c LF || Ascii.eqb c CR)%bool.

Definition isDigit (c : ascii) : bool := between 48 57 c.

Definition isWordChar (c : ascii) : bool :=
  (between 97 122 c || between 65 90 c || between 48 57 c || Ascii.eqb c "_")%bool.

Definition isWhiteSpace (c : ascii) : bool :=
  (between 9 13 c || Ascii.eqb c " " || N.eqb (code c) 160)%bool.

(** [Canonicalize] of 15.10.2.8 on Latin-1: a letter goes to its upper
    case when that is again a Latin-1 letter.  The sharp s has no upper
    case of one character and stays as it is.  The upper cases of the
    micro sign and of y with diaeresis lie outside Latin-1; no other
    Latin-1 character has them, so the two letters stand here for their
    upper cases, and [foldsWith] tells which characters outside Latin-1
    go to the same. *)
Definition toUpperCase (c : ascii) : ascii :=
  if (between 97 122 c
      || (between 224 254 c && negb (N.eqb (code c) 247)))%bool
  then ascii_of_N (code c - 32) else c.

Definition Canonicalize (ignoreCase : bool) (c : ascii) : ascii :=
  if ignoreCase then toUpperCase c else c.

Definition all_chars : list ascii :=
  Eval vm_compute in map ascii_of_nat (seq 0 256).

(** The code units above Latin-1 that [Canonicalize] sends where it sends
    the Latin-1 character [c]: U+0178 is the upper case of y with
    diaeresis; U+039C is the upper case of the micro sign and of U+03BC. *)
Definition foldsWith (c : ascii) : list N :=
  if N.eqb (code c) 255 then [376%N]
  else if N.eqb (code c) 181 then [924%N; 956%N]
  else [].

(** ** Patterns (15.10.1) *)

Inductive ClassAtom : Type :=
| CChar (c : ascii)
| CRange (lo hi : N)
| CDigit (positive : bool)
| CWord (positive : bool)
| CSpace (positive : bool).

Inductive regex : Type :=
| Empty
| Char (c : ascii)
| Dot
| Class (invert : bool) (atoms : list ClassAtom)
| Seq (r1 r2 : regex)
| Alt (r1 r2 : regex)
| Quant (min : nat) (max : option nat) (greedy : bool) (r : regex)
| Group (n : nat) (r : regex)
| Lookahead (positive : bool) (r : regex)
| BackRef (n : nat)
| Bol
| Eol
| WordB (positive : bool).

Definition classAtomHas (a : ClassAtom) (c : ascii) : bool :=
  match a with
  | CChar d => Ascii.eqb c d
  | CRange lo hi => between lo hi c
  | CDigit p => Bool.eqb (isDigit c) p
  | CWord p => Bool.eqb (isWordChar c) p
  | CSpace p => Bool.eqb (isWhiteSpace c) p
  end.

Definition charSetHas (atoms : list ClassAtom) (c : ascii) : bool :=
  existsb (fun a => classAtomHas a c) atoms.

(** Whether a class atom holds the code unit [v], for the code units of
    [foldsWith]: letters above Latin-1, so neither digits, nor word
    characters, nor white space. *)
Definition classAtomHasWide (a : ClassAtom) (v : N) : bool :=
  match a with
  | CChar _ => false
  | CRange lo hi => (N.leb lo v && N.leb v hi)%bool
  | CDigit p => negb p
  | CWord p => negb p
  | CSpace p => negb p
  end.

Definition charSetHasWide (atoms : list ClassAtom) (v : N) : bool :=
  existsb (fun a => classAtomHasWide a v) atoms.

(** The capturing groups that occur in a pattern; a quantifier clears them
    before each iteration of its atom. *)
Fixpoint groupsOf (r : regex) : list nat :=
  match r with
  | Seq a b | Alt a b => groupsOf a ++ groupsOf b
  | Quant _ _ _ a | Lookahead _ a => groupsOf a
  | Group n a => n :: groupsOf a
  | _ => []
  end.

(** ** The matcher (15.10.2) *)

Definition Captures := nat -> option jsstring.

Record State : Type := mkState {
  endIndex : nat;               (* characters consumed so far *)
  prevChar : option ascii;      (* input character at endIndex - 1 *)
  rest : jsstring;              (* input from endIndex on *)
  captures : Captures
}.

Definition MatchResult := option State.
Definition Continuation := State -> MatchResult.
Definition Matcher := State -> Continuation -> MatchResult.

Definition noCaptures : Captures := fun _ => None.

Definition setCapture (n : nat) (s : jsstring) (cap : Captures) : Captures :=
  fun k => if Nat.eqb k n then Some s else cap k.

Definition clearCaps (ids : list nat) (cap : Captures) : Captures :=
  fun k => if existsb (Nat.eqb k) ids then None else cap k.

Definition withCaptures (cap : Captures) (x : State) : State :=
  mkState (endIndex x) (prevChar x) (rest x) cap.

Definition clearCaptures (ids : list nat) (x : State) : State :=
  withCaptures (clearCaps ids (captures x)) x.

Definition orElse (a : MatchResult) (b : unit -> MatchResult) : MatchResult :=
  match a with
  | Some z => Some z
  | None => b tt
  end.

Definition predMax (max : option nat) : option nat :=
  match max with
  | Some n => Some (Nat.pred n)
  | None => None
  end.

Definition isZeroMax (max : option nat) : bool :=
  match max with
  | Some 0 => true
  | _ => false
  end.

(** [RepeatMatcher] of 15.10.2.5 once [min] has reached zero.  An iteration
    that consumes nothing fails (step 2.1), so every further iteration
    shortens [rest]; [fuel] is started above the length of [rest] and its
    end is never reached. *)
Fixpoint RepeatFree (fuel : nat) (m : Matcher) (max : option nat) (greedy : bool)
         (ids : list nat) (x : State) (c : Continuation) : MatchResult :=
  if isZeroMax max then c x else
  match fuel with
  | 0 => c x
  | S fuel' =>
      let d : Continuation := fun y =>
        if Nat.eqb (endIndex y) (endIndex x) then None
        else RepeatFree fuel' m (predMax max) greedy ids y c in
      let xr := clearCaptures ids x in
      if greedy then orElse (m xr d) (fun _ => c x)
      else orElse (c x) (fun _ => m xr d)
  end.

(** [RepeatMatcher] while [min] is not zero (step 6). *)
Fixpoint RepeatMatcher (min : nat) (m : Matcher) (max : option nat) (greedy : bool)
         (ids : list nat) (x : State) (c : Continuation) : MatchResult :=
  match min with
  | 0 => RepeatFree (S (length (rest x))) m max greedy ids x c
  | S min' =>
      if isZeroMax max then c x else
      m (clearCaptures ids x)
        (fun y => RepeatMatcher min' m (predMax max) greedy ids y c)
  end.

Section Matching.

Variable ignoreCase : bool.
Variable multiline : bool.

Definition canon (c : ascii) : ascii := Canonicalize ignoreCase c.

(** [CharacterSetMatcher] of 15.10.2.8: the set is given by [has] on
    Latin-1 and by [wide] on the code units above it.  When case is
    ignored, the input character is looked for among the members of the
    set that [Canonicalize] sends where it sends the character. *)
Definition CharacterSetMatcher (has : ascii -> bool) (wide : N -> bool) (invert : bool)
  : Matcher :=
  fun x c =>
    match rest x with
    | [] => None
    | ch :: tl =>
        let cc := canon ch in
        let found :=
          if ignoreCase
          then (existsb (fun a => has a && Ascii.eqb (canon a) cc)%bool all_chars
                || existsb wide (foldsWith ch))%bool
          else has ch in
        if Bool.eqb found invert then None
        else c (mkState (S (endIndex x)) (Some ch) tl (captures x))
    end.

(** A single pattern character: the one-element character set. *)
Definition CharMatcher (a : ascii) : Matcher :=
  fun x c =>
    match rest x with
    | [] => None
    | ch :: tl =>
        if Ascii.eqb (canon ch) (canon a)
        then c (mkState (S (endIndex x)) (Some ch) tl (captures x))
        else None
    end.

Definition isWordAt (o : option ascii) : bool :=
  match o with
  | Some ch => isWordChar ch
  | None => false
  end.

(** Compare the input with a captured string (15.10.2.9, step 5). *)
Fixpoint matchCaptured (s : jsstring) (x : State) : option State :=
  match s with
  | [] => Some x
  | a :: s' =>
      match rest x with
      | [] => None
      | ch :: tl =>
          if Ascii.eqb (canon a) (canon ch)
          then matchCaptured s' (mkState (S (endIndex x)) (Some ch) tl (captures x))
          else None
      end
  end.

Fixpoint m (r : regex) (x : State) (c : Continuation) {struct r} : MatchResult :=
  match r with
  | Empty => c x
  | Char a => CharMatcher a x c
  | Dot => CharacterSetMatcher (fun ch => negb (isLineTerminator ch)) (fun _ => true) false x c
  | Class invert atoms =>
      CharacterSetMatcher (charSetHas atoms) (charSetHasWide atoms) invert x c
  | Seq r1 r2 => m r1 x (fun y => m r2 y c)
  | Alt r1 r2 => orElse (m r1 x c) (fun _ => m r2 x c)
  | Quant min max greedy r1 =>
      RepeatMatcher min (m r1) max greedy (groupsOf r1) x c
  | Group n r1 =>
      m r1 x (fun y =>
        c (withCaptures
             (setCapture n (firstn (endIndex y - endIndex x) (rest x)) (captures y))
             y))
  | Lookahead true r1 =>
      match m r1 x (fun y => Some y) with
      | None => None
      | Some y => c (withCaptures (captures y) x)
      end
  | Lookahead false r1 =>
      match m r1 x (fun y => Some y) with
      | None => c x
      | Some _ => None
      end
  | BackRef n =>
      match captures x n with
      | None => c x
      | Some s =>
          match matchCaptured s x with
          | None => None
          | Some y => c y
          end
      end
  | Bol =>
      match prevChar x with
      | None => c x
      | Some p => if (multiline && isLineTerminator p)%bool then c x else None
      end
  | Eol =>
      match rest x with
      | [] => c x
      | ch :: _ => if (multiline && isLineTerminator ch)%bool then c x else None
      end
  | WordB positive =>
      let a := isWordAt (prevChar x) in
      let b := isWordAt (hd_error (rest x)) in
      if Bool.eqb (xorb a b) positive then c x else None
  end.

(** The internal [[Match]] of a pattern at one position (15.10.2.2). *)
Definition matchAt (r : regex) (index : nat) (prev : option ascii) (input : jsstring)
  : MatchResult :=
  m r (mkState index prev input noCaptures) (fun y => Some y).

(** The search of [exec] (15.10.6.2, step 9): the first position from
    [index] on at which the pattern matches. *)
Fixpoint scanFrom (r : regex) (index : nat) (prev : option ascii) (input : jsstring)
  : option (nat * State) :=
  match matchAt r index prev input with
  | Some y => Some (index, y)
  | None =>
      match input with
      | [] => None
      | ch :: tl => scanFrom r (S index) (Some ch) tl
      end
  end.

End Matching.

(** ** Parsing a pattern (15.10.1)

    The grammar of ECMAScript 5.1 with what the engines of browsers take
    beyond it: an escape that is no other escape stands for its
    character; a decimal escape that names no group is an octal escape;
    a brace that opens no quantifier, a closing brace and a closing
    bracket stand for themselves; a look-ahead may take a quantifier; a
    class escape may stand at the end of a range.  [None] is the
    [SyntaxError] that [new RegExp] throws. *)

Definition isCh (c d : ascii) : bool := Ascii.eqb c d.

Definition syntaxChars : jsstring := str "^$\.*+?()[]{}|".

Definition isSyntaxChar (c : ascii) : bool := existsb (isCh c) syntaxChars.

Definition digitVal (c : ascii) : option nat :=
  if isDigit c then Some (N.to_nat (code c - 48)) else None.

Definition hexVal (c : ascii) : option N :=
  if between 48 57 c then Some (code c - 48)%N
  else if between 97 102 c then Some (code c - 87)%N
  else if between 65 70 c then Some (code c - 55)%N
  else None.

Definition isOctalDigit (c : ascii) : bool := between 48 55 c.

Definition isLetter (c : ascii) : bool := (between 97 122 c || between 65 90 c)%bool.

Fixpoint parseDigits (acc : nat) (s : jsstring) : nat * jsstring :=
  match s with
  | [] => (acc, [])
  | c :: tl =>
      match digitVal c with
      | Some d => parseDigits (10 * acc + d) tl
      | None => (acc, s)
      end
  end.

Definition parseNat (s : jsstring) : option (nat * jsstring) :=
  match s with
  | [] => None
  | c :: _ => if isDigit c then Some (parseDigits 0 s) else None
  end.

Fixpoint parseHex (k : nat) (acc : N) (s : jsstring) : option (N * jsstring) :=
  match k with
  | 0 => Some (acc, s)
  | S k' =>
      match s with
      | [] => None
      | c :: tl =>
          match hexVal c with
          | Some d => parseHex k' (16 * acc + d)%N tl
          | None => None
          end
      end
  end.

(** An octal escape whose first digit is [c]: a second octal digit
    belongs to it, and a third one when the first is 3 at most, so that
    the value stays below 256. *)
Definition parseLegacyOctal (c : ascii) (tl : jsstring) : N * jsstring :=
  let d1 := (code c - 48)%N in
  match tl with
  | c2 :: tl2 =>
      if isOctalDigit c2 then
        let d2 := (code c2 - 48)%N in
        match tl2 with
        | c3 :: tl3 =>
            if (N.leb d1 3 && isOctalDigit c3)%bool
            then ((64 * d1 + 8 * d2 + (code c3 - 48))%N, tl3)
            else ((8 * d1 + d2)%N, tl2)
        | [] => ((8 * d1 + d2)%N, tl2)
        end
      else (d1, tl)
  | [] => (d1, tl)
  end.

(** [CharacterEscape], shared by atoms and classes; the first character
    after the backslash is [c].  The result is the code unit that the
    escape stands for; [None] is a [\c] that no control letter follows,
    which is no escape.  A [\x] or [\u] without its hexadecimal digits,
    and every character that starts no other escape, stands for itself. *)
Definition parseCharacterEscape (c : ascii) (tl : jsstring) : option (N * jsstring) :=
  if isCh c "f" then Some (12%N, tl)
  else if isCh c "n" then Some (10%N, tl)
  else if isCh c "r" then Some (13%N, tl)
  else if isCh c "t" then Some (9%N, tl)
  else if isCh c "v" then Some (11%N, tl)
  else if isCh c "c" then
    match tl with
    | l :: tl' => if isLetter l then Some (N.modulo (code l) 32, tl') else None
    | [] => None
    end
  else if isCh c "x" then
    match parseHex 2 0 tl with
    | Some r => Some r
    | None => Some (code c, tl)
    end
  else if isCh c "u" then
    match parseHex 4 0 tl with
    | Some r => Some r
    | None => Some (code c, tl)
    end
  else if isOctalDigit c then Some (parseLegacyOctal c tl)
  else Some (code c, tl).

Definition classEscapeSet (c : ascii) : option ClassAtom :=
  if isCh c "d" then Some (CDigit true)
  else if isCh c "D" then Some (CDigit false)
  else if isCh c "s" then Some (CSpace true)
  else if isCh c "S" then Some (CSpace false)
  else if isCh c "w" then Some (CWord true)
  else if isCh c "W" then Some (CWord false)
  else None.

(** The atom for one code unit.  A code unit above Latin-1 is a
    character that no input of the model has; it makes a set of its own,
    which an input character can meet when case is ignored. *)
Definition charAtom (v : N) : regex :=
  if N.ltb v 256 then Char (ascii_of_N v) else Class false [CRange v v].

Definition charClassAtom (v : N) : ClassAtom :=
  if N.ltb v 256 then CChar (ascii_of_N v) else CRange v v.

(** [AtomEscape]: the text after a backslash outside a class.  [total]
    is the number of capturing groups of the whole pattern: a decimal
    escape is a back reference when it names one of them, and an octal
    or identity escape otherwise.  Before a [c] that no control letter
    follows, the backslash stands for itself and the [c] is left. *)
Definition parseAtomEscape (total : nat) (s : jsstring) : option (regex * jsstring) :=
  match s with
  | [] => None
  | c :: tl =>
      match classEscapeSet c with
      | Some a => Some (Class false [a], tl)
      | None =>
          let (n, tl') := parseDigits 0 s in
          if (between 49 57 c && Nat.leb n total)%bool then Some (BackRef n, tl')
          else
            match parseCharacterEscape c tl with
            | Some (v, tl') => Some (charAtom v, tl')
            | None => Some (Char "\", s)
            end
      end
  end.

(** [ClassAtom]; with it comes its code unit when it is a single
    character, which the ends of a range are.  In a class a digit or an
    underscore after [\c] makes a control character too. *)
Definition parseClassAtom (s : jsstring) : option (ClassAtom * option N * jsstring) :=
  match s with
  | [] => None
  | c :: tl =>
      if isCh c "\" then
        match tl with
        | [] => None
        | e :: tl' =>
            match classEscapeSet e with
            | Some a => Some (a, None, tl')
            | None =>
                if isCh e "b" then Some (CChar "008"%char, Some 8%N, tl')
                else if isCh e "c" then
                  match tl' with
                  | l :: tl'' =>
                      if (isLetter l || isDigit l || isCh l "_")%bool
                      then Some (charClassAtom (N.modulo (code l) 32),
                                 Some (N.modulo (code l) 32), tl'')
                      else Some (CChar "\", Some 92%N, tl)
                  | [] => Some (CChar "\", Some 92%N, tl)
                  end
                else
                  match parseCharacterEscape e tl' with
                  | Some (v, tl'') => Some (charClassAtom v, Some v, tl'')
                  | None => None
                  end
            end
        end
      else Some (CChar c, Some (code c), tl)
  end.

(** [ClassRanges], after the opening bracket and the optional caret.
    When one end of a range is a class escape, the two atoms and the
    dash are members of the class. *)
Fixpoint parseClassRanges (fuel : nat) (s : jsstring) : option (list ClassAtom * jsstring) :=
  match fuel with
  | 0 => None
  | S fuel' =>
      match s with
      | [] => None
      | c :: tl =>
          if isCh c "]" then Some ([], tl) else
          match parseClassAtom s with
          | None => None
          | Some (a, single, s1) =>
              let plain := fun _ : unit =>
                match parseClassRanges fuel' s1 with
                | Some (atoms, s') => Some (a :: atoms, s')
                | None => None
                end in
              match s1 with
              | d :: s2 =>
                  if (isCh d "-" && negb (isCh (hd "]"%char s2) "]"))%bool then
                    match parseClassAtom s2 with
                    | Some (b, single', s3) =>
                        match parseClassRanges fuel' s3 with
                        | Some (atoms, s') =>
                            match single, single' with
                            | Some lo, Some hi =>
                                if N.leb lo hi then Some (CRange lo hi :: atoms, s')
                                else None
                            | _, _ => Some (a :: CChar "-" :: b :: atoms, s')
                            end
                        | None => None
                        end
                    | None => None
                    end
                  else plain tt
              | [] => plain tt
              end
          end
      end
  end.

Definition parseClass (s : jsstring) : option (regex * jsstring) :=
  let (invert, s1) :=
    match s with
    | c :: tl => if isCh c "^" then (true, tl) else (false, s)
    | [] => (false, s)
    end in
  match parseClassRanges (S (length s1)) s1 with
  | Some (atoms, s') => Some (Class invert atoms, s')
  | None => None
  end.

(** The text after an opening brace when it makes a braced quantifier,
    [{n}], [{n,}] or [{n,m}]: the bounds and the text after the closing
    brace. *)
Definition parseBraces (s : jsstring) : option (nat * option nat * jsstring) :=
  match parseNat s with
  | None => None
  | Some (lo, s1) =>
      match s1 with
      | d :: s2 =>
          if isCh d "}" then Some (lo, Some lo, s2)
          else if isCh d "," then
            match s2 with
            | e :: s3 =>
                if isCh e "}" then Some (lo, None, s3)
                else
                  match parseNat s2 with
                  | Some (hi, f :: s4) =>
                      if isCh f "}" then Some (lo, Some hi, s4) else None
                  | _ => None
                  end
            | [] => None
            end
          else None
      | [] => None
      end
  end.

(** [Quantifier]: [Some None] when the text starts no quantifier, which
    is the case of a brace that opens no braced quantifier; bounds out
    of order are an error. *)
Definition parseQuantifierPrefix (s : jsstring)
  : option (option (nat * option nat) * jsstring) :=
  match s with
  | [] => Some (None, s)
  | c :: tl =>
      if isCh c "*" then Some (Some (0, None), tl)
      else if isCh c "+" then Some (Some (1, None), tl)
      else if isCh c "?" then Some (Some (0, Some 1), tl)
      else if isCh c "{" then
        match parseBraces tl with
        | None => Some (None, s)
        | Some (lo, None, s') => Some (Some (lo, None), s')
        | Some (lo, Some hi, s') =>
            if Nat.leb lo hi then Some (Some (lo, Some hi), s') else None
        end
      else Some (None, s)
  end.

Definition parseQuantifier (r : regex) (s : jsstring) : option (regex * jsstring) :=
  match parseQuantifierPrefix s with
  | None => None
  | Some (None, s') => Some (r, s')
  | Some (Some (lo, hi), s') =>
      match s' with
      | c :: tl =>
          if isCh c "?" then Some (Quant lo hi false r, tl)
          else Some (Quant lo hi true r, s')
      | [] => Some (Quant lo hi true r, s')
      end
  end.

Definition expectClose (s : jsstring) : option jsstring :=
  match s with
  | c :: tl => if isCh c ")" then Some tl else None
  | [] => None
  end.

(** A [Term] comes back with a flag: an atom or a look-ahead may take a
    quantifier, the other assertions may not.  [n] counts the capturing
    parentheses opened so far, [total] those of the whole pattern.  A
    quantifier with nothing before it is an error. *)
Fixpoint parseDisjunction (fuel total n : nat) (s : jsstring) {struct fuel}
  : option (regex * nat * jsstring) :=
  match fuel with
  | 0 => None
  | S fuel' =>
      match parseAlternative fuel' total n s with
      | None => None
      | Some (a, n1, s1) =>
          match s1 with
          | c :: tl =>
              if isCh c "|" then
                match parseDisjunction fuel' total n1 tl with
                | Some (d, n2, s2) => Some (Alt a d, n2, s2)
                | None => None
                end
              else Some (a, n1, s1)
          | [] => Some (a, n1, s1)
          end
      end
  end

with parseAlternative (fuel total n : nat) (s : jsstring) {struct fuel}
  : option (regex * nat * jsstring) :=
  match fuel with
  | 0 => None
  | S fuel' =>
      match s with
      | [] => Some (Empty, n, s)
      | c :: tl =>
          if (isCh c "|" || isCh c ")")%bool then Some (Empty, n, s) else
          let term : option (regex * bool * nat * jsstring) :=
            if isCh c "^" then Some (Bol, false, n, tl)
            else if isCh c "$" then Some (Eol, false, n, tl)
            else if isCh c "." then Some (Dot, true, n, tl)
            else if isCh c "\" then
              match tl with
              | e :: tl' =>
                  if isCh e "b" then Some (WordB true, false, n, tl')
                  else if isCh e "B" then Some (WordB false, false, n, tl')
                  else
                    match parseAtomEscape total tl with
                    | Some (r, s') => Some (r, true, n, s')
                    | None => None
                    end
              | [] => None
              end
            else if isCh c "[" then
              match parseClass tl with
              | Some (r, s') => Some (r, true, n, s')
              | None => None
              end
            else if isCh c "(" then
              let group := fun _ : unit =>
                match parseDisjunction fuel' total (S n) tl with
                | Some (d, n1, s1) =>
                    match expectClose s1 with
                    | Some s2 => Some (Group (S n) d, true, n1, s2)
                    | None => None
                    end
                | None => None
                end in
              match tl with
              | q :: tl1 =>
                  if isCh q "?" then
                    match tl1 with
                    | k :: tl' =>
                        match parseDisjunction fuel' total n tl' with
                        | Some (d, n1, s1) =>
                            match expectClose s1 with
                            | Some s2 =>
                                if isCh k "=" then Some (Lookahead true d, true, n1, s2)
                                else if isCh k "!" then Some (Lookahead false d, true, n1, s2)
                                else if isCh k ":" then Some (d, true, n1, s2)
                                else None
                            | None => None
                            end
                        | None => None
                        end
                    | [] => None
                    end
                  else group tt
              | [] => group tt
              end
            else if (isCh c "*" || isCh c "+" || isCh c "?")%bool then None
            else if isCh c "{" then
              match parseBraces tl with
              | Some _ => None
              | None => Some (Char c, true, n, tl)
              end
            else Some (Char c, true, n, tl) in
          match term with
          | None => None
          | Some (r, quantifiable, n1, s1) =>
              match (if quantifiable then parseQuantifier r s1 else Some (r, s1)) with
              | None => None
              | Some (t, s2) =>
                  match parseAlternative fuel' total n1 s2 with
                  | Some (a, n2, s3) => Some (Seq t a, n2, s3)
                  | None => None
                  end
              end
          end
      end
  end.

(** [Pattern]: the whole source is one disjunction.  Its capturing
    groups are counted first, since a decimal escape is a back reference
    only when it names a group of the pattern, before or after it; the
    count does not depend on how the decimal escapes are read. *)
Definition parsePattern (source : jsstring) : option regex :=
  let fuel := 2 * length source + 2 in
  match parseDisjunction fuel 0 0 source with
  | Some (_, total, []) =>
      match parseDisjunction fuel total 0 source with
      | Some (r, _, []) => Some r
      | _ => None
      end
  | _ => None
  end.

(** ** RegExp objects (15.10.4, 15.10.6) *)

Record RegExp : Type := mkRegExp {
  source : jsstring;
  pattern : regex;
  global : bool;
  ignoreCase : bool;
  multiline : bool;
  lastIndex : nat
}.

Definition setLastIndex (i : nat) (re : RegExp) : RegExp :=
  mkRegExp (source re) (pattern re) (global re) (ignoreCase re) (multiline re) i.

(** The flags of [new RegExp]: each of g, i, m at most once. *)
Fixpoint parseFlags (flags : jsstring) (g i ml : bool) : option (bool * bool * bool) :=
  match flags with
  | [] => Some (g, i, ml)
  | c :: tl =>
      if isCh c "g" then (if g then None else parseFlags tl true i ml)
      else if isCh c "i" then (if i then None else parseFlags tl g true ml)
      else if isCh c "m" then (if ml then None else parseFlags tl g i true)
      else None
  end.

(** [new RegExp(pattern, flags)]; [None] is a thrown [SyntaxError]. *)
Definition RegExp_new (src flags : jsstring) : option RegExp :=
  match parseFlags flags false false false, parsePattern src with
  | Some (g, i, ml), Some r => Some (mkRegExp src r g i ml 0)
  | _, _ => None
  end.

(** The array that [exec] and [match] return: [index], element 0 and the
    captures. *)
Record MatchArray : Type := mkMatchArray {
  index : nat;
  matched : jsstring;
  groups : Captures
}.

Definition charBefore (text : jsstring) (i : nat) : option ascii :=
  match i with
  | 0 => None
  | S j => nth_error text j
  end.

(** The search shared by [exec], [search] and [replace]: the first match
    of the pattern at or after position [i] of [text]. *)
Definition firstMatchFrom (re : RegExp) (text : jsstring) (i : nat) : option MatchArray :=
  if Nat.ltb (length text) i then None else
  match scanFrom (ignoreCase re) (multiline re) (pattern re) i (charBefore text i) (skipn i text) with
  | None => None
  | Some (k, y) =>
      Some (mkMatchArray k (firstn (endIndex y - k) (skipn k text)) (captures y))
  end.

Definition endOf (mt : MatchArray) : nat := index mt + length (matched mt).

(** [RegExp.prototype.exec] (15.10.6.2): the search starts at [lastIndex]
    when the pattern is global; a match moves [lastIndex] to its end, a
    failure sets it to zero. *)
Definition RegExp_exec (re : RegExp) (text : jsstring) : RegExp * option MatchArray :=
  match firstMatchFrom re text (if global re then lastIndex re else 0) with
  | None => (setLastIndex 0 re, None)
  | Some mt => (if global re then setLastIndex (endOf mt) re else re, Some mt)
  end.

(** [String.prototype.search] (15.5.4.12): from the start of the string,
    whatever [lastIndex] and [global] are, and [lastIndex] is left alone. *)
Definition String_search (text : jsstring) (re : RegExp) : Z :=
  match firstMatchFrom re text 0 with
  | None => (-1)%Z
  | Some mt => Z.of_nat (index mt)
  end.

(** [String.prototype.match] (15.5.4.10) with a pattern that is not global. *)
Definition String_match (text : jsstring) (re : RegExp) : option MatchArray :=
  firstMatchFrom re text 0.

(** The replacement text of [String.prototype.replace] (15.5.4.11, table 22). *)
Fixpoint GetSubstitution (repl : jsstring) (nGroups : nat) (mt : MatchArray) (text : jsstring)
  : jsstring :=
  match repl with
  | [] => []
  | c :: tl =>
      if isCh c "$" then
        match tl with
        | d :: tl' =>
            if isCh d "$" then "$"%char :: GetSubstitution tl' nGroups mt text
            else if isCh d "&" then matched mt ++ GetSubstitution tl' nGroups mt text
            else if isCh d "`" then firstn (index mt) text ++ GetSubstitution tl' nGroups mt text
            else if isCh d "'" then skipn (endOf mt) text ++ GetSubstitution tl' nGroups mt text
            else
              match digitVal d with
              | Some n =>
                  if (Nat.leb 1 n && Nat.leb n nGroups)%bool then
                    match groups mt n with
                    | Some s => s
                    | None => []
                    end ++ GetSubstitution tl' nGroups mt text
                  else c :: GetSubstitution tl nGroups mt text
              | None => c :: GetSubstitution tl nGroups mt text
              end
        | [] => [c]
        end
      else c :: GetSubstitution tl nGroups mt text
  end.

(** [String.prototype.replace] with a global pattern and a replacement
    string: every match, left to right, none overlapping; after an empty
    match the search moves on by one character.  [pos] is the end of the
    last match.  The search position grows at each turn, so the [fuel]
    that [String_replace] gives is never used up. *)
Fixpoint replaceFrom (fuel : nat) (re : RegExp) (repl text : jsstring) (pos i : nat) : jsstring :=
  match fuel with
  | 0 => skipn pos text
  | S fuel' =>
      match firstMatchFrom re text i with
      | None => skipn pos text
      | Some mt =>
          firstn (index mt - pos) (skipn pos text)
          ++ GetSubstitution repl (length (groupsOf (pattern re))) mt text
          ++ replaceFrom fuel' re repl text (endOf mt)
               (if Nat.eqb (length (matched mt)) 0 then S (endOf mt) else endOf mt)
      end
  end.

Definition String_replace (text : jsstring) (re : RegExp) (repl : jsstring) : jsstring :=
  replaceFrom (length text + 2) re repl text 0 0.

(** [String.prototype.lastIndexOf] (15.5.4.8): the largest position, not
    above [position], at which [searchString] occurs; -1 when there is none. *)
Fixpoint isPrefixOf (p s : jsstring) : bool :=
  match p, s with
  | [], _ => true
  | _ :: _, [] => false
  | a :: p', b :: s' => (Ascii.eqb a b && isPrefixOf p' s')%bool
  end.

Fixpoint lastIndexOfFrom (searchString s : jsstring) (k position : nat) (best : Z) : Z :=
  if Nat.ltb position k then best else
  let best' := if isPrefixOf searchString s then Z.of_nat k else best in
  match s with
  | [] => best'
  | _ :: tl => lastIndexOfFrom searchString tl (S k) position best'
  end.

Definition String_lastIndexOf (text searchString : jsstring) (position : nat) : Z :=
  lastIndexOfFrom searchString text 0 position (-1).

(** [String.prototype.substr] with a start and a length inside [nat]. *)
Definition String_substr (text : jsstring) (start len : nat) : jsstring :=
  firstn len (skipn start text).

(** A regular expression literal of the source: its text is parsed when
    the definition is made. *)
Definition emptyRegExp : RegExp := mkRegExp [] Empty false false false 0.

Definition literal (src flags : string) : RegExp :=
  match RegExp_new (str src) (str flags) with
  | Some re => re
  | None => emptyRegExp
  end.

(** ** StringUtils *)

(** The lines of [text]; [cur] holds, last character first, the line
    that is being read. *)
Fixpoint splitLines (cur : jsstring) (text : jsstring) : list jsstring :=
  match text with
  | [] => [rev cur]
  | c :: tl =>
      if Ascii.eqb c LF then rev cur :: splitLines [] tl
      else splitLines (c :: cur) tl
  end.

(** Modelled from the spec: [StringUtils.getLines], whose source is not in
    [src/]: the text is split into lines once, newline-delimited. *)
Definition getLines (text : jsstring) : list jsstring := splitLines [] text.

(** Modelled from the spec: [StringUtils.offsetToLineNum], whose source is
    not in [src/]: the 0-based line number is the count of line breaks up
    to the offset.  The helper is handed the lines, so it counts the line
    breaks that end the lines lying wholly before the offset. *)
Fixpoint offsetToLineNum (lines : list jsstring) (offset : nat) : nat :=
  match lines with
  | [] => 0
  | l :: ls =>
      if Nat.leb offset (length l) then 0
      else S (offsetToLineNum ls (offset - length l - 1))
  end.

(** ** The match extractor *)

Module Position.
Record t : Type := mk { line : Z; ch : Z }.
End Position.

Record Match : Type := mkMatch {
  start : Position.t;
  end_ : Position.t;
  line : jsstring
}.

(** How far a run of the extractor got: it returned, it threw a
    [TypeError], or the loop was still running when the fuel ran out. *)
Inductive Status : Type := Returned | Threw | Running.

(** The steps of the extractor that a run went through, oldest first. *)
Inductive Step : Type := StepSearch | StepGetLines | StepExec.

(** A run of [_getSearchMatches]: [value] is [None] for [null] and the
    array of matches otherwise (the array built so far when the run did
    not return); [regexp] is the pattern object as the run left it. *)
Record Run : Type := mkRun {
  status : Status;
  value : option (list Match);
  regexp : RegExp;
  steps : list Step
}.

(** The body of the [while] loop (lines 162-174): the match record made
    from one result of [exec]; [None] when [lines[lineNum]] is undefined
    and [line.substr] throws. *)
Definition matchRecord (contents : jsstring) (lines : list jsstring) (mt : MatchArray)
  : option Match :=
  let lineNum := offsetToLineNum lines (index mt) in
  match nth_error lines lineNum with
  | None => None
  | Some line =>
      let ch := (Z.of_nat (index mt)
                 - String_lastIndexOf contents [LF] (index mt) - 1)%Z in
      let matchLength := length (matched mt) in
      let line := String_substr line 0 (Nat.min 200 (length line)) in
      Some (mkMatch (Position.mk (Z.of_nat lineNum) ch)
                    (Position.mk (Z.of_nat lineNum) (ch + Z.of_nat matchLength))
                    line)
  end.

(** The [while] loop (line 161): one unit of fuel for each call of [exec]. *)
Fixpoint searchLoop (fuel : nat) (contents : jsstring) (lines : list jsstring)
         (queryExpr : RegExp) (matches : list Match) (log : list Step) : Run :=
  match fuel with
  | 0 => mkRun Running (Some matches) queryExpr log
  | S fuel' =>
      match RegExp_exec queryExpr contents with
      | (queryExpr', None) =>
          mkRun Returned (Some matches) queryExpr' (log ++ [StepExec])
      | (queryExpr', Some mt) =>
          match matchRecord contents lines mt with
          | None => mkRun Threw (Some matches) queryExpr' (log ++ [StepExec])
          | Some item =>
              searchLoop fuel' contents lines queryExpr' (matches ++ [item])
                         (log ++ [StepExec])
          end
      end
  end.

Definition _getSearchMatches (fuel : nat) (contents : jsstring) (queryExpr : RegExp) : Run :=
  (* Quick exit if not found *)
  if Z.eqb (String_search contents queryExpr) (-1)
  then mkRun Returned None queryExpr [StepSearch]
  else
    let lines := getLines contents in
    searchLoop fuel contents lines queryExpr [] [StepSearch; StepGetLines].

(** [_getSearchMatches] with [StringUtils.getLines] left open: [getLines]
    stands for whatever the helper does, [None] being an exception that
    it throws. *)
Definition _getSearchMatches_with (getLines : jsstring -> option (list jsstring))
           (fuel : nat) (contents : jsstring) (queryExpr : RegExp) : Run :=
  (* Quick exit if not found *)
  if Z.eqb (String_search contents queryExpr) (-1)
  then mkRun Returned None queryExpr [StepSearch]
  else
    match getLines contents with
    | None => mkRun Threw None queryExpr [StepSearch; StepGetLines]
    | Some lines =>
        searchLoop fuel contents lines queryExpr [] [StepSearch; StepGetLines]
    end.

(** ** The query compiler *)

Definition isRE_regexp : RegExp :=
  Eval vm_compute in literal "^\/(.*)\/(g|i)*$" "".

Definition escape_regexp : RegExp :=
  Eval vm_compute in literal "([(){}\[\].\^$|?+*\\])" "g".

(** [flags.search("g")]: the string argument becomes [new RegExp("g")]. *)
Definition g_regexp : RegExp :=
  Eval vm_compute in literal "g" "".

Definition orDefault (o : option jsstring) (d : jsstring) : jsstring :=
  match o with
  | Some (c :: s) => c :: s
  | _ => d
  end.

(** [_getQueryRegExp]; [None] is the [SyntaxError] of [new RegExp]. *)
Definition _getQueryRegExp (query : jsstring) : option RegExp :=
  (* If query is a regular expression, use it directly *)
  match String_match query isRE_regexp with
  | Some isRE =>
      (* Make sure the 'g' flag is set *)
      let flags := orDefault (groups isRE 2) (str "g") in
      let flags :=
        if Z.eqb (String_search flags g_regexp) (-1) then flags ++ str "g" else flags in
      RegExp_new (match groups isRE 1 with Some body => body | None => [] end) flags
  | None =>
      (* Query is a string. Turn it into a case-insensitive regexp *)
      let query := String_replace query escape_regexp (str "\$1") in
      RegExp_new query (str "gi")
  end.

(** ** The search over the files of the project *)

(** What [DocumentManager.getDocumentForPath] came to for one file. *)
Inductive LoadOutcome : Type :=
| Document (text : jsstring)
| LoadError.

Record FileResult : Type := mkFileResult {
  fullPath : jsstring;
  matches : list Match
}.

Inductive Promise : Type := Resolved | Rejected.

(** The shared state of the callbacks: the one pattern object and the
    [searchResults] array. *)
Record SearchState : Type := mkSearch {
  queryExpr : RegExp;
  searchResults : list FileResult
}.

(** The callback given to [Async.doInParallel] (lines 314-336), run when
    the load of the file has settled: what it leaves of the shared state,
    and the promise it settles, unless the extractor did not return. *)
Definition processFile (fuel : nat) (st : SearchState) (file : jsstring * LoadOutcome)
  : Status * SearchState * Promise :=
  match snd file with
  | Document text =>
      let run := _getSearchMatches fuel text (queryExpr st) in
      match status run with
      | Returned =>
          let found :=
            match value run with
            | Some (item :: more) => [mkFileResult (fst file) (item :: more)]
            | _ => []
            end in
          (Returned, mkSearch (regexp run) (searchResults st ++ found), Resolved)
      | other => (other, mkSearch (regexp run) (searchResults st), Resolved)
      end
  | LoadError =>
      (* Error reading this file.  Resolve here so we move on to the next file. *)
      (Returned, st, Resolved)
  end.

(** Modelled from the spec: [Async.doInParallel], whose source is not in
    [src/]: every load is started, and the master promise settles once
    each item has settled; it is rejected when some item was.  [files]
    lists the files in the order in which their loads settle. *)
Fixpoint doInParallel (fuel : nat) (st : SearchState) (files : list (jsstring * LoadOutcome))
         (master : Promise) : Status * SearchState * Promise :=
  match files with
  | [] => (Returned, st, master)
  | file :: more =>
      match processFile fuel st file with
      | (Returned, st', Resolved) => doInParallel fuel st' more master
      | (Returned, st', Rejected) => doInParallel fuel st' more Rejected
      | stuck => stuck
      end
  end.

(** What the user of the search gets to see. *)
Inductive Outcome : Type :=
| NoSearch                                   (* empty query or Esc *)
| PatternError                               (* new RegExp threw *)
| Shown (results : list FileResult)          (* _showSearchResults(searchResults) *)
| LoggedFailure                              (* "find in files failed." *)
| Crashed (results : list FileResult)        (* an exception in a callback *)
| Hung (results : list FileResult).          (* a scan that does not end *)

(** [doFindInFiles], after the dialog has given [query] and the file index
    its list (lines 309-343). *)
Definition doFindInFiles (fuel : nat) (query : option jsstring)
           (files : list (jsstring * LoadOutcome)) : Outcome :=
  match query with
  | None | Some [] => NoSearch
  | Some query =>
      match _getQueryRegExp query with
      | None => PatternError
      | Some queryExpr =>
          match doInParallel fuel (mkSearch queryExpr []) files Resolved with
          | (Returned, st, Resolved) => Shown (searchResults st)
          | (Returned, st, Rejected) => LoggedFailure
          | (Threw, st, _) => Crashed (searchResults st)
          | (Running, st, _) => Hung (searchResults st)
          end
      end
  end.

(** ** The results panel *)

(** [String.prototype.substr] (B.2.3) with integer arguments; [len] is
    [None] when the length is left out. *)
Definition String_substr_int (text : jsstring) (start : Z) (len : option Z) : jsstring :=
  let size := Z.of_nat (length text) in
  let from := if Z.leb 0 start then start else Z.max (size + start) 0 in
  let count :=
    match len with
    | Some n => Z.min (Z.max n 0) (size - from)
    | None => (size - from)%Z
    end in
  if Z.leb count 0 then []
  else firstn (Z.to_nat count) (skipn (Z.to_nat from) text).

(** [String.prototype.substring] (15.5.4.15): both ends are brought into
    the string and put in order. *)
Definition String_substring (text : jsstring) (start stop : Z) : jsstring :=
  let len := Z.of_nat (length text) in
  let finalStart := Z.min (Z.max start 0) len in
  let finalEnd := Z.min (Z.max stop 0) len in
  let from := Z.min finalStart finalEnd in
  let to := Z.max finalStart finalEnd in
  firstn (Z.to_nat (to - from)) (skipn (Z.to_nat from) text).

Definition lt_regexp : RegExp :=
  Eval vm_compute in literal "<" "g".

Definition gt_regexp : RegExp :=
  Eval vm_compute in literal ">" "g".

(** [esc] of lines 215-219. *)
Definition esc (s : jsstring) : jsstring :=
  let s := String_replace s lt_regexp (str "&lt;") in
  let s := String_replace s gt_regexp (str "&gt;") in
  s.

(** [highlightMatch] of lines 221-223. *)
Definition highlightMatch (text : jsstring) (from to : Z) : jsstring :=
  esc (String_substr_int text 0 (Some from))
  ++ str "<span class='highlight'>"
  ++ esc (String_substring text from to)
  ++ str "</span>"
  ++ esc (String_substr_int text to None).

Definition FIND_IN_FILES_MAX : nat := 100.

(** The entries of [Strings] that the summary chooses between. *)
Inductive StringsKey : Type :=
| FIND_IN_FILES_MATCH
| FIND_IN_FILES_MATCHES
| FIND_IN_FILES_FILE
| FIND_IN_FILES_FILES.

(** What the header of the panel is made from (lines 194-204): the four
    arguments given to [StringUtils.format] with the title, and whether
    the note about the limit is put after it. *)
Record SummaryText : Type := mkSummary {
  numMatches : nat;
  matchesWord : StringsKey;
  numFiles : nat;
  filesWord : StringsKey;
  maxNote : bool
}.

(** A row of the results table: the header of a file, or a match with
    the line number it is labelled with, the markup of its excerpt, and
    the selection that a click on it sets in the file. *)
Inductive Row : Type :=
| FileSection (path : jsstring)
| MatchRow (path : jsstring) (lineLabel : Z) (excerpt : jsstring)
           (selection : Position.t * Position.t).

(** The row of one match (lines 238-250). *)
Definition matchRow (item : FileResult) (mt : Match) : Row :=
  MatchRow (fullPath item)
           (Position.line (start mt) + 1)%Z
           (highlightMatch (line mt) (Position.ch (start mt)) (Position.ch (end_ mt)))
           (start mt, end_ mt).

(** [item.matches.forEach] of lines 236-253: the rows added and the
    counter [resultsDisplayed] afterwards. *)
Fixpoint matchRows (item : FileResult) (ms : list Match) (resultsDisplayed : nat)
  : list Row * nat :=
  match ms with
  | [] => ([], resultsDisplayed)
  | mt :: more =>
      if Nat.ltb resultsDisplayed FIND_IN_FILES_MAX
      then
        let (rows, n) := matchRows item more (S resultsDisplayed) in
        (matchRow item mt :: rows, n)
      else matchRows item more resultsDisplayed
  end.

(** [searchResults.forEach] of lines 209-256. *)
Fixpoint resultRows (searchResults : list FileResult) (resultsDisplayed : nat) : list Row :=
  match searchResults with
  | [] => []
  | item :: more =>
      if Nat.ltb resultsDisplayed FIND_IN_FILES_MAX
      then
        let (rows, n) := matchRows item (matches item) resultsDisplayed in
        FileSection (fullPath item) :: rows ++ resultRows more n
      else resultRows more resultsDisplayed
  end.

(** The panel [#search-results] and what [_showSearchResults] does around
    it: whether it is shown, its header, its table, the one-shot click
    handlers bound to its close button, and the calls of
    [EditorManager.resizeEditor]. *)
Record Panel : Type := mkPanel {
  shown : bool;
  summary : option SummaryText;
  table : list Row;
  closeHandlers : nat;
  resizes : nat
}.

(** [_showSearchResults] (lines 180-274). *)
Definition _showSearchResults (searchResults : list FileResult) (p : Panel) : Panel :=
  let p :=
    if negb (Nat.eqb (length searchResults) 0) then
      (* Count the total number of matches *)
      let numMatches :=
        fold_left (fun n item => n + length (matches item)) searchResults 0 in
      (* Show result summary in header *)
      let summary :=
        mkSummary numMatches
                  (if Nat.ltb 1 numMatches
                   then FIND_IN_FILES_MATCHES else FIND_IN_FILES_MATCH)
                  (length searchResults)
                  (if Nat.ltb 1 (length searchResults)
                   then FIND_IN_FILES_FILES else FIND_IN_FILES_FILE)
                  (Nat.ltb FIND_IN_FILES_MAX numMatches) in
      mkPanel true (Some summary) (resultRows searchResults 0)
              (S (closeHandlers p)) (resizes p)
    else mkPanel false (summary p) (table p) (closeHandlers p) (resizes p) in
  mkPanel (shown p) (summary p) (table p) (closeHandlers p) (S (resizes p)).

(** ** The dialog *)

(** A [$.Deferred] that is only ever resolved: resolving it a second time
    does nothing. *)
Inductive Deferred : Type :=
| Pending
| ResolvedWith (value : option jsstring).

Definition resolve (d : Deferred) (value : option jsstring) : Deferred :=
  match d with
  | Pending => ResolvedWith value
  | ResolvedWith v => ResolvedWith v
  end.

(** A [FindInFilesDialog] with what its methods touch: the flag [closed],
    the deferred [result] ([None] is [null]), whether the dialog [div] is
    in the page ([None] before it is made), the text of the search field,
    and the calls of [EditorManager.focusEditor]. *)
Record FindInFilesDialog : Type := mkDialog {
  closed : bool;
  result : option Deferred;
  dialog : option bool;
  searchField : jsstring;
  focusEditorCalls : nat
}.

(** The constructor (lines 78-81). *)
Definition FindInFilesDialog_new : FindInFilesDialog := mkDialog false None None [] 0.

(** [_close] (lines 96-105); [None] is the [TypeError] of a call on the
    dialog or the deferred that is not there yet. *)
Definition _close (value : option jsstring) (this : FindInFilesDialog)
  : option FindInFilesDialog :=
  if closed this then Some this
  else
    match dialog this, result this with
    | Some _, Some d =>
        Some (mkDialog true (Some (resolve d value)) (Some false) (searchField this)
                       (S (focusEditorCalls this)))
    | _, _ => None
    end.

(** [showDialog] (lines 112-144): a new deferred, the dialog put into the
    page, the field filled with [initialString || ""], the handlers
    bound. *)
Definition showDialog (initialString : option jsstring) (this : FindInFilesDialog)
  : FindInFilesDialog :=
  mkDialog (closed this) (Some Pending) (Some true)
           (match initialString with Some s => s | None => [] end)
           (focusEditorCalls this).

(** What comes to the search field while it is in the page: the user
    changes its text, presses a key, or the field loses the focus. *)
Inductive FieldEvent : Type :=
| Input (text : jsstring)
| Keydown (keyCode : Z)
| Blur.

(** The handlers bound to the search field (lines 124-140); a change of
    the text has no handler. *)
Definition fieldHandler (e : FieldEvent) (this : FindInFilesDialog)
  : option FindInFilesDialog :=
  match e with
  | Input text =>
      match dialog this with
      | Some true =>
          Some (mkDialog (closed this) (result this) (dialog this) text
                         (focusEditorCalls this))
      | _ => Some this
      end
  | Keydown keyCode =>
      if (Z.eqb keyCode 13 || Z.eqb keyCode 27)%bool   (* Enter/Return key or Esc key *)
      then
        let query := Some (searchField this) in
        let query := if Z.eqb keyCode 27 then None else query in
        _close query this
      else Some this
  | Blur => _close None this
  end.

Fixpoint fieldEvents (es : list FieldEvent) (this : FindInFilesDialog)
  : option FindInFilesDialog :=
  match es with
  | [] => Some this
  | e :: more =>
      match fieldHandler e this with
      | Some this' => fieldEvents more this'
      | None => None
      end
  end.

(** [doFindInFiles] from its first line on: the dialog is made and shown
    with the text selected in the focused editor, if there is one; the
    events come to its field; the [done] callback of its promise runs the
    search with the value the promise was resolved with.  [None] stands
    for a dialog that is still open. *)
Definition doFindInFiles_dialog (fuel : nat) (selectedText : option jsstring)
           (es : list FieldEvent) (files : list (jsstring * LoadOutcome)) : option Outcome :=
  match fieldEvents es (showDialog selectedText FindInFilesDialog_new) with
  | Some this =>
      match result this with
      | Some (ResolvedWith query) => Some (doFindInFiles fuel query files)
      | _ => None
      end
  | None => None
  end.

(** ** The height of the panel *)

Definition EDITOR_MIN_HEIGHT : Z := 400.

Definition MIN_HEIGHT : Z := 100.

(** What [_setHeight] writes: the heights of [$searchResults] and of
    [$searchContent], the preference [height] ([None]: not written yet),
    and the calls of [EditorManager.resizeEditor]. *)
Record Layout : Type := mkLayout {
  searchResultsHeight : option Z;
  searchContentHeight : option Z;
  prefsHeight : option Z;
  resizeEditorCalls : nat
}.

(** [_setHeight] (lines 353-374). *)
Definition _setHeight (height : Z) (l : Layout) : Layout :=
  mkLayout (Some height) (Some (height - 30)%Z) (Some height) (S (resizeEditorCalls l)).

(** The variables of one run of the [mousedown] handler, shared by the
    callbacks it makes: [newHeight], and whether its [doRedraw] is
    requested for the next animation frame, its [mousemove] handler bound
    and its one-shot [mouseup] handler bound. *)
Record Drag : Type := mkDrag {
  newHeight : Z;
  redrawRequested : bool;
  mousemoveBound : bool;
  mouseupBound : bool
}.

(** The state that [_initSearchResizer] sets up and its handlers change:
    [isMouseDown], the drags begun so far, oldest first, whether the body
    has the class [hor-resizing], and the layout. *)
Record Resizer : Type := mkResizer {
  isMouseDown : bool;
  drags : list Drag;
  horResizing : bool;
  layout : Layout
}.

(** [_initSearchResizer] (lines 380-386). *)
Definition _initSearchResizer (l : Layout) : Resizer := mkResizer false [] false l.

(** The events that the handlers are bound to, each with what it reads:
    the height of [$mainView] and [clientY]; and an animation frame of
    the browser. *)
Inductive ResizerEvent : Type :=
| Mousedown (mainViewHeight clientY : Z)
| Mousemove (mainViewHeight clientY : Z)
| Mouseup
| AnimationFrame.

(** Lines 389 and 392, and again lines 418-419. *)
Definition heightFor (mainViewHeight clientY : Z) : Z :=
  let newHeight :=
    Z.min (mainViewHeight - clientY)%Z (mainViewHeight - EDITOR_MIN_HEIGHT)%Z in
  Z.max newHeight MIN_HEIGHT.

(** The [mousedown] handler (lines 387-437). *)
Definition onMousedown (mainViewHeight clientY : Z) (r : Resizer) : Resizer :=
  mkResizer true
            (drags r ++ [mkDrag (heightFor mainViewHeight clientY) true true true])
            (negb (horResizing r))
            (layout r).

(** The [mousemove] handler of a drag (lines 417-421). *)
Definition onMousemove (mainViewHeight clientY : Z) (d : Drag) : Drag :=
  if mousemoveBound d
  then mkDrag (heightFor mainViewHeight clientY) (redrawRequested d) true (mouseupBound d)
  else d.

Definition offMousemove (d : Drag) : Drag :=
  mkDrag (newHeight d) (redrawRequested d) false (mouseupBound d).

Definition offMouseup (d : Drag) : Drag :=
  mkDrag (newHeight d) (redrawRequested d) (mousemoveBound d) false.

(** The [mouseup] handler of a drag (lines 423-434). *)
Definition mouseupHandler (r : Resizer) : Resizer :=
  mkResizer false (map offMousemove (drags r)) (negb (horResizing r)) (layout r).

(** A [mouseup] on the main view: the handlers bound with [one] run, one
    for each drag that has its handler still bound, and are gone. *)
Definition onMouseup (r : Resizer) : Resizer :=
  let r' := fold_left (fun r _ => mouseupHandler r) (filter mouseupBound (drags r)) r in
  mkResizer (isMouseDown r') (map offMouseup (drags r')) (horResizing r') (layout r').

(** [doRedraw] of a drag (lines 400-415); [doResize] is always true. *)
Definition doRedraw (down : bool) (d : Drag) (l : Layout) : Drag * Layout :=
  if redrawRequested d then
    (* only run this if the mouse is down *)
    if negb down
    then (mkDrag (newHeight d) false (mousemoveBound d) (mouseupBound d), l)
    else (d, _setHeight (newHeight d) l)
  else (d, l).

(** An animation frame: the callbacks requested run in the order in which
    they were requested. *)
Fixpoint redraws (down : bool) (ds : list Drag) (l : Layout) : list Drag * Layout :=
  match ds with
  | [] => ([], l)
  | d :: more =>
      let (d', l') := doRedraw down d l in
      let (more', l'') := redraws down more l' in
      (d' :: more', l'')
  end.

Definition onAnimationFrame (r : Resizer) : Resizer :=
  let (ds, l) := redraws (isMouseDown r) (drags r) (layout r) in
  mkResizer (isMouseDown r) ds (horResizing r) l.

Definition resizerEvent (r : Resizer) (e : ResizerEvent) : Resizer :=
  match e with
  | Mousedown h y => onMousedown h y r
  | Mousemove h y =>
      mkResizer (isMouseDown r) (map (onMousemove h y) (drags r)) (horResizing r) (layout r)
  | Mouseup => onMouseup r
  | AnimationFrame => onAnimationFrame r
  end.

Definition resizerEvents (es : list ResizerEvent) (r : Resizer) : Resizer :=
  fold_left resizerEvent es r.

(** ** Notions of the specification *)

(** The backslash put before a metacharacter by the [replace] of line 291. *)
Definition escapeChar (c : ascii) : jsstring :=
  if isSyntaxChar c then ["\"%char; c] else [c].

Definition escapeQuery (query : jsstring) : jsstring := flat_map escapeChar query.

(** The pattern that matches the characters of [query] one after the other. *)
Fixpoint lit (query : jsstring) : regex :=
  match query with
  | [] => Empty
  | c :: q => Seq (Char c) (lit q)
  end.

(** [p] is a prefix of [s], characters compared after [Canonicalize]. *)
Fixpoint prefixCI (ic : bool) (p s : jsstring) : bool :=
  match p, s with
  | [], _ => true
  | _ :: _, [] => false
  | a :: p', ch :: s' =>
      (Ascii.eqb (Canonicalize ic ch) (Canonicalize ic a) && prefixCI ic p' s')%bool
  end.

(** A literal occurrence of [query] at position [k] of [text], letter case
    ignored when [ic] is set. *)
Definition occursAt (ic : bool) (query text : jsstring) (k : nat) : bool :=
  (Nat.leb k (length text) && prefixCI ic query (skipn k text))%bool.

(** The state of the matcher [n] characters further on. *)
Fixpoint advance (n i : nat) (p : option ascii) (l : jsstring) (cap : Captures) : State :=
  match n, l with
  | S n', ch :: tl => advance n' (S i) (Some ch) tl cap
  | _, _ => mkState i p l cap
  end.

Definition isFlagChar (c : ascii) : bool := (isCh c "g" || isCh c "i")%bool.

Definition notLineTerminator (c : ascii) : bool := negb (isLineTerminator c).

(** The shape of line 278: a slash, a body without line break, a slash,
    and flags that are all g or i. *)
Definition hasShape (query : jsstring) : Prop :=
  exists body flags,
    query = "/"%char :: body ++ "/"%char :: flags
    /\ forallb notLineTerminator body = true
    /\ forallb isFlagChar flags = true.

(** Capture 2 of the shape: the flag matched by the last turn of [(g|i)*]. *)
Definition lastFlag (flags : jsstring) : option jsstring :=
  match flags with
  | [] => None
  | c :: tl => Some [last tl c]
  end.

(** The captures after [(g|i)*] has gone through [flags]. *)
Fixpoint flagCaps (flags : jsstring) (cap : Captures) : Captures :=
  match flags with
  | [] => cap
  | c :: tl => flagCaps tl (setCapture 2 [c] (clearCaps [2] cap))
  end.

(** The number of line breaks in a text. *)
Definition countLF (text : jsstring) : nat :=
  length (filter (fun c => Ascii.eqb c LF) text).

(** The offset of the last line break before offset [k], -1 when there
    is none. *)
Fixpoint prevNewlineFrom (text : jsstring) (j k : nat) (best : Z) {struct k} : Z :=
  match k, text with
  | S k', c :: tl =>
      prevNewlineFrom tl (S j) k' (if Ascii.eqb c LF then Z.of_nat j else best)
  | _, _ => best
  end.

Definition prevNewline (text : jsstring) (k : nat) : Z :=
  prevNewlineFrom text 0 k (-1).

Definition posLe (a b : Position.t) : Prop :=
  (Position.line a < Position.line b
   \/ (Position.line a = Position.line b /\ Position.ch a <= Position.ch b))%Z.

Definition isLoaded (file : jsstring * LoadOutcome) : bool :=
  match snd file with
  | Document _ => true
  | LoadError => false
  end.

(** The matches that a run has pushed. *)
Definition produced (r : Run) : list Match :=
  match value r with
  | Some ms => ms
  | None => []
  end.

(** [new RegExp(src, flags).exec(text)] as the standard's examples show
    it: the index, element 0 and the first [n] captures. *)
Definition execOn (src flags text : string) (n : nat)
  : option (nat * string * list (option string)) :=
  match RegExp_new (str src) (str flags) with
  | Some re =>
      match String_match (str text) re with
      | Some mt =>
          Some (index mt, string_of_list_ascii (matched mt),
                map (fun k => option_map string_of_list_ascii (groups mt k)) (seq 1 n))
      | None => None
      end
  | None => None
  end.

(** Whether [new RegExp] takes a source text. *)
Definition accepts (src : string) : bool :=
  match parsePattern (str src) with
  | Some _ => true
  | None => false
  end.

(** ** Notions used in the proofs *)

Definition nonSyntax (c : ascii) : bool := negb (isSyntaxChar c).

Definition flagsGroup : regex :=
  Group 2 (Alt (Seq (Char "g") Empty) (Seq (Char "i") Empty)).

Definition shapeTail : regex :=
  Seq (Char "/") (Seq (Quant 0 None true flagsGroup) (Seq Eol Empty)).

Definition lastChar (p : option ascii) (l : jsstring) : option ascii :=
  match l with
  | [] => p
  | c :: tl => Some (last tl c)
  end.

(** The continuation of [.*] inside the shape: close group 1, then the
    second slash, the flags and the end of the input. *)
Definition afterBody (l0 : jsstring) : Continuation :=
  fun y =>
    m false false shapeTail
      (withCaptures (setCapture 1 (firstn (endIndex y - 1) l0) (captures y)) y)
      (fun z => Some z).

(** The flags that line 285 hands to [new RegExp] for a query of the
    shape, given the flags the user wrote. *)
Definition usedFlags (flags : jsstring) : jsstring :=
  match flags with
  | [] => str "g"
  | c :: tl => if isCh (last tl c) "g" then str "g" else str "ig"
  end.

Definition notLF (c : ascii) : bool := negb (Ascii.eqb c LF).

(** [l] is the line of [text] in which [offset] lies: [pre] is the text
    before the line and [post] the text after it. *)
Definition lineSplit (text : jsstring) (offset : nat) (pre l post : jsstring) : Prop :=
  text = pre ++ l ++ post
  /\ forallb notLF l = true
  /\ (pre = [] \/ exists pre', pre = pre' ++ [LF])
  /\ (post = [] \/ exists post', post = LF :: post')
  /\ length pre <= offset <= length pre + length l.

(** A match record of the extractor comes from a match of the pattern. *)
Definition isMatchOf (re : RegExp) (text : jsstring) (M : Match) : Prop :=
  exists i mt,
    firstMatchFrom re text i = Some mt
    /\ matchRecord text (getLines text) mt = Some M.

(** The pattern matches somewhere in the text. *)
Definition hasMatch (re : RegExp) (text : jsstring) : Prop :=
  exists i mt, firstMatchFrom re text i = Some mt.

(** A pattern whose matches are never empty lets the loop end. *)
Definition neverEmpty (re : RegExp) (text : jsstring) : Prop :=
  forall i mt, firstMatchFrom re text i = Some mt -> matched mt <> [].

Definition isI (c : ascii) : bool := isCh c "i".

Definition positions (r : Run) : list (Position.t * Position.t) :=
  map (fun M => (start M, end_ M)) (produced r).

Definition pos (l c : Z) : Position.t := Position.mk l c.

Definition notSlash (c : ascii) : bool := negb (Ascii.eqb c "/").

Definition fooText : jsstring := str "foo" ++ LF :: str "bar foo" ++ [LF].

Definition newlineText : jsstring := str "a" ++ LF :: str "b".

Definition blankLineText : jsstring := str "a" ++ LF :: str "  foo".

Definition longLine : jsstring :=
  repeat "x"%char (N.to_nat 5000) ++ str "foo" ++ repeat "x"%char (N.to_nat 4997).

Definition emptyResult (r : Run) : Prop := produced r = [].

(** The longest text among the files. *)
Fixpoint longest (files : list (jsstring * LoadOutcome)) : nat :=
  match files with
  | [] => 0
  | (_, Document text) :: more => Nat.max (length text) (longest more)
  | (_, LoadError) :: more => longest more
  end.

Definition threeFiles : list (jsstring * LoadOutcome) :=
  [(str "a.js", Document (str "foo")); (str "b.png", LoadError);
   (str "c.js", Document (str "x foo"))].

(** A match of the pattern is reported by a run when a match pushed by
    the run is that very match, or runs over the place where the search
    for it started. *)
Definition reported (re : RegExp) (text : jsstring) (r : Run) (j : nat) (mt : MatchArray)
  : Prop :=
  exists i' mt' M,
    In M (produced r)
    /\ firstMatchFrom re text i' = Some mt'
    /\ matchRecord text (getLines text) mt' = Some M
    /\ (mt' = mt \/ index mt' < j < endOf mt').

(** ** Notions for the panel, the dialog and the resizer *)

(** A match record of an empty match: it ends where it starts. *)
Definition isEmptyMatch (M : Match) : Prop := end_ M = start M.

Definition isExec (s : Step) : bool :=
  match s with
  | StepExec => true
  | _ => false
  end.

(** The calls of [exec] that a run has made. *)
Definition execCalls (r : Run) : nat := length (filter isExec (steps r)).

(** What [esc] makes of one character. *)
Definition escChar (c : ascii) : jsstring :=
  if Ascii.eqb c "<" then str "&lt;"
  else if Ascii.eqb c ">" then str "&gt;"
  else [c].

Definition isAngle (c : ascii) : bool := (Ascii.eqb c "<" || Ascii.eqb c ">")%bool.

Definition noAngle (s : jsstring) : bool := forallb (fun c => negb (isAngle c)) s.

(** A replacement text without a dollar sign. *)
Definition plainText (s : jsstring) : bool := forallb (fun c => negb (isCh c "$")) s.

Definition replaceChar (c : ascii) (repl : jsstring) (x : ascii) : jsstring :=
  if Ascii.eqb x c then repl else [x].

Definition isMatchRow (r : Row) : bool :=
  match r with
  | MatchRow _ _ _ _ => true
  | FileSection _ => false
  end.

(** The rows of all the matches of a result, file after file. *)
Definition allMatchRows (searchResults : list FileResult) : list Row :=
  flat_map (fun item => map (matchRow item) (matches item)) searchResults.

Definition sameString (a b : jsstring) : bool :=
  if list_eq_dec Ascii.ascii_dec a b then true else false.

(** Every header of a file has a match of that file in the next row. *)
Fixpoint headed (rows : list Row) : bool :=
  match rows with
  | [] => true
  | FileSection p :: tl =>
      match tl with
      | MatchRow q _ _ _ :: _ => (sameString p q && headed tl)%bool
      | _ => false
      end
  | MatchRow _ _ _ _ :: tl => headed tl
  end.

Definition hasMatches (item : FileResult) : bool :=
  match matches item with
  | [] => false
  | _ :: _ => true
  end.

Definition noPanel : Panel := mkPanel false None [] 0 0.

Definition closes (e : FieldEvent) : bool :=
  match e with
  | Input _ => false
  | Keydown keyCode => (Z.eqb keyCode 13 || Z.eqb keyCode 27)%bool
  | Blur => true
  end.

Definition staysOpen (es : list FieldEvent) : bool := forallb (fun e => negb (closes e)) es.

(** The text of the field after the user's changes. *)
Fixpoint typed (es : list FieldEvent) (text : jsstring) : jsstring :=
  match es with
  | [] => text
  | Input t :: more => typed more t
  | _ :: more => typed more text
  end.

(** The value that a closing event gives to the promise: the text of the
    field for Enter, [null] for Esc and for the loss of the focus. *)
Definition closingValue (e : FieldEvent) (text : jsstring) : option jsstring :=
  match e with
  | Keydown keyCode => if Z.eqb keyCode 13 then Some text else None
  | _ => None
  end.

(** A result with [n] files of one match each. *)
Definition oneMatchEach (n : nat) : list FileResult :=
  repeat (mkFileResult (str "a.js") [mkMatch (pos 0 0) (pos 0 3) (str "foo")]) n.

Definition isEnter (e : FieldEvent) : bool :=
  match e with
  | Keydown keyCode => Z.eqb keyCode 13
  | _ => false
  end.

Definition noLayout : Layout := mkLayout None None None 0.

(** The layout is as [_setHeight] leaves it, with a height of at least
    [MIN_HEIGHT] and at most [top]. *)
Definition layoutWithin (top : Z) (l : Layout) : Prop :=
  forall h,
    searchResultsHeight l = Some h ->
    (MIN_HEIGHT <= h <= top)%Z
    /\ searchContentHeight l = Some (h - 30)%Z
    /\ prefsHeight l = Some h.

(** The main view is [h] high at each event that reads its height. *)
Definition mainViewIs (h : Z) (e : ResizerEvent) : Prop :=
  match e with
  | Mousedown h' _ | Mousemove h' _ => h' = h
  | _ => True
  end.

Definition isMousemove (e : ResizerEvent) : bool :=
  match e with
  | Mousemove _ _ => true
  | _ => false
  end.

(** The height for the last position of the mouse. *)
Fixpoint lastHeight (es : list ResizerEvent) (h : Z) : Z :=
  match es with
  | [] => h
  | Mousemove mv y :: more => lastHeight more (heightFor mv y)
  | _ :: more => lastHeight more h
  end.

(** The heights of all the drags and of the layout are within the bounds. *)
Definition dragsWithin (top : Z) (r : Resizer) : Prop :=
  Forall (fun d => (MIN_HEIGHT <= newHeight d <= top)%Z) (drags r)
  /\ layoutWithin top (layout r).

(** While the mouse is down, some drag has its [mouseup] handler bound. *)
Definition canRelease (r : Resizer) : Prop :=
  isMouseDown r = true -> existsb mouseupBound (drags r) = true.

(** * Lemmas *)

Open Scope list_scope.

(** A bound [Hf : length _ < fuel] leaves fuel for one more step. *)
Ltac spend fuel Hf := destruct fuel as [|fuel]; [simpl in Hf; lia|].

(** ** The matcher on the examples of the standard

    The informative examples of ECMAScript 5.1, sections 15.10.2.3 to
    15.10.2.9, with the results that the standard gives. *)

Example ES5_15_10_2_3_alternatives :
  execOn "a|ab" "" "abc" 0 = Some (0, "a"%string, [])
  /\ execOn "((a)|(ab))((c)|(bc))" "" "abc" 6
     = Some (0, "abc"%string,
             [Some "a"; Some "a"; None; Some "bc"; None; Some "bc"]%string).
Proof. split; vm_compute; reflexivity. Qed.

Example ES5_15_10_2_5_quantifiers :
  execOn "a[a-z]{2,4}" "" "abcdefghi" 0 = Some (0, "abcde"%string, [])
  /\ execOn "a[a-z]{2,4}?" "" "abcdefghi" 0 = Some (0, "abc"%string, [])
  /\ execOn "(aa|aabaac|ba|b|c)*" "" "aabaac" 1 = Some (0, "aaba"%string, [Some "ba"%string])
  /\ execOn "^(a+)\1*,\1+$" "" "aaaaaaaaaa,aaaaaaaaaaaaaaa" 1
     = Some (0, "aaaaaaaaaa,aaaaaaaaaaaaaaa"%string, [Some "aaaaa"%string]).
Proof. repeat split; vm_compute; reflexivity. Qed.

Example ES5_15_10_2_5_captures_are_cleared :
  execOn "(z)((a+)?(b+)?(c))*" "" "zaacbbbcac" 5
  = Some (0, "zaacbbbcac"%string, [Some "z"; Some "ac"; Some "a"; None; Some "c"]%string).
Proof. vm_compute. reflexivity. Qed.

Example ES5_15_10_2_5_empty_iterations :
  execOn "(a*)*" "" "b" 1 = Some (0, ""%string, [None])
  /\ execOn "(a*)b\1+" "" "baaaac" 1 = Some (0, "b"%string, [Some ""%string]).
Proof. split; vm_compute; reflexivity. Qed.

Example ES5_15_10_2_8_lookahead :
  execOn "(?=(a+))" "" "baaabac" 1 = Some (1, ""%string, [Some "aaa"%string])
  /\ execOn "(?=(a+))a*b\1" "" "baaabac" 1 = Some (3, "aba"%string, [Some "a"%string])
  /\ execOn "(.*?)a(?!(a+)b\2c)\2(.*)" "" "baaabaac" 3
     = Some (0, "baaabaac"%string, [Some "ba"; None; Some "abaac"]%string).
Proof. repeat split; vm_compute; reflexivity. Qed.

(** ** The syntax that engines take beyond the grammar

    A brace that opens no quantifier and a closing bracket stand for
    themselves; a decimal escape is a back reference when the pattern has
    the group, and an octal escape otherwise; [\x] and [\c] without
    what should follow them are no escapes.  What stays an error: a
    parenthesis or bracket left open, a quantifier with nothing before
    it, bounds or a range out of order, a backslash at the end. *)

Example legacy_syntax_is_taken :
  forallb accepts
    ["a{"; "]"; "}"; "x{1"; "x{,5}"; "\1"; "\8"; "\08"; "\xZ"; "\u12"; "\c1"; "[\1]";
     "[\c]"; "[\d-a]"; "(?=a)*"; "(?!a){2}"]%string
  = true.
Proof. vm_compute. reflexivity. Qed.

Example syntax_errors_stay :
  forallb (fun src => negb (accepts src))
    ["("; ")"; "["; "*"; "a**"; "a|+"; "{1}"; "x{1}{2}"; "a{2,1}"; "[b-a]"; "\"; "^*";
     "\b+"; "(?"; "(?a)"]%string
  = true.
Proof. vm_compute. reflexivity. Qed.

Example legacy_syntax_matches :
  execOn "a{" "" "xa{" 0 = Some (1, "a{"%string, [])
  /\ execOn "a{2" "" "aa{2" 0 = Some (1, "a{2"%string, [])
  /\ execOn "[]a]]" "" "a]" 0 = None
  /\ execOn "\101\61" "" "A1" 0 = Some (0, "A1"%string, [])
  /\ execOn "(a)\1" "" "aa" 1 = Some (0, "aa"%string, [Some "a"%string])
  /\ execOn "(a)\2" "" "aa" 1 = None
  /\ execOn "\2(a)(b)" "" "ab" 2 = Some (0, "ab"%string, [Some "a"; Some "b"]%string)
  /\ execOn "\xZ" "" "xZ" 0 = Some (0, "xZ"%string, [])
  /\ execOn "\x41" "" "A" 0 = Some (0, "A"%string, [])
  /\ execOn "\c1" "" "\c1" 0 = Some (0, "\c1"%string, [])
  /\ execOn "[\d-x]+" "" "a-1x" 0 = Some (1, "-1x"%string, [])
  /\ execOn "(?=(a))*b" "" "b" 1 = Some (0, "b"%string, [None]).
Proof. repeat split; vm_compute; reflexivity. Qed.

(** With the flag i, a character above Latin-1 given by an escape meets
    the Latin-1 letter that has the same upper case. *)
Example case_folding_from_above_Latin_1 :
  execOn "\u0178" "i" (String "255"%char "") 0 = Some (0, String "255"%char "", [])
  /\ execOn "\u0178" "" (String "255"%char "") 0 = None
  /\ execOn "\u039c" "i" (String "181"%char "") 0 = Some (0, String "181"%char "", [])
  /\ execOn "\u03bc" "i" (String "181"%char "") 0 = Some (0, String "181"%char "", [])
  /\ execOn "[^\u0178]" "i" (String "255"%char "") 0 = None
  /\ execOn "[\u0100-\u0200]" "i" (String "255"%char "") 0
     = Some (0, String "255"%char "", [])
  /\ execOn "\u0178" "i" "y" 0 = None.
Proof. repeat split; vm_compute; reflexivity. Qed.

(** ** The regular expression literals of the source *)

(** Each literal is what [new RegExp] makes of its text. *)
Lemma isRE_regexp_parsed :
  RegExp_new (str "^\/(.*)\/(g|i)*$") (str "") = Some isRE_regexp.
Proof. vm_compute. reflexivity. Qed.

Lemma escape_regexp_parsed :
  RegExp_new (str "([(){}\[\].\^$|?+*\\])") (str "g") = Some escape_regexp.
Proof. vm_compute. reflexivity. Qed.

Lemma g_regexp_parsed : RegExp_new (str "g") (str "") = Some g_regexp.
Proof. vm_compute. reflexivity. Qed.

(** ** The matcher on literal patterns *)

Lemma m_lit (ic ml : bool) (q : jsstring) :
  forall i p l cap (c : Continuation),
    m ic ml (lit q) (mkState i p l cap) c
    = if prefixCI ic q l then c (advance (length q) i p l cap) else None.
Proof.
  induction q as [|a q IH]; intros i p l cap c.
  - destruct l; reflexivity.
  - destruct l as [|ch tl]; [reflexivity|].
    cbn [lit m CharMatcher rest prefixCI length advance endIndex captures canon].
    unfold canon.
    destruct (Ascii.eqb (Canonicalize ic ch) (Canonicalize ic a)); [|reflexivity].
    apply IH.
Qed.

Lemma advance_endIndex n : forall i p l cap,
  n <= length l -> endIndex (advance n i p l cap) = i + n.
Proof.
  induction n as [|n IH]; intros i p l cap H.
  - destruct l; simpl; lia.
  - destruct l as [|ch tl]; simpl in *; [lia|].
    rewrite IH by lia. lia.
Qed.

Lemma prefixCI_length ic q : forall l, prefixCI ic q l = true -> length q <= length l.
Proof.
  induction q as [|a q IH]; intros [|ch tl] H; simpl in *; try lia; try discriminate.
  apply andb_prop in H. destruct H as [_ H]. apply IH in H. lia.
Qed.

(** The search of [exec] with a literal pattern. *)
Lemma scanFrom_lit_Some ic ml q : forall l i p k y,
  scanFrom ic ml (lit q) i p l = Some (k, y) ->
  i <= k /\ k <= i + length l
  /\ prefixCI ic q (skipn (k - i) l) = true
  /\ endIndex y = k + length q
  /\ (forall j, j < k - i -> prefixCI ic q (skipn j l) = false).
Proof.
  induction l as [|ch tl IH]; intros i p k y H.
  - simpl in H. unfold matchAt in H. rewrite m_lit in H.
    destruct (prefixCI ic q []) eqn:E; [|discriminate].
    injection H as <- <-.
    pose proof (prefixCI_length _ _ _ E) as L.
    rewrite Nat.sub_diag. cbn [skipn]. rewrite advance_endIndex by exact L.
    repeat split; try lia. exact E.
  - cbn [scanFrom] in H. unfold matchAt in H. rewrite m_lit in H.
    destruct (prefixCI ic q (ch :: tl)) eqn:E.
    + injection H as <- <-.
      pose proof (prefixCI_length _ _ _ E) as L.
      rewrite Nat.sub_diag. cbn [skipn]. rewrite advance_endIndex by exact L.
      repeat split; try lia. exact E.
    + apply IH in H. destruct H as (H1 & H2 & H3 & H4 & H5).
      replace (k - i) with (S (k - S i)) by lia. cbn [skipn length].
      repeat split; try lia; try assumption.
      intros j Hj. destruct j as [|j]; [exact E|]. cbn [skipn]. apply H5. lia.
Qed.

Lemma scanFrom_lit_None ic ml q : forall l i p,
  scanFrom ic ml (lit q) i p l = None ->
  forall j, j <= length l -> prefixCI ic q (skipn j l) = false.
Proof.
  induction l as [|ch tl IH]; intros i p H j Hj.
  - simpl in H. unfold matchAt in H. rewrite m_lit in H.
    simpl in Hj. replace j with 0 by lia. simpl.
    destruct (prefixCI ic q []); [discriminate|reflexivity].
  - cbn [scanFrom] in H. unfold matchAt in H. rewrite m_lit in H.
    destruct (prefixCI ic q (ch :: tl)) eqn:E; [discriminate|].
    destruct j as [|j]; [exact E|]. cbn [skipn]. apply (IH _ _ H). simpl in Hj. lia.
Qed.

Lemma firstMatchFrom_lit_Some re q text i mt :
  pattern re = lit q ->
  firstMatchFrom re text i = Some mt ->
  i <= index mt
  /\ occursAt (ignoreCase re) q text (index mt) = true
  /\ matched mt = firstn (length q) (skipn (index mt) text)
  /\ (forall j, i <= j < index mt -> occursAt (ignoreCase re) q text j = false).
Proof.
  intros Hp H. unfold firstMatchFrom in H. rewrite Hp in H.
  destruct (Nat.ltb (length text) i) eqn:Hi; [discriminate|].
  apply Nat.ltb_ge in Hi.
  destruct (scanFrom _ _ _ _ _ _) as [[k y]|] eqn:Hs; [|discriminate].
  injection H as <-. cbn [index matched].
  apply scanFrom_lit_Some in Hs. destruct Hs as (H1 & H2 & H3 & H4 & H5).
  rewrite length_skipn in H2.
  rewrite skipn_skipn in H3. replace (k - i + i) with k in H3 by lia.
  unfold occursAt. repeat split.
  - exact H1.
  - rewrite H3. replace (Nat.leb k (length text)) with true; [reflexivity|].
    symmetry. apply Nat.leb_le. lia.
  - f_equal. lia.
  - intros j Hj. specialize (H5 (j - i)). rewrite skipn_skipn in H5.
    replace (j - i + i) with j in H5 by lia. rewrite H5 by lia.
    apply andb_false_r.
Qed.

Lemma firstMatchFrom_lit_None re q text i :
  pattern re = lit q ->
  firstMatchFrom re text i = None ->
  forall j, i <= j -> occursAt (ignoreCase re) q text j = false.
Proof.
  intros Hp H j Hj. unfold firstMatchFrom in H. rewrite Hp in H. unfold occursAt.
  destruct (Nat.leb j (length text)) eqn:Hl; [|reflexivity].
  apply Nat.leb_le in Hl. cbn [andb].
  destruct (Nat.ltb (length text) i) eqn:Hi.
  - apply Nat.ltb_lt in Hi. lia.
  - destruct (scanFrom _ _ _ _ _ _) as [[k y]|] eqn:Hs; [discriminate|].
    pose proof (scanFrom_lit_None _ _ _ _ _ _ Hs (j - i)) as H5.
    rewrite length_skipn, skipn_skipn in H5.
    replace (j - i + i) with j in H5 by lia. apply H5. lia.
Qed.

(** ** The parser on an escaped query *)

Lemma isSyntaxChar_cases c :
  isSyntaxChar c = false ->
  isCh c "|" = false /\ isCh c ")" = false /\ isCh c "^" = false /\ isCh c "$" = false
  /\ isCh c "." = false /\ isCh c "\" = false /\ isCh c "[" = false /\ isCh c "(" = false
  /\ isCh c "*" = false /\ isCh c "+" = false /\ isCh c "?" = false /\ isCh c "{" = false.
Proof.
  unfold isSyntaxChar, syntaxChars. cbn [str list_ascii_of_string existsb].
  intros H. repeat (apply orb_false_elim in H; destruct H as [? H]).
  repeat split; assumption.
Qed.

Lemma isSyntaxChar_backslash : isSyntaxChar "\" = true.
Proof. reflexivity. Qed.

Lemma parseDigits_syntax c tl acc : isSyntaxChar c = true -> parseDigits acc (c :: tl) = (acc, c :: tl).
Proof.
  unfold isSyntaxChar, syntaxChars. cbn [str list_ascii_of_string existsb].
  intros H.
  repeat (apply orb_prop in H; destruct H as [H|H]);
    try discriminate;
    apply Ascii.eqb_eq in H; subst c; reflexivity.
Qed.

(** An escaped metacharacter is an identity escape. *)
Lemma parseAtomEscape_syntax total c tl :
  isSyntaxChar c = true -> parseAtomEscape total (c :: tl) = Some (Char c, tl).
Proof.
  intros E. unfold parseAtomEscape. rewrite (parseDigits_syntax c tl 0 E).
  revert E. unfold isSyntaxChar, syntaxChars. cbn [str list_ascii_of_string existsb].
  intros H.
  repeat (apply orb_prop in H; destruct H as [H|H]);
    try discriminate;
    apply Ascii.eqb_eq in H; subst c; reflexivity.
Qed.

Lemma isCh_b_syntax c : isSyntaxChar c = true -> isCh c "b" = false /\ isCh c "B" = false.
Proof.
  unfold isSyntaxChar, syntaxChars. cbn [str list_ascii_of_string existsb].
  intros H.
  repeat (apply orb_prop in H; destruct H as [H|H]);
    try discriminate;
    apply Ascii.eqb_eq in H; subst c; split; reflexivity.
Qed.

(** No quantifier starts at the head of an escaped query. *)
Lemma parseQuantifier_escaped r q :
  parseQuantifier r (escapeQuery q) = Some (r, escapeQuery q).
Proof.
  destruct q as [|c q]; [reflexivity|].
  unfold escapeQuery. cbn [flat_map]. unfold escapeChar.
  destruct (isSyntaxChar c) eqn:E.
  - reflexivity.
  - apply isSyntaxChar_cases in E.
    destruct E as (_ & _ & _ & _ & _ & _ & _ & _ & E1 & E2 & E3 & E4).
    cbn [app]. unfold parseQuantifier, parseQuantifierPrefix.
    rewrite E1, E2, E3, E4. reflexivity.
Qed.

Lemma parseAlternative_escaped q : forall fuel total n,
  length q < fuel ->
  parseAlternative fuel total n (escapeQuery q) = Some (lit q, n, []).
Proof.
  induction q as [|c q IH]; intros fuel total n Hf.
  - spend fuel Hf. reflexivity.
  - spend fuel Hf.
    simpl in Hf. assert (Hq : length q < fuel) by lia.
    change (escapeQuery (c :: q)) with (escapeChar c ++ escapeQuery q).
    unfold escapeChar. destruct (isSyntaxChar c) eqn:E.
    + cbn [app parseAlternative].
      change (isCh "\" "|") with false. change (isCh "\" ")") with false.
      change (isCh "\" "^") with false. change (isCh "\" "$") with false.
      change (isCh "\" ".") with false. change (isCh "\" "\") with true.
      cbn [orb].
      destruct (isCh_b_syntax _ E) as [-> ->].
      rewrite (parseAtomEscape_syntax _ _ _ E).
      rewrite parseQuantifier_escaped. rewrite (IH fuel total n Hq). reflexivity.
    + pose proof (isSyntaxChar_cases _ E) as
        (E1 & E2 & E3 & E4 & E5 & E6 & E7 & E8 & E9 & E10 & E11 & E12).
      cbn [app parseAlternative].
      rewrite E1, E2, E3, E4, E5, E6, E7, E8, E9, E10, E11, E12. cbn [orb].
      rewrite parseQuantifier_escaped. rewrite (IH fuel total n Hq). reflexivity.
Qed.

Lemma length_escapeQuery q : length q <= length (escapeQuery q).
Proof.
  induction q as [|c q IH]; [simpl; lia|].
  change (escapeQuery (c :: q)) with (escapeChar c ++ escapeQuery q).
  rewrite length_app. unfold escapeChar. destruct (isSyntaxChar c); simpl; lia.
Qed.

Lemma parsePattern_escaped q : parsePattern (escapeQuery q) = Some (lit q).
Proof.
  unfold parsePattern.
  pose proof (length_escapeQuery q) as L.
  replace (2 * length (escapeQuery q) + 2) with (S (S (2 * length (escapeQuery q)))) by lia.
  cbn [parseDisjunction].
  rewrite !parseAlternative_escaped by lia. reflexivity.
Qed.

Lemma RegExp_new_escaped q :
  RegExp_new (escapeQuery q) (str "gi")
  = Some (mkRegExp (escapeQuery q) (lit q) true true false 0).
Proof.
  unfold RegExp_new. rewrite parsePattern_escaped. reflexivity.
Qed.

(** ** The escaping [replace] of line 291 *)

Lemma escape_class_has c :
  charSetHas
    [CChar "("; CChar ")"; CChar "{"; CChar "}"; CChar "["; CChar "]"; CChar ".";
     CChar "^"; CChar "$"; CChar "|"; CChar "?"; CChar "+"; CChar "*"; CChar "\"] c
  = isSyntaxChar c.
Proof.
  destruct c as [b0 b1 b2 b3 b4 b5 b6 b7].
  destruct b0, b1, b2, b3, b4, b5, b6, b7; reflexivity.
Qed.

Lemma succ_sub_self i : S i - i = 1.
Proof. lia. Qed.

Lemma matchAt_escape i p l :
  matchAt false false (pattern escape_regexp) i p l
  = match l with
    | ch :: tl =>
        if isSyntaxChar ch
        then Some (mkState (S i) (Some ch) tl (setCapture 1 [ch] noCaptures))
        else None
    | [] => None
    end.
Proof.
  destruct l as [|ch tl]; [reflexivity|].
  unfold matchAt.
  cbn [escape_regexp pattern m CharacterSetMatcher rest endIndex captures withCaptures prevChar].
  rewrite escape_class_has.
  destruct (isSyntaxChar ch); [|reflexivity].
  cbn [Bool.eqb]. rewrite succ_sub_self. reflexivity.
Qed.

Lemma scanFrom_escape_hit a : forall i p c b,
  forallb nonSyntax a = true -> isSyntaxChar c = true ->
  scanFrom false false (pattern escape_regexp) i p (a ++ c :: b)
  = Some (i + length a,
          mkState (S (i + length a)) (Some c) b (setCapture 1 [c] noCaptures)).
Proof.
  induction a as [|x a IH]; intros i p c b Ha Hc.
  - cbn [app scanFrom]. rewrite matchAt_escape, Hc. cbn [length].
    rewrite Nat.add_0_r. reflexivity.
  - cbn [forallb] in Ha. apply andb_prop in Ha. destruct Ha as [Hx Ha].
    unfold nonSyntax in Hx. apply negb_true_iff in Hx.
    cbn [app scanFrom]. rewrite matchAt_escape, Hx.
    rewrite (IH (S i) (Some x) c b Ha Hc). cbn [length].
    rewrite Nat.add_succ_r. reflexivity.
Qed.

Lemma scanFrom_escape_miss a : forall i p,
  forallb nonSyntax a = true ->
  scanFrom false false (pattern escape_regexp) i p a = None.
Proof.
  induction a as [|x a IH]; intros i p Ha.
  - reflexivity.
  - cbn [forallb] in Ha. apply andb_prop in Ha. destruct Ha as [Hx Ha].
    unfold nonSyntax in Hx. apply negb_true_iff in Hx.
    cbn [scanFrom]. rewrite matchAt_escape, Hx. apply IH. exact Ha.
Qed.

Lemma split_first_syntax l :
  forallb nonSyntax l = true
  \/ exists a c b, l = a ++ c :: b /\ forallb nonSyntax a = true /\ isSyntaxChar c = true.
Proof.
  induction l as [|x l IH].
  - left. reflexivity.
  - destruct (isSyntaxChar x) eqn:E.
    + right. exists [], x, l. repeat split. exact E.
    + destruct IH as [IH|(a & c & b & -> & Ha & Hc)].
      * left. cbn [forallb]. unfold nonSyntax at 1. rewrite E. exact IH.
      * right. exists (x :: a), c, b. repeat split; [|exact Hc].
        cbn [forallb]. unfold nonSyntax at 1. rewrite E. exact Ha.
Qed.

Lemma escapeQuery_nonSyntax a : forallb nonSyntax a = true -> escapeQuery a = a.
Proof.
  induction a as [|x a IH]; intros Ha; [reflexivity|].
  cbn [forallb] in Ha. apply andb_prop in Ha. destruct Ha as [Hx Ha].
  unfold nonSyntax in Hx. apply negb_true_iff in Hx.
  change (escapeQuery (x :: a)) with (escapeChar x ++ escapeQuery a).
  unfold escapeChar. rewrite Hx, (IH Ha). reflexivity.
Qed.

Lemma escapeQuery_app a b : escapeQuery (a ++ b) = escapeQuery a ++ escapeQuery b.
Proof. unfold escapeQuery. apply flat_map_app. Qed.

Lemma skipn_length_app {A} (pre suf : list A) : skipn (length pre) (pre ++ suf) = suf.
Proof. induction pre; simpl; auto. Qed.

Lemma firstn_length_app {A} (a b : list A) : firstn (length a) (a ++ b) = a.
Proof. induction a; simpl; [destruct b|]; congruence. Qed.

Lemma firstMatchFrom_escape_hit pre a c b :
  forallb nonSyntax a = true -> isSyntaxChar c = true ->
  exists mt,
    firstMatchFrom escape_regexp (pre ++ a ++ c :: b) (length pre) = Some mt
    /\ index mt = length pre + length a
    /\ matched mt = [c]
    /\ groups mt 1 = Some [c].
Proof.
  intros Ha Hc. unfold firstMatchFrom.
  replace (Nat.ltb (length (pre ++ a ++ c :: b)) (length pre)) with false.
  2:{ symmetry. apply Nat.ltb_ge. rewrite length_app. lia. }
  rewrite skipn_length_app.
  change (ignoreCase escape_regexp) with false.
  change (multiline escape_regexp) with false.
  rewrite (scanFrom_escape_hit _ _ _ _ _ Ha Hc).
  eexists. split; [reflexivity|]. cbn [index matched groups endIndex captures].
  repeat split.
  replace (S (length pre + length a) - (length pre + length a)) with 1 by lia.
  replace (pre ++ a ++ c :: b) with ((pre ++ a) ++ c :: b) by (rewrite <- app_assoc; reflexivity).
  replace (length pre + length a) with (length (pre ++ a)) by apply length_app.
  rewrite skipn_length_app. reflexivity.
Qed.

Lemma firstMatchFrom_escape_miss pre a :
  forallb nonSyntax a = true ->
  firstMatchFrom escape_regexp (pre ++ a) (length pre) = None.
Proof.
  intros Ha. unfold firstMatchFrom.
  replace (Nat.ltb (length (pre ++ a)) (length pre)) with false.
  2:{ symmetry. apply Nat.ltb_ge. rewrite length_app. lia. }
  rewrite skipn_length_app.
  change (ignoreCase escape_regexp) with false.
  change (multiline escape_regexp) with false.
  rewrite (scanFrom_escape_miss _ _ _ Ha). reflexivity.
Qed.

Lemma replaceFrom_escape fuel : forall pre suf,
  length suf < fuel ->
  replaceFrom fuel escape_regexp (str "\$1") (pre ++ suf) (length pre) (length pre)
  = escapeQuery suf.
Proof.
  induction fuel as [|fuel IH]; intros pre suf Hf; [lia|].
  cbn [replaceFrom].
  destruct (split_first_syntax suf) as [Hs|(a & c & b & -> & Ha & Hc)].
  - rewrite (firstMatchFrom_escape_miss _ _ Hs), skipn_length_app.
    symmetry. apply escapeQuery_nonSyntax. exact Hs.
  - destruct (firstMatchFrom_escape_hit pre a c b Ha Hc) as (mt & -> & Hi & Hm & Hg).
    assert (He : endOf mt = length (pre ++ a ++ [c])).
    { unfold endOf. rewrite Hi, Hm, !length_app. simpl. lia. }
    rewrite He, Hm. cbn [length Nat.eqb].
    replace (pre ++ a ++ c :: b) with ((pre ++ a ++ [c]) ++ b) at 3
      by (rewrite <- !app_assoc; reflexivity).
    rewrite IH by (rewrite length_app in Hf; simpl in Hf; lia).
    rewrite skipn_length_app, Hi.
    replace (length pre + length a - length pre) with (length a) by lia.
    rewrite firstn_length_app.
    rewrite escapeQuery_app, (escapeQuery_nonSyntax _ Ha).
    change (escapeQuery (c :: b)) with (escapeChar c ++ escapeQuery b).
    unfold escapeChar. rewrite Hc.
    f_equal.
    cbn [str list_ascii_of_string GetSubstitution].
    change (isCh "\" "$") with false. change (isCh "$" "$") with true.
    change (isCh "1" "$") with false. change (isCh "1" "&") with false.
    change (isCh "1" "`") with false. change (isCh "1" "'") with false.
    cbn [digitVal]. change (digitVal "1") with (Some 1).
    change (length (groupsOf (pattern escape_regexp))) with 1.
    cbn [Nat.leb andb]. rewrite Hg. reflexivity.
Qed.

Lemma String_replace_escape query :
  String_replace query escape_regexp (str "\$1") = escapeQuery query.
Proof.
  unfold String_replace. apply (replaceFrom_escape (length query + 2) [] query). lia.
Qed.

(** ** The shape test of line 278 *)

Lemma isRE_pattern :
  pattern isRE_regexp
  = Seq Bol (Seq (Char "/") (Seq (Group 1 (Seq (Quant 0 None true Dot) Empty)) shapeTail)).
Proof. reflexivity. Qed.

Lemma succ_eqb_self i : Nat.eqb (S i) i = false.
Proof. apply Nat.eqb_neq. lia. Qed.

Lemma last_cons_default (tl : jsstring) : forall a d, last (a :: tl) d = last tl a.
Proof.
  induction tl as [|b tl IH]; intros a d; [reflexivity|].
  change (last (a :: b :: tl) d) with (last (b :: tl) d).
  rewrite (IH b d), (IH b a). reflexivity.
Qed.

Lemma lastChar_cons p ch tl : lastChar p (ch :: tl) = lastChar (Some ch) tl.
Proof.
  destruct tl as [|a tl]; [reflexivity|].
  cbn [lastChar]. f_equal. apply last_cons_default.
Qed.

Lemma clearCaptures_mk ids i p l cap :
  clearCaptures ids (mkState i p l cap) = mkState i p l (clearCaps ids cap).
Proof. reflexivity. Qed.

Lemma m_flagsGroup i p ch tl cap (c : Continuation) :
  m false false flagsGroup (mkState i p (ch :: tl) cap) c
  = if isFlagChar ch
    then c (mkState (S i) (Some ch) tl (setCapture 2 [ch] cap))
    else None.
Proof.
  unfold flagsGroup, isFlagChar, isCh.
  cbn [m CharMatcher rest endIndex captures prevChar withCaptures canon Canonicalize].
  rewrite succ_sub_self. cbn [firstn].
  cbn [withCaptures endIndex prevChar rest captures].
  destruct (Ascii.eqb ch "g") eqn:Eg.
  - apply Ascii.eqb_eq in Eg. subst ch. cbn [orb Ascii.eqb].
    change (Ascii.eqb "g" "i") with false.
    destruct (c _); reflexivity.
  - destruct (Ascii.eqb ch "i"); reflexivity.
Qed.

Lemma m_Eol_end i p cap :
  m false false (Seq Eol Empty) (mkState i p [] cap) (fun z => Some z)
  = Some (mkState i p [] cap).
Proof. reflexivity. Qed.

Lemma m_Eol_more i p ch tl cap :
  m false false (Seq Eol Empty) (mkState i p (ch :: tl) cap) (fun z => Some z) = None.
Proof. reflexivity. Qed.

(** [(g|i)*$] on the text after the second slash. *)
Lemma flags_star l : forall fuel i p cap,
  length l < fuel ->
  RepeatFree fuel (m false false flagsGroup) None true [2] (mkState i p l cap)
             (fun y => m false false (Seq Eol Empty) y (fun z => Some z))
  = if forallb isFlagChar l
    then Some (mkState (i + length l) (lastChar p l) [] (flagCaps l cap))
    else None.
Proof.
  induction l as [|ch tl IH]; intros fuel i p cap Hf.
  - spend fuel Hf.
    cbn [RepeatFree isZeroMax clearCaptures withCaptures endIndex prevChar rest captures].
    cbn. rewrite Nat.add_0_r. reflexivity.
  - spend fuel Hf.
    simpl in Hf. assert (Ht : length tl < fuel) by lia.
    cbn [RepeatFree isZeroMax predMax clearCaptures withCaptures
         endIndex prevChar rest captures].
    rewrite clearCaptures_mk, m_flagsGroup, m_Eol_more. cbn [forallb].
    destruct (isFlagChar ch); [|reflexivity].
    cbn [endIndex andb]. rewrite succ_eqb_self, (IH fuel (S i) (Some ch) _ Ht).
    cbn [flagCaps length].
    destruct (forallb isFlagChar tl); [|reflexivity].
    cbn [orElse]. f_equal. f_equal; [lia|symmetry; apply lastChar_cons].
Qed.

Lemma flagCaps_1 fl : forall cap, flagCaps fl cap 1 = cap 1.
Proof.
  induction fl as [|c tl IH]; intros cap; [reflexivity|].
  cbn [flagCaps]. rewrite IH. reflexivity.
Qed.

Lemma flagCaps_2 fl : forall cap,
  flagCaps fl cap 2 = match lastFlag fl with Some s => Some s | None => cap 2 end.
Proof.
  induction fl as [|c tl IH]; intros cap; [reflexivity|].
  cbn [flagCaps lastFlag]. rewrite IH.
  destruct tl as [|d tl]; [reflexivity|].
  cbn [lastFlag]. f_equal. f_equal. symmetry. apply last_cons_default.
Qed.

Lemma m_shapeTail i p l cap :
  m false false shapeTail (mkState i p l cap) (fun z => Some z)
  = match l with
    | ch :: fl =>
        if (Ascii.eqb ch "/" && forallb isFlagChar fl)%bool
        then Some (mkState (S i + length fl) (lastChar (Some ch) fl) [] (flagCaps fl cap))
        else None
    | [] => None
    end.
Proof.
  destruct l as [|ch fl]; [reflexivity|].
  unfold shapeTail.
  cbn [m CharMatcher rest endIndex captures prevChar canon Canonicalize RepeatMatcher].
  destruct (Ascii.eqb ch "/"); [|reflexivity].
  cbn [andb groupsOf flagsGroup app].
  change (m false false (Group 2 (Alt (Seq (Char "g") Empty) (Seq (Char "i") Empty))))
    with (m false false flagsGroup).
  exact (flags_star fl (S (length fl)) (S i) (Some ch) cap (Nat.lt_succ_diag_r _)).
Qed.

Lemma clearCaps_nil cap : clearCaps [] cap = cap.
Proof. reflexivity. Qed.

Lemma m_Dot_cons i p ch tl cap (c : Continuation) :
  m false false Dot (mkState i p (ch :: tl) cap) c
  = if isLineTerminator ch then None else c (mkState (S i) (Some ch) tl cap).
Proof.
  cbn [m CharacterSetMatcher rest endIndex captures prevChar].
  destruct (isLineTerminator ch); reflexivity.
Qed.

Lemma m_Dot_nil i p cap (c : Continuation) :
  m false false Dot (mkState i p [] cap) c = None.
Proof. reflexivity. Qed.

(** One turn of the greedy [.*]. *)
Lemma dot_star_step fuel i p l cap (k : Continuation) :
  RepeatFree (S fuel) (m false false Dot) None true [] (mkState i p l cap) k
  = match l with
    | ch :: tl =>
        if isLineTerminator ch then k (mkState i p l cap)
        else orElse (RepeatFree fuel (m false false Dot) None true []
                                (mkState (S i) (Some ch) tl cap) k)
                    (fun _ => k (mkState i p l cap))
    | [] => k (mkState i p l cap)
    end.
Proof.
  cbn [RepeatFree isZeroMax predMax].
  rewrite clearCaptures_mk, clearCaps_nil.
  destruct l as [|ch tl].
  - rewrite m_Dot_nil. reflexivity.
  - rewrite m_Dot_cons. destruct (isLineTerminator ch); [reflexivity|].
    cbn [endIndex]. rewrite succ_eqb_self. reflexivity.
Qed.

Section DotStar.

Variable k : Continuation.
Hypothesis k_slash : forall i p l cap,
  hd_error l <> Some "/"%char -> k (mkState i p l cap) = None.

Lemma isFlagChar_notLT c : isFlagChar c = true -> isLineTerminator c = false.
Proof.
  unfold isFlagChar, isCh. intros H. apply orb_prop in H.
  destruct H as [H|H]; apply Ascii.eqb_eq in H; subst c; reflexivity.
Qed.

Lemma isFlagChar_notSlash c : isFlagChar c = true -> c <> "/"%char.
Proof.
  unfold isFlagChar, isCh. intros H E. subst c. discriminate H.
Qed.

(** No second slash: [.*] backs off to the start and fails. *)
Lemma dot_star_flags l : forall fuel i p cap,
  length l < fuel -> forallb isFlagChar l = true ->
  RepeatFree fuel (m false false Dot) None true [] (mkState i p l cap) k = None.
Proof.
  induction l as [|ch tl IH]; intros fuel i p cap Hf Hl;
    spend fuel Hf; rewrite dot_star_step.
  - apply k_slash. discriminate.
  - cbn [forallb] in Hl. apply andb_prop in Hl. destruct Hl as [Hc Hl].
    rewrite (isFlagChar_notLT _ Hc).
    rewrite IH by (simpl in Hf; lia || exact Hl).
    cbn [orElse]. apply k_slash. cbn [hd_error].
    intros E. injection E as E. exact (isFlagChar_notSlash _ Hc E).
Qed.

(** [.*] stops before the last slash. *)
Lemma dot_star_hit body : forall fuel i p flags cap z,
  length (body ++ "/"%char :: flags) < fuel ->
  forallb notLineTerminator body = true ->
  forallb isFlagChar flags = true ->
  k (advance (length body) i p (body ++ "/"%char :: flags) cap) = Some z ->
  RepeatFree fuel (m false false Dot) None true []
             (mkState i p (body ++ "/"%char :: flags) cap) k = Some z.
Proof.
  induction body as [|ch body IH]; intros fuel i p flags cap z Hf Hb Hfl Hk;
    spend fuel Hf; rewrite dot_star_step.
  - cbn [app]. change (isLineTerminator "/") with false.
    rewrite dot_star_flags by (simpl in Hf; lia || exact Hfl).
    cbn [orElse]. exact Hk.
  - cbn [app]. cbn [forallb] in Hb. apply andb_prop in Hb. destruct Hb as [Hc Hb].
    unfold notLineTerminator in Hc. apply negb_true_iff in Hc. rewrite Hc.
    rewrite (IH fuel (S i) (Some ch) flags cap z); try assumption.
    + reflexivity.
    + simpl in Hf. lia.
Qed.

(** What a success of [.*] means. *)
Lemma dot_star_inv l : forall fuel i p cap z,
  length l < fuel ->
  RepeatFree fuel (m false false Dot) None true [] (mkState i p l cap) k = Some z ->
  exists n, n <= length l
            /\ forallb notLineTerminator (firstn n l) = true
            /\ k (advance n i p l cap) = Some z.
Proof.
  induction l as [|ch tl IH]; intros fuel i p cap z Hf H;
    spend fuel Hf; rewrite dot_star_step in H.
  - exists 0. repeat split; [lia|exact H].
  - destruct (isLineTerminator ch) eqn:Hc.
    + exists 0. repeat split; [lia|exact H].
    + destruct (RepeatFree fuel _ _ _ _ _ k) as [z'|] eqn:Hr.
      * cbn [orElse] in H. injection H as ->.
        apply IH in Hr; [|simpl in Hf; lia].
        destruct Hr as (n & Hn & Hb & Hk).
        exists (S n). cbn [length firstn forallb advance].
        unfold notLineTerminator at 1. rewrite Hc.
        repeat split; [lia|exact Hb|exact Hk].
      * cbn [orElse] in H. exists 0. repeat split; [lia|exact H].
Qed.

End DotStar.

Lemma advance_eq n : forall i p l cap,
  n <= length l ->
  advance n i p l cap = mkState (i + n) (lastChar p (firstn n l)) (skipn n l) cap.
Proof.
  induction n as [|n IH]; intros i p l cap H.
  - destruct l; cbn; rewrite Nat.add_0_r; reflexivity.
  - destruct l as [|ch tl]; [simpl in H; lia|].
    cbn [advance firstn skipn]. rewrite IH by (simpl in H; lia).
    rewrite lastChar_cons. f_equal. lia.
Qed.

Lemma afterBody_slash l0 i p l cap :
  hd_error l <> Some "/"%char -> afterBody l0 (mkState i p l cap) = None.
Proof.
  intros H. unfold afterBody, withCaptures. cbn [endIndex prevChar rest captures].
  rewrite m_shapeTail. destruct l as [|ch fl]; [reflexivity|].
  destruct (Ascii.eqb ch "/") eqn:E; [|reflexivity].
  apply Ascii.eqb_eq in E. subst ch. exfalso. apply H. reflexivity.
Qed.

Lemma matchAt_isRE query :
  matchAt false false (pattern isRE_regexp) 0 None query
  = match query with
    | c :: l0 =>
        if Ascii.eqb c "/"
        then RepeatFree (S (length l0)) (m false false Dot) None true []
                        (mkState 1 (Some c) l0 noCaptures) (afterBody l0)
        else None
    | [] => None
    end.
Proof.
  destruct query as [|c l0]; [reflexivity|].
  rewrite isRE_pattern. unfold matchAt.
  cbn [m CharMatcher rest endIndex captures prevChar canon Canonicalize].
  destruct (Ascii.eqb c "/"); reflexivity.
Qed.

Lemma scanFrom_Bol r l : forall i c0,
  scanFrom false false (Seq Bol r) i (Some c0) l = None.
Proof.
  induction l as [|ch tl IH]; intros i c0; [reflexivity|].
  cbn [scanFrom]. unfold matchAt at 1. cbn [m prevChar andb]. apply IH.
Qed.

Lemma String_match_isRE query :
  String_match query isRE_regexp
  = match matchAt false false (pattern isRE_regexp) 0 None query with
    | Some y => Some (mkMatchArray 0 (firstn (endIndex y) query) (captures y))
    | None => None
    end.
Proof.
  unfold String_match, firstMatchFrom.
  change (ignoreCase isRE_regexp) with false. change (multiline isRE_regexp) with false.
  cbn [Nat.ltb Nat.leb charBefore skipn].
  destruct query as [|c l0].
  - reflexivity.
  - cbn [scanFrom].
    destruct (matchAt false false (pattern isRE_regexp) 0 None (c :: l0)) as [y|].
    + rewrite Nat.sub_0_r. reflexivity.
    + rewrite isRE_pattern, scanFrom_Bol. reflexivity.
Qed.

Lemma afterBody_at l0 n :
  n <= length l0 ->
  afterBody l0 (advance n 1 (Some "/"%char) l0 noCaptures)
  = match skipn n l0 with
    | ch :: fl =>
        if (Ascii.eqb ch "/" && forallb isFlagChar fl)%bool
        then Some (mkState (S (1 + n) + length fl) (lastChar (Some ch) fl) []
                           (flagCaps fl (setCapture 1 (firstn n l0) noCaptures)))
        else None
    | [] => None
    end.
Proof.
  intros Hn. rewrite advance_eq by exact Hn.
  unfold afterBody, withCaptures. cbn [endIndex prevChar rest captures].
  rewrite m_shapeTail.
  replace (1 + n - 1) with n by lia. reflexivity.
Qed.

(** A query of the shape passes the test of line 278, with the body as
    capture 1 and the last flag as capture 2. *)
Lemma isRE_of_shape body flags :
  forallb notLineTerminator body = true ->
  forallb isFlagChar flags = true ->
  exists isRE,
    String_match ("/"%char :: body ++ "/"%char :: flags) isRE_regexp = Some isRE
    /\ groups isRE 1 = Some body
    /\ groups isRE 2 = lastFlag flags.
Proof.
  intros Hb Hf.
  assert (Hk : afterBody (body ++ "/"%char :: flags)
                 (advance (length body) 1 (Some "/"%char) (body ++ "/"%char :: flags)
                          noCaptures)
               = Some (mkState (S (1 + length body) + length flags)
                               (lastChar (Some "/"%char) flags) []
                               (flagCaps flags (setCapture 1 body noCaptures)))).
  { rewrite afterBody_at by (rewrite length_app; lia).
    rewrite skipn_length_app, firstn_length_app. rewrite Hf. reflexivity. }
  rewrite String_match_isRE, matchAt_isRE.
  change (Ascii.eqb "/" "/") with true. cbv iota.
  rewrite (dot_star_hit _ (afterBody_slash _) body (S (length (body ++ "/"%char :: flags)))
                        1 (Some "/"%char) flags noCaptures _
                        (Nat.lt_succ_diag_r _) Hb Hf Hk).
  eexists. split; [reflexivity|]. cbn [groups captures]. split.
  - rewrite flagCaps_1. reflexivity.
  - rewrite flagCaps_2. destruct (lastFlag flags); reflexivity.
Qed.

(** Only a query of the shape passes the test. *)
Lemma isRE_inv query isRE :
  String_match query isRE_regexp = Some isRE ->
  exists body flags,
    query = "/"%char :: body ++ "/"%char :: flags
    /\ forallb notLineTerminator body = true
    /\ forallb isFlagChar flags = true
    /\ groups isRE 1 = Some body
    /\ groups isRE 2 = lastFlag flags.
Proof.
  rewrite String_match_isRE, matchAt_isRE.
  destruct query as [|c l0]; [discriminate|].
  destruct (Ascii.eqb c "/") eqn:Ec; [|discriminate].
  apply Ascii.eqb_eq in Ec. subst c.
  destruct (RepeatFree _ _ _ _ _ _ _) as [y|] eqn:Hr; [|discriminate].
  intros H. injection H as <-. cbn [groups].
  apply (dot_star_inv (afterBody l0)) in Hr; [|apply Nat.lt_succ_diag_r].
  destruct Hr as (n & Hn & Hb & Hk).
  rewrite afterBody_at in Hk by exact Hn.
  destruct (skipn n l0) as [|ch fl] eqn:Hs; [discriminate|].
  destruct (Ascii.eqb ch "/" && forallb isFlagChar fl)%bool eqn:Hc; [|discriminate].
  apply andb_prop in Hc. destruct Hc as [Hc Hf].
  apply Ascii.eqb_eq in Hc. subst ch. injection Hk as <-. cbn [captures].
  exists (firstn n l0), fl. repeat split.
  - rewrite <- Hs, firstn_skipn. reflexivity.
  - exact Hb.
  - exact Hf.
  - rewrite flagCaps_1. reflexivity.
  - rewrite flagCaps_2. destruct (lastFlag fl); reflexivity.
Qed.

Lemma isRE_iff_shape query :
  (exists isRE, String_match query isRE_regexp = Some isRE) <-> hasShape query.
Proof.
  split.
  - intros [isRE H]. apply isRE_inv in H.
    destruct H as (body & flags & Hq & Hb & Hf & _).
    exists body, flags. auto.
  - intros (body & flags & -> & Hb & Hf).
    destruct (isRE_of_shape body flags Hb Hf) as (isRE & H & _).
    exists isRE. exact H.
Qed.

Lemma last_flag_char tl : forall c,
  forallb isFlagChar (c :: tl) = true -> isFlagChar (last tl c) = true.
Proof.
  induction tl as [|d tl IH]; intros c H.
  - cbn in H. rewrite andb_true_r in H. exact H.
  - rewrite last_cons_default. apply IH.
    cbn [forallb] in H. apply andb_prop in H. apply H.
Qed.

(** Lines 279-285 on a query of the shape. *)
Lemma compile_shape body flags :
  forallb notLineTerminator body = true ->
  forallb isFlagChar flags = true ->
  _getQueryRegExp ("/"%char :: body ++ "/"%char :: flags)
  = RegExp_new body (usedFlags flags).
Proof.
  intros Hb Hf. unfold _getQueryRegExp.
  destruct (isRE_of_shape body flags Hb Hf) as (isRE & -> & H1 & H2).
  rewrite H1, H2. unfold usedFlags, lastFlag.
  destruct flags as [|c tl]; [reflexivity|].
  pose proof (last_flag_char _ _ Hf) as Hl.
  unfold isFlagChar, isCh in Hl. unfold isCh.
  destruct (Ascii.eqb (last tl c) "g") eqn:Eg.
  - apply Ascii.eqb_eq in Eg. rewrite Eg. reflexivity.
  - cbn [orb] in Hl. apply Ascii.eqb_eq in Hl. rewrite Hl. reflexivity.
Qed.

(** Lines 288-292 on any other query. *)
Lemma compile_literal query :
  String_match query isRE_regexp = None ->
  _getQueryRegExp query
  = Some (mkRegExp (escapeQuery query) (lit query) true true false 0).
Proof.
  intros H. unfold _getQueryRegExp. rewrite H, String_replace_escape.
  apply RegExp_new_escaped.
Qed.

(** ** Lines and offsets *)

Lemma countLF_app a b : countLF (a ++ b) = countLF a + countLF b.
Proof. unfold countLF. rewrite filter_app, length_app. reflexivity. Qed.

Lemma countLF_notLF l : forallb notLF l = true -> countLF l = 0.
Proof.
  induction l as [|c l IH]; intros H; [reflexivity|].
  cbn [forallb] in H. apply andb_prop in H. destruct H as [Hc H].
  unfold notLF in Hc. apply negb_true_iff in Hc.
  unfold countLF in *. cbn [filter]. rewrite Hc. apply IH. exact H.
Qed.

Lemma forallb_rev {A} (f : A -> bool) l : forallb f (rev l) = forallb f l.
Proof.
  induction l as [|x l IH]; [reflexivity|].
  cbn [rev forallb]. rewrite forallb_app, IH. cbn. rewrite andb_true_r. apply andb_comm.
Qed.

(** The line that [offsetToLineNum] picks out of [getLines]. *)
Lemma splitLines_line text : forall cur offset,
  forallb notLF cur = true ->
  offset <= length cur + length text ->
  exists pre l post,
    lineSplit (rev cur ++ text) offset pre l post
    /\ nth_error (splitLines cur text) (offsetToLineNum (splitLines cur text) offset)
       = Some l
    /\ offsetToLineNum (splitLines cur text) offset = countLF pre.
Proof.
  induction text as [|c tl IH]; intros cur offset Hcur Hoff.
  - exists [], (rev cur), []. cbn [splitLines offsetToLineNum].
    rewrite length_rev. simpl in Hoff. rewrite Nat.add_0_r in Hoff.
    replace (Nat.leb offset (length cur)) with true by (symmetry; apply Nat.leb_le; lia).
    split; [|split; reflexivity].
    split; [|split; [|split; [|split]]].
    + rewrite app_nil_r. reflexivity.
    + rewrite forallb_rev. exact Hcur.
    + left. reflexivity.
    + left. reflexivity.
    + cbn [length]. rewrite length_rev. lia.
  - cbn [splitLines]. destruct (Ascii.eqb c LF) eqn:Ec.
    + apply Ascii.eqb_eq in Ec. subst c. cbn [offsetToLineNum]. rewrite length_rev.
      destruct (Nat.leb offset (length cur)) eqn:Hle.
      * apply Nat.leb_le in Hle.
        exists [], (rev cur), (LF :: tl).
        split; [|split; reflexivity].
        split; [|split; [|split; [|split]]].
        -- reflexivity.
        -- rewrite forallb_rev. exact Hcur.
        -- left. reflexivity.
        -- right. exists tl. reflexivity.
        -- cbn [length]. rewrite length_rev. lia.
      * apply Nat.leb_gt in Hle.
        destruct (IH [] (offset - length cur - 1) eq_refl) as (pre & l & post & Hs & Hn & Hc).
        { cbn. simpl in Hoff. lia. }
        destruct Hs as (Ht & Hl & Hpre & Hpost & Hb).
        cbn [rev app] in Ht.
        exists (rev cur ++ LF :: pre), l, post.
        split; [|split].
        -- split; [|split; [|split; [|split]]].
           ++ rewrite Ht, <- app_assoc. reflexivity.
           ++ exact Hl.
           ++ right. destruct Hpre as [->|(pre' & ->)].
              ** exists (rev cur). reflexivity.
              ** exists (rev cur ++ LF :: pre'). rewrite <- app_assoc. reflexivity.
           ++ exact Hpost.
           ++ rewrite length_app, length_rev. cbn [length]. lia.
        -- cbn [nth_error]. exact Hn.
        -- rewrite Hc, countLF_app.
           rewrite (countLF_notLF (rev cur)) by (rewrite forallb_rev; exact Hcur).
           reflexivity.
    + destruct (IH (c :: cur) offset) as (pre & l & post & Hs & Hn & Hc).
      { cbn [forallb]. unfold notLF at 1. rewrite Ec. exact Hcur. }
      { simpl in *. lia. }
      exists pre, l, post. split; [|split; assumption].
      cbn [rev] in Hs. rewrite <- app_assoc in Hs. exact Hs.
Qed.

Lemma getLines_line text offset :
  offset <= length text ->
  exists pre l post,
    lineSplit text offset pre l post
    /\ nth_error (getLines text) (offsetToLineNum (getLines text) offset) = Some l
    /\ offsetToLineNum (getLines text) offset = countLF pre.
Proof.
  intros H. exact (splitLines_line text [] offset eq_refl H).
Qed.

(** The line number is the count of line breaks before the offset. *)
Lemma lineSplit_countLF text offset pre l post :
  lineSplit text offset pre l post -> countLF (firstn offset text) = countLF pre.
Proof.
  intros (Ht & Hl & _ & _ & Hb). subst text.
  rewrite firstn_app, countLF_app.
  rewrite (firstn_all2 pre) by lia.
  rewrite firstn_app, countLF_app.
  replace (firstn (offset - length pre - length l) post) with (@nil ascii).
  2:{ replace (offset - length pre - length l) with 0 by lia. reflexivity. }
  cbn [countLF filter length]. rewrite Nat.add_0_r.
  assert (H : countLF (firstn (offset - length pre) l) = 0).
  { apply countLF_notLF.
    rewrite <- (firstn_skipn (offset - length pre) l), forallb_app in Hl.
    apply andb_prop in Hl. apply Hl. }
  rewrite H. lia.
Qed.

Lemma offsetToLineNum_count text offset :
  offset <= length text ->
  offsetToLineNum (getLines text) offset = countLF (firstn offset text).
Proof.
  intros H. destruct (getLines_line text offset H) as (pre & l & post & Hs & _ & Hc).
  rewrite Hc. symmetry. exact (lineSplit_countLF _ _ _ _ _ Hs).
Qed.

(** ** The column *)

Lemma lastIndexOfFrom_past search s k position best :
  position < k -> lastIndexOfFrom search s k position best = best.
Proof.
  intros H. destruct s; cbn [lastIndexOfFrom];
    replace (Nat.ltb position k) with true by (symmetry; apply Nat.ltb_lt; exact H);
    reflexivity.
Qed.

Lemma lastIndexOfFrom_prev n : forall s j best,
  lastIndexOfFrom [LF] s j (j + n) best
  = match nth_error s n with
    | Some c => if Ascii.eqb c LF then Z.of_nat (j + n) else prevNewlineFrom s j n best
    | None => prevNewlineFrom s j n best
    end.
Proof.
  induction n as [|n IH]; intros s j best.
  - rewrite Nat.add_0_r. destruct s as [|c tl]; cbn [lastIndexOfFrom nth_error prevNewlineFrom].
    + rewrite Nat.ltb_irrefl. reflexivity.
    + rewrite Nat.ltb_irrefl. cbn [isPrefixOf]. rewrite andb_true_r.
      rewrite lastIndexOfFrom_past by lia.
      rewrite (Ascii.eqb_sym LF c). destruct (Ascii.eqb c LF); reflexivity.
  - destruct s as [|c tl]; cbn [lastIndexOfFrom nth_error prevNewlineFrom].
    + replace (Nat.ltb (j + S n) j) with false by (symmetry; apply Nat.ltb_ge; lia).
      reflexivity.
    + replace (Nat.ltb (j + S n) j) with false by (symmetry; apply Nat.ltb_ge; lia).
      cbn [isPrefixOf]. rewrite andb_true_r, (Ascii.eqb_sym LF c).
      replace (j + S n) with (S j + n) by lia. apply IH.
Qed.

(** The column when the match does not start at a line break. *)
Lemma String_lastIndexOf_prev text k :
  (forall c, nth_error text k = Some c -> c <> LF) ->
  String_lastIndexOf text [LF] k = prevNewline text k.
Proof.
  intros H. unfold String_lastIndexOf, prevNewline.
  pose proof (lastIndexOfFrom_prev k text 0 (-1)) as E. cbn [Nat.add] in E. rewrite E.
  destruct (nth_error text k) as [c|]; [|reflexivity].
  destruct (Ascii.eqb c LF) eqn:Ec; [|reflexivity].
  apply Ascii.eqb_eq in Ec. exfalso. exact (H c eq_refl Ec).
Qed.

(** The column when it does. *)
Lemma String_lastIndexOf_at text k :
  nth_error text k = Some LF -> String_lastIndexOf text [LF] k = Z.of_nat k.
Proof.
  intros H. unfold String_lastIndexOf.
  pose proof (lastIndexOfFrom_prev k text 0 (-1)) as E. cbn [Nat.add] in E.
  rewrite E, H. reflexivity.
Qed.

Lemma prevNewlineFrom_app pre : forall j best post n,
  n <= length post -> forallb notLF (firstn n post) = true ->
  prevNewlineFrom (pre ++ post) j (length pre + n) best
  = prevNewlineFrom pre j (length pre) best.
Proof.
  induction pre as [|c pre IH]; intros j best post n Hn Hl.
  - cbn [app length Nat.add prevNewlineFrom].
    revert j post Hn Hl. induction n as [|n IHn]; intros j post Hn Hl; [reflexivity|].
    destruct post as [|d post]; [reflexivity|].
    cbn [firstn forallb] in Hl. apply andb_prop in Hl. destruct Hl as [Hd Hl].
    unfold notLF in Hd. apply negb_true_iff in Hd.
    cbn [prevNewlineFrom]. rewrite Hd. apply IHn; [simpl in Hn; lia|exact Hl].
  - cbn [app length Nat.add prevNewlineFrom]. apply IH; assumption.
Qed.

Lemma prevNewlineFrom_snoc pre : forall j best,
  prevNewlineFrom (pre ++ [LF]) j (length (pre ++ [LF])) best
  = Z.of_nat (j + length pre).
Proof.
  induction pre as [|c pre IH]; intros j best.
  - cbn. rewrite Nat.add_0_r. reflexivity.
  - cbn [app length prevNewlineFrom]. rewrite IH. f_equal. cbn [length]. lia.
Qed.

(** The last line break before an offset is the one that ends [pre]. *)
Lemma lineSplit_prevNewline text offset pre l post :
  lineSplit text offset pre l post ->
  prevNewline text offset = (Z.of_nat (length pre) - 1)%Z.
Proof.
  intros (Ht & Hl & Hpre & _ & Hb). subst text. unfold prevNewline.
  replace offset with (length pre + (offset - length pre)) by lia.
  rewrite prevNewlineFrom_app.
  - destruct Hpre as [->|(pre' & ->)]; [reflexivity|].
    rewrite prevNewlineFrom_snoc, length_app. cbn [length]. lia.
  - rewrite length_app. lia.
  - rewrite firstn_app.
    rewrite forallb_app.
    rewrite <- (firstn_skipn (offset - length pre) l), forallb_app in Hl.
    apply andb_prop in Hl. destruct Hl as [Hl _]. rewrite Hl.
    replace (offset - length pre - length l) with 0 by lia. reflexivity.
Qed.

(** ** The search of [exec] *)

Lemma scanFrom_bound ic ml r l : forall i p k y,
  scanFrom ic ml r i p l = Some (k, y) -> i <= k <= i + length l.
Proof.
  induction l as [|ch tl IH]; intros i p k y H; cbn [scanFrom] in H;
    destruct (matchAt ic ml r i p _) as [z|].
  - injection H as <- <-. lia.
  - discriminate.
  - injection H as <- <-. lia.
  - apply IH in H. cbn [length]. lia.
Qed.

Lemma firstMatchFrom_bound re text i mt :
  firstMatchFrom re text i = Some mt ->
  i <= index mt <= length text /\ endOf mt <= length text.
Proof.
  unfold firstMatchFrom.
  destruct (Nat.ltb (length text) i) eqn:Hi; [discriminate|].
  apply Nat.ltb_ge in Hi.
  destruct (scanFrom _ _ _ _ _ _) as [[k y]|] eqn:Hs; [|discriminate].
  intros H. injection H as <-. apply scanFrom_bound in Hs.
  rewrite length_skipn in Hs. unfold endOf. cbn [index matched].
  rewrite length_firstn, length_skipn. lia.
Qed.

Lemma scanFrom_None_later ic ml r l : forall i p,
  scanFrom ic ml r i p l = None ->
  forall j, j <= length l ->
    scanFrom ic ml r (i + j) (match j with 0 => p | S j' => nth_error l j' end) (skipn j l)
    = None.
Proof.
  induction l as [|ch tl IH]; intros i p H j Hj.
  - simpl in Hj. replace j with 0 by lia. rewrite Nat.add_0_r. exact H.
  - destruct j as [|j].
    + rewrite Nat.add_0_r. exact H.
    + cbn [scanFrom] in H. destruct (matchAt ic ml r i p (ch :: tl)); [discriminate|].
      specialize (IH (S i) (Some ch) H j). cbn [skipn].
      replace (i + S j) with (S i + j) by lia.
      destruct j as [|j]; cbn [nth_error]; apply IH; simpl in Hj; lia.
Qed.

(** No match from the start of the text means no match from anywhere. *)
Lemma firstMatchFrom_None_later re text i :
  firstMatchFrom re text 0 = None -> firstMatchFrom re text i = None.
Proof.
  intros H0.
  assert (Hs : scanFrom (ignoreCase re) (multiline re) (pattern re) 0 None text = None).
  { unfold firstMatchFrom in H0. cbn [Nat.ltb Nat.leb charBefore skipn] in H0.
    destruct (scanFrom _ _ _ 0 None text) as [[k y]|]; [discriminate|reflexivity]. }
  unfold firstMatchFrom.
  destruct (Nat.ltb (length text) i) eqn:Hi; [reflexivity|].
  apply Nat.ltb_ge in Hi.
  pose proof (scanFrom_None_later _ _ _ _ _ _ Hs i Hi) as H.
  cbn [Nat.add] in H. unfold charBefore. rewrite H. reflexivity.
Qed.

Lemma no_match_iff re text :
  firstMatchFrom re text 0 = None <-> ~ hasMatch re text.
Proof.
  split.
  - intros H (i & mt & Hm). rewrite (firstMatchFrom_None_later re text i H) in Hm.
    discriminate.
  - intros H. destruct (firstMatchFrom re text 0) as [mt|] eqn:E; [|reflexivity].
    exfalso. apply H. exists 0, mt. exact E.
Qed.

Lemma String_search_none text re :
  String_search text re = (-1)%Z <-> firstMatchFrom re text 0 = None.
Proof.
  unfold String_search. destruct (firstMatchFrom re text 0) as [mt|].
  - split; [lia|discriminate].
  - split; reflexivity.
Qed.

Lemma RegExp_exec_at re j text :
  RegExp_exec (setLastIndex j re) text
  = match firstMatchFrom re text (if global re then j else 0) with
    | None => (setLastIndex 0 re, None)
    | Some mt =>
        (if global re then setLastIndex (endOf mt) re else setLastIndex j re, Some mt)
    end.
Proof.
  unfold RegExp_exec. cbn [setLastIndex global lastIndex].
  change (firstMatchFrom (setLastIndex j re) text) with (firstMatchFrom re text).
  destruct (firstMatchFrom re text _); [|reflexivity].
  destruct (global re); reflexivity.
Qed.

Lemma setLastIndex_same re : setLastIndex (lastIndex re) re = re.
Proof. destruct re. reflexivity. Qed.

(** ** The loop of the extractor *)

(** The loop body never meets an undefined line. *)
Lemma matchRecord_defined text mt :
  index mt <= length text ->
  exists M, matchRecord text (getLines text) mt = Some M.
Proof.
  intros H. unfold matchRecord.
  destruct (getLines_line text (index mt) H) as (pre & l & post & _ & -> & _).
  eexists. reflexivity.
Qed.

Lemma searchLoop_produced re text fuel : forall j ms log,
  Forall (isMatchOf re text) ms ->
  Forall (isMatchOf re text)
         (produced (searchLoop fuel text (getLines text) (setLastIndex j re) ms log)).
Proof.
  induction fuel as [|fuel IH]; intros j ms log Hms; [exact Hms|].
  cbn [searchLoop]. rewrite RegExp_exec_at.
  destruct (firstMatchFrom re text _) as [mt|] eqn:Hm; [|exact Hms].
  destruct (matchRecord text (getLines text) mt) as [M|] eqn:HM; [|exact Hms].
  assert (HM' : Forall (isMatchOf re text) (ms ++ [M])).
  { apply Forall_app. split; [exact Hms|]. constructor; [|constructor].
    eexists _, mt. split; [exact Hm|exact HM]. }
  destruct (global re).
  - apply IH. exact HM'.
  - apply IH. exact HM'.
Qed.

Lemma searchLoop_not_threw re text fuel : forall j ms log,
  status (searchLoop fuel text (getLines text) (setLastIndex j re) ms log) <> Threw.
Proof.
  induction fuel as [|fuel IH]; intros j ms log; [discriminate|].
  cbn [searchLoop]. rewrite RegExp_exec_at.
  destruct (firstMatchFrom re text _) as [mt|] eqn:Hm; [|discriminate].
  destruct (firstMatchFrom_bound _ _ _ _ Hm) as [Hb _].
  destruct (matchRecord_defined text mt) as (M & ->); [lia|].
  destruct (global re); apply IH.
Qed.

(** The loop only adds to the array. *)
Lemma searchLoop_value re text fuel : forall j ms log,
  exists more,
    value (searchLoop fuel text (getLines text) (setLastIndex j re) ms log)
    = Some (ms ++ more).
Proof.
  induction fuel as [|fuel IH]; intros j ms log.
  - exists []. rewrite app_nil_r. reflexivity.
  - cbn [searchLoop]. rewrite RegExp_exec_at.
    destruct (firstMatchFrom re text _) as [mt|] eqn:Hm.
    2:{ exists []. rewrite app_nil_r. reflexivity. }
    destruct (matchRecord text (getLines text) mt) as [M|] eqn:HM.
    2:{ exists []. rewrite app_nil_r. reflexivity. }
    destruct (global re).
    + destruct (IH (endOf mt) (ms ++ [M]) (log ++ [StepExec])) as (more & ->).
      exists (M :: more). rewrite <- app_assoc. reflexivity.
    + destruct (IH j (ms ++ [M]) (log ++ [StepExec])) as (more & ->).
      exists (M :: more). rewrite <- app_assoc. reflexivity.
Qed.

(** When the loop is left, [lastIndex] is back at zero. *)
Lemma searchLoop_returned re text fuel : forall j ms log,
  status (searchLoop fuel text (getLines text) (setLastIndex j re) ms log) = Returned ->
  regexp (searchLoop fuel text (getLines text) (setLastIndex j re) ms log)
  = setLastIndex 0 re.
Proof.
  induction fuel as [|fuel IH]; intros j ms log; [discriminate|].
  cbn [searchLoop]. rewrite RegExp_exec_at.
  destruct (firstMatchFrom re text _) as [mt|] eqn:Hm; [|reflexivity].
  destruct (matchRecord text (getLines text) mt) as [M|] eqn:HM; [|discriminate].
  destruct (global re); apply IH.
Qed.

Lemma searchLoop_terminates re text :
  global re = true -> neverEmpty re text ->
  forall fuel j ms log,
    length text - j < fuel ->
    status (searchLoop fuel text (getLines text) (setLastIndex j re) ms log) = Returned.
Proof.
  intros Hg Hne. induction fuel as [|fuel IH]; intros j ms log Hf; [lia|].
  cbn [searchLoop]. rewrite RegExp_exec_at, Hg.
  destruct (firstMatchFrom re text j) as [mt|] eqn:Hm; [|reflexivity].
  destruct (firstMatchFrom_bound _ _ _ _ Hm) as [Hb He].
  destruct (matchRecord_defined text mt) as (M & ->); [lia|].
  apply IH. pose proof (Hne _ _ Hm) as Hn. unfold endOf in *.
  destruct (matched mt); [contradiction|]. cbn [length] in *. lia.
Qed.

(** ** Properties of every compiled pattern *)

Lemma RegExp_new_flags body flags re :
  RegExp_new body flags = Some re ->
  parseFlags flags false false false = Some (global re, ignoreCase re, multiline re)
  /\ source re = body /\ lastIndex re = 0.
Proof.
  unfold RegExp_new.
  destruct (parseFlags flags false false false) as [[[g i] ml]|]; [|discriminate].
  destruct (parsePattern body); [|discriminate].
  intros H. injection H as <-. repeat split.
Qed.

Lemma usedFlags_cases flags :
  usedFlags flags = str "g" \/ usedFlags flags = str "ig".
Proof.
  unfold usedFlags. destruct flags as [|c tl]; [left; reflexivity|].
  destruct (isCh (last tl c) "g"); [left|right]; reflexivity.
Qed.

Lemma not_shape_no_match query :
  ~ hasShape query -> String_match query isRE_regexp = None.
Proof.
  intros H. destruct (String_match query isRE_regexp) as [isRE|] eqn:E; [|reflexivity].
  exfalso. apply H. apply isRE_iff_shape. exists isRE. exact E.
Qed.

(** Every pattern that [_getQueryRegExp] makes is global and starts with
    [lastIndex] zero. *)
Lemma compiled_global query re :
  _getQueryRegExp query = Some re -> global re = true /\ lastIndex re = 0.
Proof.
  intros H. destruct (String_match query isRE_regexp) as [isRE|] eqn:E.
  - destruct (isRE_inv _ _ E) as (body & flags & -> & Hb & Hf & _).
    rewrite (compile_shape body flags Hb Hf) in H.
    apply RegExp_new_flags in H. destruct H as (Hp & _ & Hl).
    split; [|exact Hl].
    destruct (usedFlags_cases flags) as [Hu|Hu]; rewrite Hu in Hp.
    + change (parseFlags (str "g") false false false)
        with (Some (true, false, false)) in Hp.
      injection Hp as <- _ _. reflexivity.
    + change (parseFlags (str "ig") false false false)
        with (Some (true, true, false)) in Hp.
      injection Hp as <- _ _. reflexivity.
  - rewrite (compile_literal _ E) in H. injection H as <-. split; reflexivity.
Qed.

(** ** The extractor as a whole *)

Lemma getSearchMatches_produced fuel text re :
  Forall (isMatchOf re text) (produced (_getSearchMatches fuel text re)).
Proof.
  unfold _getSearchMatches.
  destruct (Z.eqb (String_search text re) (-1)); [constructor|].
  rewrite <- (setLastIndex_same re) at 2.
  apply searchLoop_produced. constructor.
Qed.

Lemma getSearchMatches_not_threw fuel text re :
  status (_getSearchMatches fuel text re) <> Threw.
Proof.
  unfold _getSearchMatches.
  destruct (Z.eqb (String_search text re) (-1)); [discriminate|].
  rewrite <- (setLastIndex_same re).
  apply searchLoop_not_threw.
Qed.

Lemma getSearchMatches_no_match fuel text re :
  firstMatchFrom re text 0 = None ->
  _getSearchMatches fuel text re = mkRun Returned None re [StepSearch].
Proof.
  intros H. unfold _getSearchMatches.
  apply String_search_none in H. rewrite H. reflexivity.
Qed.

Lemma getSearchMatches_found fuel text re mt :
  lastIndex re = 0 ->
  firstMatchFrom re text 0 = Some mt ->
  status (_getSearchMatches fuel text re) = Returned ->
  exists M ms, value (_getSearchMatches fuel text re) = Some (M :: ms).
Proof.
  intros Hl Hm. unfold _getSearchMatches, String_search. rewrite Hm.
  replace (Z.eqb (Z.of_nat (index mt)) (-1)) with false by (symmetry; apply Z.eqb_neq; lia).
  destruct fuel as [|fuel]; [discriminate|].
  cbn [searchLoop]. unfold RegExp_exec. rewrite Hl.
  assert (E : (if global re then 0 else 0) = 0) by (destruct (global re); reflexivity).
  rewrite E, Hm.
  destruct (firstMatchFrom_bound _ _ _ _ Hm) as [Hb _].
  destruct (matchRecord_defined text mt) as (M & ->); [lia|].
  intros _. cbn [app].
  assert (Hre : exists j, (if global re then setLastIndex (endOf mt) re else re)
                          = setLastIndex j re).
  { destruct (global re); [eexists; reflexivity|].
    exists (lastIndex re). symmetry. apply setLastIndex_same. }
  destruct Hre as (j & ->).
  destruct (searchLoop_value re text fuel j [M] [StepSearch; StepGetLines; StepExec])
    as (more & ->).
  exists M, more. reflexivity.
Qed.

Lemma getSearchMatches_returned fuel text re :
  lastIndex re = 0 ->
  status (_getSearchMatches fuel text re) = Returned ->
  regexp (_getSearchMatches fuel text re) = re.
Proof.
  intros Hl. unfold _getSearchMatches.
  destruct (Z.eqb (String_search text re) (-1)); [reflexivity|].
  rewrite <- (setLastIndex_same re) at 1 2. intros H.
  rewrite (searchLoop_returned _ _ _ _ _ _ H), <- Hl. apply setLastIndex_same.
Qed.

Lemma getSearchMatches_terminates fuel text re :
  global re = true -> lastIndex re = 0 -> neverEmpty re text ->
  length text < fuel ->
  status (_getSearchMatches fuel text re) = Returned.
Proof.
  intros Hg Hl Hne Hf. unfold _getSearchMatches.
  destruct (Z.eqb (String_search text re) (-1)); [reflexivity|].
  rewrite <- (setLastIndex_same re).
  apply searchLoop_terminates; try assumption. lia.
Qed.

Lemma isI_flag flags : forallb isI flags = true -> forallb isFlagChar flags = true.
Proof.
  induction flags as [|c tl IH]; [reflexivity|].
  cbn [forallb]. intros H. apply andb_prop in H. destruct H as [Hc H].
  unfold isFlagChar. unfold isI in Hc. rewrite Hc, orb_true_r. exact (IH H).
Qed.

Lemma isI_last tl : forall c, forallb isI (c :: tl) = true -> last tl c = "i"%char.
Proof.
  induction tl as [|d tl IH]; intros c H.
  - cbn in H. rewrite andb_true_r in H. apply Ascii.eqb_eq in H. exact H.
  - rewrite last_cons_default. apply IH.
    cbn [forallb] in H. apply andb_prop in H. apply H.
Qed.

(** ** No match is passed over *)

Lemma scanFrom_Some_later ic ml r l : forall i p k y,
  scanFrom ic ml r i p l = Some (k, y) ->
  forall d, i + d <= k ->
    scanFrom ic ml r (i + d) (match d with 0 => p | S d' => nth_error l d' end) (skipn d l)
    = Some (k, y).
Proof.
  induction l as [|ch tl IH]; intros i p k y H d Hd.
  - assert (d = 0).
    { cbn [scanFrom] in H. destruct (matchAt ic ml r i p []); [|discriminate].
      injection H as <- _. lia. }
    subst d. rewrite Nat.add_0_r. exact H.
  - destruct d as [|d]; [rewrite Nat.add_0_r; exact H|].
    cbn [scanFrom] in H. destruct (matchAt ic ml r i p (ch :: tl)).
    + injection H as <- _. lia.
    + specialize (IH (S i) (Some ch) k y H d). cbn [skipn].
      replace (i + S d) with (S i + d) by lia.
      destruct d as [|d]; cbn [nth_error]; apply IH; lia.
Qed.

Lemma charBefore_skipn text i d :
  match d with
  | 0 => charBefore text i
  | S d' => nth_error (skipn i text) d'
  end = charBefore text (i + d).
Proof.
  destruct d as [|d]; [rewrite Nat.add_0_r; reflexivity|].
  rewrite Nat.add_succ_r. cbn [charBefore]. apply nth_error_skipn.
Qed.

(** A search that starts later, but not after the match, finds the same
    match. *)
Lemma firstMatchFrom_Some_later re text i j mt :
  firstMatchFrom re text i = Some mt ->
  i <= j <= index mt ->
  firstMatchFrom re text j = Some mt.
Proof.
  intros H Hj. pose proof (firstMatchFrom_bound _ _ _ _ H) as [Hb _].
  unfold firstMatchFrom in *.
  destruct (Nat.ltb (length text) i) eqn:Hi; [discriminate|].
  replace (Nat.ltb (length text) j) with false by (symmetry; apply Nat.ltb_ge; lia).
  destruct (scanFrom _ _ _ i _ _) as [[k y]|] eqn:Hs; [|discriminate].
  injection H as <-. cbn [index] in *.
  pose proof (scanFrom_Some_later _ _ _ _ _ _ _ _ Hs (j - i)) as Hl.
  rewrite charBefore_skipn, skipn_skipn in Hl.
  replace (i + (j - i)) with j in Hl by lia.
  replace (j - i + i) with j in Hl by lia.
  rewrite Hl by lia. reflexivity.
Qed.

(** A search that finds nothing finds nothing from later on. *)
Lemma firstMatchFrom_None_from re text i j :
  firstMatchFrom re text i = None -> i <= j -> firstMatchFrom re text j = None.
Proof.
  intros H Hj. unfold firstMatchFrom in *.
  destruct (Nat.ltb (length text) j) eqn:Hlj; [reflexivity|].
  apply Nat.ltb_ge in Hlj.
  replace (Nat.ltb (length text) i) with false in H by (symmetry; apply Nat.ltb_ge; lia).
  destruct (scanFrom _ _ _ i _ _) as [[k y]|] eqn:Hs; [discriminate|].
  pose proof (scanFrom_None_later _ _ _ _ _ _ Hs (j - i)) as Hl.
  rewrite charBefore_skipn, skipn_skipn, length_skipn in Hl.
  replace (i + (j - i)) with j in Hl by lia.
  replace (j - i + i) with j in Hl by lia.
  rewrite Hl by lia. reflexivity.
Qed.

Lemma searchLoop_complete re text :
  global re = true ->
  forall fuel j0 ms log,
    status (searchLoop fuel text (getLines text) (setLastIndex j0 re) ms log) = Returned ->
    forall j mt,
      j0 <= j -> firstMatchFrom re text j = Some mt ->
      reported re text (searchLoop fuel text (getLines text) (setLastIndex j0 re) ms log) j mt.
Proof.
  intros Hg. induction fuel as [|fuel IH]; intros j0 ms log Hs j mt Hj Hm; [discriminate|].
  cbn [searchLoop] in *. rewrite RegExp_exec_at, Hg in *.
  destruct (firstMatchFrom re text j0) as [mt0|] eqn:H0.
  2:{ rewrite (firstMatchFrom_None_from re text j0 j H0 Hj) in Hm. discriminate. }
  destruct (matchRecord text (getLines text) mt0) as [M0|] eqn:HM; [|discriminate].
  destruct (Nat.leb j (index mt0)) eqn:Hle.
  - apply Nat.leb_le in Hle.
    rewrite (firstMatchFrom_Some_later re text j0 j mt0 H0 (conj Hj Hle)) in Hm.
    injection Hm as <-.
    exists j0, mt0, M0. split; [|split; [exact H0|split; [exact HM|left; reflexivity]]].
    destruct (searchLoop_value re text fuel (endOf mt0) (ms ++ [M0]) (log ++ [StepExec]))
      as (more & Hv).
    unfold produced. rewrite Hv. apply in_or_app. left. apply in_or_app. right. left.
    reflexivity.
  - apply Nat.leb_gt in Hle.
    destruct (Nat.ltb j (endOf mt0)) eqn:Hlt.
    + apply Nat.ltb_lt in Hlt.
      exists j0, mt0, M0. split; [|split; [exact H0|split; [exact HM|right; lia]]].
      destruct (searchLoop_value re text fuel (endOf mt0) (ms ++ [M0]) (log ++ [StepExec]))
        as (more & Hv).
      unfold produced. rewrite Hv. apply in_or_app. left. apply in_or_app. right. left.
      reflexivity.
    + apply Nat.ltb_ge in Hlt. exact (IH _ _ _ Hs j mt Hlt Hm).
Qed.

Lemma getSearchMatches_complete fuel text re :
  global re = true -> lastIndex re = 0 ->
  status (_getSearchMatches fuel text re) = Returned ->
  forall j mt,
    firstMatchFrom re text j = Some mt ->
    reported re text (_getSearchMatches fuel text re) j mt.
Proof.
  intros Hg Hl Hs j mt Hm. unfold _getSearchMatches in *.
  destruct (Z.eqb (String_search text re) (-1)) eqn:E.
  - apply Z.eqb_eq, String_search_none in E.
    rewrite (firstMatchFrom_None_from re text 0 j E (Nat.le_0_l _)) in Hm. discriminate.
  - pose proof (searchLoop_complete re text Hg fuel 0 [] [StepSearch; StepGetLines]) as Hc.
    rewrite <- Hl, setLastIndex_same in Hc. apply Hc; [exact Hs|lia|exact Hm].
Qed.

(** ** The last slash of a query *)

Lemma isFlagChar_notSlash_b flags :
  forallb isFlagChar flags = true -> forallb notSlash flags = true.
Proof.
  induction flags as [|c tl IH]; [reflexivity|].
  cbn [forallb]. intros H. apply andb_prop in H. destruct H as [Hc H].
  rewrite (IH H), andb_true_r. unfold notSlash. apply negb_true_iff.
  apply Ascii.eqb_neq. exact (isFlagChar_notSlash _ Hc).
Qed.

(** What follows the last slash of a text is fixed by the text. *)
Lemma last_slash_unique b1 : forall b2 f1 f2,
  b1 ++ "/"%char :: f1 = b2 ++ "/"%char :: f2 ->
  forallb notSlash f1 = true -> forallb notSlash f2 = true ->
  f1 = f2.
Proof.
  induction b1 as [|x b1 IH]; intros b2 f1 f2 E H1 H2.
  - destruct b2 as [|y b2].
    + injection E as E. exact E.
    + cbn [app] in E. injection E as <- E. subst f1.
      rewrite forallb_app in H1. apply andb_prop in H1. destruct H1 as [_ H1].
      discriminate H1.
  - destruct b2 as [|y b2].
    + cbn [app] in E. injection E as -> E. subst f2.
      rewrite forallb_app in H2. apply andb_prop in H2. destruct H2 as [_ H2].
      discriminate H2.
    + cbn [app] in E. injection E as _ E. exact (IH _ _ _ E H1 H2).
Qed.

(** ** The match record *)

Lemma matchRecord_inv text mt M :
  index mt <= length text ->
  matchRecord text (getLines text) mt = Some M ->
  exists pre l post,
    lineSplit text (index mt) pre l post
    /\ Position.line (start M) = Z.of_nat (countLF pre)
    /\ Position.line (end_ M) = Z.of_nat (countLF pre)
    /\ Position.ch (start M)
       = (Z.of_nat (index mt) - String_lastIndexOf text [LF] (index mt) - 1)%Z
    /\ Position.ch (end_ M) = (Position.ch (start M) + Z.of_nat (length (matched mt)))%Z
    /\ line M = firstn (Nat.min 200 (length l)) l.
Proof.
  intros Hi. unfold matchRecord.
  destruct (getLines_line text (index mt) Hi) as (pre & l & post & Hs & -> & ->).
  intros H. injection H as <-. exists pre, l, post.
  cbn [start end_ line Position.line Position.ch String_substr skipn].
  split; [exact Hs|]. repeat split.
Qed.

Lemma prevNewlineFrom_bound k : forall text j best,
  (best < Z.of_nat j)%Z -> (prevNewlineFrom text j k best < Z.of_nat (j + k))%Z.
Proof.
  induction k as [|k IH]; intros text j best H.
  - cbn [prevNewlineFrom]. lia.
  - destruct text as [|c tl]; cbn [prevNewlineFrom]; [lia|].
    replace (j + S k) with (S j + k) by lia. apply IH.
    destruct (Ascii.eqb c LF); lia.
Qed.

(** A line break before an offset lies before it. *)
Lemma prevNewline_lt text k : (prevNewline text k < Z.of_nat k)%Z.
Proof. exact (prevNewlineFrom_bound k text 0 (-1)%Z eq_refl). Qed.

(** Every match that a run has pushed was made by the loop body from a
    match of the pattern in the text. *)
Lemma produced_inv fuel text re M :
  In M (produced (_getSearchMatches fuel text re)) ->
  exists i mt,
    firstMatchFrom re text i = Some mt
    /\ index mt <= length text
    /\ matchRecord text (getLines text) mt = Some M.
Proof.
  intros HM.
  pose proof (getSearchMatches_produced fuel text re) as HF.
  rewrite Forall_forall in HF. destruct (HF M HM) as (i & mt & Hm & HR).
  exists i, mt. split; [exact Hm|]. split; [|exact HR].
  exact (proj2 (proj1 (firstMatchFrom_bound _ _ _ _ Hm))).
Qed.

(** ** The search over the files *)

Lemma processFile_resolved fuel st file :
  snd (processFile fuel st file) = Resolved.
Proof.
  unfold processFile. destruct (snd file); [|reflexivity].
  destruct (status (_getSearchMatches fuel text (queryExpr st))); reflexivity.
Qed.

Lemma processFile_not_threw fuel st file :
  fst (fst (processFile fuel st file)) <> Threw.
Proof.
  unfold processFile. destruct (snd file) as [text|]; [|discriminate].
  pose proof (getSearchMatches_not_threw fuel text (queryExpr st)) as H.
  destruct (status (_getSearchMatches fuel text (queryExpr st)));
    cbn [fst]; congruence.
Qed.

Lemma processFile_failed fuel st path :
  processFile fuel st (path, LoadError) = (Returned, st, Resolved).
Proof. reflexivity. Qed.

(** The entries that one file adds. *)
Lemma processFile_results fuel st file r :
  In r (searchResults (snd (fst (processFile fuel st file)))) ->
  In r (searchResults st)
  \/ (exists text, file = (fullPath r, Document text)) /\ matches r <> [].
Proof.
  unfold processFile. destruct file as [path ld]. cbn [fst snd].
  destruct ld as [text|]; [|left; assumption].
  destruct (status (_getSearchMatches fuel text (queryExpr st)));
    cbn [fst snd searchResults]; try (left; assumption).
  intros H. apply in_app_or in H. destruct H as [H|H]; [left; exact H|].
  right. destruct (value (_getSearchMatches fuel text (queryExpr st))) as [[|M ms]|];
    try contradiction.
  destruct H as [<-|[]]. cbn [fullPath matches].
  split; [exists text; reflexivity|discriminate].
Qed.

Lemma doInParallel_loaded fuel files : forall st master,
  doInParallel fuel st files master
  = doInParallel fuel st (filter isLoaded files) master.
Proof.
  induction files as [|[path ld] files IH]; intros st master; [reflexivity|].
  destruct ld as [text|].
  - cbn [filter isLoaded snd doInParallel].
    destruct (processFile fuel st (path, Document text)) as [[s st'] p].
    destruct s; try reflexivity. destruct p; apply IH.
  - cbn [filter isLoaded snd doInParallel]. rewrite processFile_failed. apply IH.
Qed.

Lemma doInParallel_resolved fuel files : forall st,
  snd (doInParallel fuel st files Resolved) = Resolved.
Proof.
  induction files as [|file files IH]; intros st; [reflexivity|].
  cbn [doInParallel].
  pose proof (processFile_resolved fuel st file) as Hp.
  destruct (processFile fuel st file) as [[s st'] p]. cbn [snd] in Hp. subst p.
  destruct s; try reflexivity. apply IH.
Qed.

Lemma doInParallel_not_threw fuel files : forall st master,
  fst (fst (doInParallel fuel st files master)) <> Threw.
Proof.
  induction files as [|file files IH]; intros st master; [discriminate|].
  cbn [doInParallel].
  pose proof (processFile_not_threw fuel st file) as Hp.
  destruct (processFile fuel st file) as [[s st'] p]. cbn [fst] in Hp.
  destruct s; try congruence; try discriminate. destruct p; apply IH.
Qed.

Lemma doInParallel_results fuel files : forall st master r,
  In r (searchResults (snd (fst (doInParallel fuel st files master)))) ->
  In r (searchResults st)
  \/ (exists text, In (fullPath r, Document text) files) /\ matches r <> [].
Proof.
  induction files as [|file files IH]; intros st master r H; [left; exact H|].
  cbn [doInParallel] in H.
  pose proof (processFile_results fuel st file r) as Hp.
  destruct (processFile fuel st file) as [[s st'] p]. cbn [fst snd] in Hp.
  assert (Hstep : In r (searchResults st') ->
                  In r (searchResults st)
                  \/ (exists text, In (fullPath r, Document text) (file :: files))
                     /\ matches r <> []).
  { intros H'. destruct (Hp H') as [Hl|[(text & ->) Hm]]; [left; exact Hl|].
    right. split; [exists text; left; reflexivity|exact Hm]. }
  assert (Hrest : forall master',
             In r (searchResults (snd (fst (doInParallel fuel st' files master')))) ->
             In r (searchResults st)
             \/ (exists text, In (fullPath r, Document text) (file :: files))
                /\ matches r <> []).
  { intros master' H'. destruct (IH st' master' r H') as [Hl|[(text & Hin) Hm]].
    - exact (Hstep Hl).
    - right. split; [exists text; right; exact Hin|exact Hm]. }
  destruct s.
  - destruct p; exact (Hrest _ H).
  - exact (Hstep H).
  - exact (Hstep H).
Qed.

Lemma doInParallel_terminates fuel re :
  global re = true -> lastIndex re = 0 -> (forall text, neverEmpty re text) ->
  forall files results,
    longest files < fuel ->
    exists results',
      doInParallel fuel (mkSearch re results) files Resolved
      = (Returned, mkSearch re results', Resolved).
Proof.
  intros Hg Hl Hne. induction files as [|[path ld] files IH]; intros results Hf.
  - exists results. reflexivity.
  - cbn [doInParallel]. destruct ld as [text|].
    + cbn [longest] in Hf. unfold processFile. cbn [snd fst queryExpr searchResults].
      rewrite (getSearchMatches_terminates fuel text re Hg Hl (Hne text)) by lia.
      rewrite (getSearchMatches_returned fuel text re Hl)
        by (apply getSearchMatches_terminates; auto; lia).
      apply IH. lia.
    + rewrite processFile_failed. apply IH. exact Hf.
Qed.

Lemma lit_neverEmpty re query :
  pattern re = lit query -> query <> [] -> forall text, neverEmpty re text.
Proof.
  intros Hp Hq text i mt Hm E.
  destruct (firstMatchFrom_lit_Some re query text i mt Hp Hm) as (_ & Ho & Hmt & _).
  unfold occursAt in Ho. apply andb_prop in Ho. destruct Ho as [_ Ho].
  apply prefixCI_length in Ho.
  rewrite E in Hmt. apply (f_equal (@length ascii)) in Hmt.
  rewrite length_firstn in Hmt. cbn [length] in Hmt.
  destruct query; [contradiction|]. cbn [length] in *. lia.
Qed.

(** ** Empty matches *)

Lemma matchRecord_empty text lines mt M :
  matchRecord text lines mt = Some M ->
  (isEmptyMatch M <-> matched mt = []).
Proof.
  unfold matchRecord, isEmptyMatch.
  destruct (nth_error lines _) as [l|]; [|discriminate].
  intros H. injection H as <-. cbn [start end_]. split.
  - intros E. injection E as E. destruct (matched mt); [reflexivity|].
    cbn [length] in E. lia.
  - intros ->. cbn [length]. rewrite Z.add_0_r. reflexivity.
Qed.

(** With [lastIndex] at an empty match, the loop stays there. *)
Lemma searchLoop_stuck re text lines j mt :
  global re = true ->
  firstMatchFrom re text j = Some mt -> endOf mt = j ->
  forall fuel ms log,
    status (searchLoop fuel text lines (setLastIndex j re) ms log) <> Returned.
Proof.
  intros Hg Hm He. induction fuel as [|fuel IH]; intros ms log; [discriminate|].
  cbn [searchLoop]. rewrite RegExp_exec_at, Hg, Hm, He.
  destruct (matchRecord text lines mt); [apply IH|discriminate].
Qed.

Lemma empty_match_stuck re text lines j mt :
  global re = true ->
  firstMatchFrom re text j = Some mt -> matched mt = [] ->
  forall fuel ms log,
    status (searchLoop fuel text lines (setLastIndex j re) ms log) <> Returned.
Proof.
  intros Hg Hm He [|fuel] ms log; [discriminate|].
  cbn [searchLoop]. rewrite RegExp_exec_at, Hg, Hm.
  destruct (matchRecord text lines mt); [|discriminate].
  assert (Hi : endOf mt = index mt) by (unfold endOf; rewrite He; cbn [length]; lia).
  rewrite Hi. apply (searchLoop_stuck re text lines (index mt) mt Hg); [|exact Hi].
  destruct (firstMatchFrom_bound _ _ _ _ Hm) as [Hb _].
  apply (firstMatchFrom_Some_later re text j); [exact Hm|lia].
Qed.

Lemma searchLoop_adds re text lines fuel : forall j ms log,
  exists more,
    produced (searchLoop fuel text lines (setLastIndex j re) ms log) = ms ++ more.
Proof.
  induction fuel as [|fuel IH]; intros j ms log.
  - exists []. rewrite app_nil_r. reflexivity.
  - cbn [searchLoop]. rewrite RegExp_exec_at.
    destruct (firstMatchFrom re text _) as [mt|] eqn:Hm.
    2:{ exists []. rewrite app_nil_r. reflexivity. }
    destruct (matchRecord text lines mt) as [M|] eqn:HM.
    2:{ exists []. rewrite app_nil_r. reflexivity. }
    destruct (global re).
    + destruct (IH (endOf mt) (ms ++ [M]) (log ++ [StepExec])) as (more & ->).
      exists (M :: more). rewrite <- app_assoc. reflexivity.
    + destruct (IH j (ms ++ [M]) (log ++ [StepExec])) as (more & ->).
      exists (M :: more). rewrite <- app_assoc. reflexivity.
Qed.

(** A loop that has pushed an empty match never returns, whatever the
    fuel. *)
Lemma searchLoop_empty_hangs re text lines :
  global re = true ->
  forall fuel j ms log M,
    In M (skipn (length ms)
            (produced (searchLoop fuel text lines (setLastIndex j re) ms log))) ->
    isEmptyMatch M ->
    forall fuel' ms' log',
      status (searchLoop fuel' text lines (setLastIndex j re) ms' log') <> Returned.
Proof.
  intros Hg. induction fuel as [|fuel IH]; intros j ms log M Hin HE fuel' ms' log'.
  - cbn [searchLoop produced value] in Hin. rewrite skipn_all in Hin. contradiction.
  - cbn [searchLoop] in Hin. rewrite RegExp_exec_at, Hg in Hin.
    destruct (firstMatchFrom re text j) as [mt|] eqn:Hm.
    2:{ cbn [produced value] in Hin. rewrite skipn_all in Hin. contradiction. }
    destruct (matchRecord text lines mt) as [M0|] eqn:HM.
    2:{ cbn [produced value] in Hin. rewrite skipn_all in Hin. contradiction. }
    destruct (list_eq_dec Ascii.ascii_dec (matched mt) []) as [He|Hne].
    { apply (empty_match_stuck re text lines j mt Hg Hm He). }
    destruct (searchLoop_adds re text lines fuel (endOf mt) (ms ++ [M0]) (log ++ [StepExec]))
      as (more & Hv).
    rewrite Hv in Hin. rewrite <- app_assoc in Hin.
    replace (length ms) with (length ms + 0) in Hin by lia.
    rewrite skipn_app in Hin. rewrite Nat.add_0_r, skipn_all in Hin.
    replace (length ms - length ms) with 0 in Hin by lia.
    cbn [app skipn] in Hin. destruct Hin as [<-|Hin].
    { exfalso. apply Hne. apply (matchRecord_empty _ _ _ _ HM). exact HE. }
    destruct fuel' as [|fuel']; [discriminate|].
    cbn [searchLoop]. rewrite RegExp_exec_at, Hg, Hm, HM.
    apply (IH (endOf mt) (ms ++ [M0]) (log ++ [StepExec]) M); [|exact HE].
    rewrite Hv, skipn_app, skipn_all, length_app. cbn [length app].
    replace (length ms + 1 - (length ms + 1)) with 0 by lia. exact Hin.
Qed.

Lemma getSearchMatches_empty_hangs re text :
  global re = true -> lastIndex re = 0 ->
  forall fuel M,
    In M (produced (_getSearchMatches fuel text re)) -> isEmptyMatch M ->
    forall fuel', status (_getSearchMatches fuel' text re) <> Returned.
Proof.
  intros Hg Hl fuel M Hin HE fuel'. unfold _getSearchMatches in *.
  destruct (Z.eqb (String_search text re) (-1)); [contradiction|].
  pose proof (searchLoop_empty_hangs re text (getLines text) Hg fuel 0 []
                [StepSearch; StepGetLines] M) as H.
  rewrite <- Hl, setLastIndex_same in H. apply H; assumption.
Qed.

(** ** The number of turns of the loop *)

(** More fuel does not change a run that has returned. *)
Lemma searchLoop_more_fuel text lines : forall fuel re ms log,
  status (searchLoop fuel text lines re ms log) = Returned ->
  forall fuel', fuel <= fuel' ->
    searchLoop fuel' text lines re ms log = searchLoop fuel text lines re ms log.
Proof.
  induction fuel as [|fuel IH]; intros re ms log Hs fuel' Hf; [discriminate|].
  destruct fuel' as [|fuel']; [lia|].
  cbn [searchLoop] in *.
  destruct (RegExp_exec re text) as [re' [mt|]]; [|reflexivity].
  destruct (matchRecord text lines mt) as [M|]; [|reflexivity].
  apply IH; [exact Hs|lia].
Qed.

(** A loop that returns does so within as many turns as there are
    characters left, and one more. *)
Lemma searchLoop_returns_early re text lines :
  global re = true ->
  forall fuel j ms log,
    status (searchLoop fuel text lines (setLastIndex j re) ms log) = Returned ->
    status (searchLoop (S (length text - j)) text lines (setLastIndex j re) ms log)
    = Returned.
Proof.
  intros Hg. induction fuel as [|fuel IH]; intros j ms log Hs; [discriminate|].
  pose proof Hs as Hs0.
  cbn [searchLoop] in Hs |- *. rewrite RegExp_exec_at, Hg in Hs |- *.
  destruct (firstMatchFrom re text j) as [mt|] eqn:Hm; [|reflexivity].
  destruct (matchRecord text lines mt) as [M|] eqn:HM; [|discriminate].
  destruct (firstMatchFrom_bound _ _ _ _ Hm) as [Hb He].
  assert (Hlt : j < endOf mt).
  { destruct (Nat.eq_dec (endOf mt) j) as [E|E].
    - exfalso. exact (searchLoop_stuck re text lines j mt Hg Hm E (S fuel) ms log Hs0).
    - unfold endOf in *. lia. }
  pose proof (IH _ _ _ Hs) as Hr.
  rewrite (searchLoop_more_fuel text lines _ _ _ _ Hr (length text - j)) by lia.
  exact Hr.
Qed.

Lemma getSearchMatches_more_fuel text re fuel :
  status (_getSearchMatches fuel text re) = Returned ->
  forall fuel', fuel <= fuel' ->
    _getSearchMatches fuel' text re = _getSearchMatches fuel text re.
Proof.
  unfold _getSearchMatches.
  destruct (Z.eqb (String_search text re) (-1)); [reflexivity|].
  apply searchLoop_more_fuel.
Qed.

Lemma getSearchMatches_returns_early text re fuel :
  global re = true -> lastIndex re = 0 ->
  status (_getSearchMatches fuel text re) = Returned ->
  status (_getSearchMatches (S (length text)) text re) = Returned.
Proof.
  intros Hg Hl. unfold _getSearchMatches.
  destruct (Z.eqb (String_search text re) (-1)); [reflexivity|].
  intros H.
  pose proof (searchLoop_returns_early re text (getLines text) Hg fuel 0 []
                [StepSearch; StepGetLines]) as Hr.
  rewrite <- Hl, setLastIndex_same, Hl, Nat.sub_0_r in Hr. exact (Hr H).
Qed.

(** ** Anchored patterns *)





Lemma lt_regexp_parsed : RegExp_new (str "<") (str "g") = Some lt_regexp.
Proof. vm_compute. reflexivity. Qed.

Lemma gt_regexp_parsed : RegExp_new (str ">") (str "g") = Some gt_regexp.
Proof. vm_compute. reflexivity. Qed.

(** ** [replace] with a one-character pattern *)

Lemma GetSubstitution_plain repl n mt text :
  plainText repl = true -> GetSubstitution repl n mt text = repl.
Proof.
  induction repl as [|c tl IH]; intros H; [reflexivity|].
  cbn [plainText forallb] in H. apply andb_prop in H. destruct H as [Hc H].
  apply negb_true_iff in Hc. cbn [GetSubstitution]. rewrite Hc.
  f_equal. apply IH. exact H.
Qed.

Lemma matchAt_char ml c i p l :
  matchAt false ml (Seq (Char c) Empty) i p l
  = match l with
    | ch :: tl =>
        if Ascii.eqb ch c then Some (mkState (S i) (Some ch) tl noCaptures) else None
    | [] => None
    end.
Proof. destruct l as [|ch tl]; reflexivity. Qed.

Lemma scanFrom_char_hit ml c a : forall i p b,
  forallb (fun x => negb (Ascii.eqb x c)) a = true ->
  scanFrom false ml (Seq (Char c) Empty) i p (a ++ c :: b)
  = Some (i + length a, mkState (S (i + length a)) (Some c) b noCaptures).
Proof.
  induction a as [|x a IH]; intros i p b Ha.
  - cbn [app scanFrom]. rewrite matchAt_char, Ascii.eqb_refl. cbn [length].
    rewrite Nat.add_0_r. reflexivity.
  - cbn [forallb] in Ha. apply andb_prop in Ha. destruct Ha as [Hx Ha].
    apply negb_true_iff in Hx.
    cbn [app scanFrom]. rewrite matchAt_char, Hx.
    rewrite (IH (S i) (Some x) b Ha). cbn [length].
    rewrite Nat.add_succ_r. reflexivity.
Qed.

Lemma scanFrom_char_miss ml c a : forall i p,
  forallb (fun x => negb (Ascii.eqb x c)) a = true ->
  scanFrom false ml (Seq (Char c) Empty) i p a = None.
Proof.
  induction a as [|x a IH]; intros i p Ha.
  - reflexivity.
  - cbn [forallb] in Ha. apply andb_prop in Ha. destruct Ha as [Hx Ha].
    apply negb_true_iff in Hx.
    cbn [scanFrom]. rewrite matchAt_char, Hx. apply IH. exact Ha.
Qed.

Lemma split_first_char c l :
  forallb (fun x => negb (Ascii.eqb x c)) l = true
  \/ exists a b, l = a ++ c :: b /\ forallb (fun x => negb (Ascii.eqb x c)) a = true.
Proof.
  induction l as [|x l IH].
  - left. reflexivity.
  - destruct (Ascii.eqb x c) eqn:E.
    + right. apply Ascii.eqb_eq in E. subst x. exists [], l. split; reflexivity.
    + destruct IH as [IH|(a & b & -> & Ha)].
      * left. cbn [forallb]. rewrite E. exact IH.
      * right. exists (x :: a), b. split; [reflexivity|].
        cbn [forallb]. rewrite E. exact Ha.
Qed.

Lemma replaceChar_none c repl a :
  forallb (fun x => negb (Ascii.eqb x c)) a = true ->
  flat_map (replaceChar c repl) a = a.
Proof.
  induction a as [|x a IH]; intros Ha; [reflexivity|].
  cbn [forallb] in Ha. apply andb_prop in Ha. destruct Ha as [Hx Ha].
  apply negb_true_iff in Hx. cbn [flat_map]. unfold replaceChar at 1.
  rewrite Hx, (IH Ha). reflexivity.
Qed.

Lemma firstMatchFrom_char_hit re c pre a b :
  pattern re = Seq (Char c) Empty -> ignoreCase re = false ->
  forallb (fun x => negb (Ascii.eqb x c)) a = true ->
  exists mt,
    firstMatchFrom re (pre ++ a ++ c :: b) (length pre) = Some mt
    /\ index mt = length pre + length a
    /\ matched mt = [c].
Proof.
  intros Hp Hi Ha. unfold firstMatchFrom. rewrite Hp, Hi.
  replace (Nat.ltb (length (pre ++ a ++ c :: b)) (length pre)) with false.
  2:{ symmetry. apply Nat.ltb_ge. rewrite length_app. lia. }
  rewrite skipn_length_app.
  rewrite (scanFrom_char_hit _ _ _ _ _ _ Ha).
  eexists. split; [reflexivity|]. cbn [index matched endIndex].
  split; [reflexivity|].
  replace (S (length pre + length a) - (length pre + length a)) with 1 by lia.
  replace (pre ++ a ++ c :: b) with ((pre ++ a) ++ c :: b)
    by (rewrite <- app_assoc; reflexivity).
  replace (length pre + length a) with (length (pre ++ a)) by apply length_app.
  rewrite skipn_length_app. reflexivity.
Qed.

Lemma firstMatchFrom_char_miss re c pre a :
  pattern re = Seq (Char c) Empty -> ignoreCase re = false ->
  forallb (fun x => negb (Ascii.eqb x c)) a = true ->
  firstMatchFrom re (pre ++ a) (length pre) = None.
Proof.
  intros Hp Hi Ha. unfold firstMatchFrom. rewrite Hp, Hi.
  replace (Nat.ltb (length (pre ++ a)) (length pre)) with false.
  2:{ symmetry. apply Nat.ltb_ge. rewrite length_app. lia. }
  rewrite skipn_length_app, (scanFrom_char_miss _ _ _ _ _ Ha). reflexivity.
Qed.

Lemma replaceFrom_char re c repl :
  pattern re = Seq (Char c) Empty -> ignoreCase re = false ->
  plainText repl = true ->
  forall fuel pre suf,
    length suf < fuel ->
    replaceFrom fuel re repl (pre ++ suf) (length pre) (length pre)
    = flat_map (replaceChar c repl) suf.
Proof.
  intros Hp Hi Hr. induction fuel as [|fuel IH]; intros pre suf Hf; [lia|].
  cbn [replaceFrom].
  destruct (split_first_char c suf) as [Hs|(a & b & -> & Ha)].
  - rewrite (firstMatchFrom_char_miss re c pre suf Hp Hi Hs), skipn_length_app.
    symmetry. apply replaceChar_none. exact Hs.
  - destruct (firstMatchFrom_char_hit re c pre a b Hp Hi Ha) as (mt & -> & Hx & Hm).
    assert (He : endOf mt = length (pre ++ a ++ [c])).
    { unfold endOf. rewrite Hx, Hm, !length_app. cbn [length]. lia. }
    rewrite He, Hm. cbn [length Nat.eqb].
    rewrite GetSubstitution_plain by exact Hr.
    replace (pre ++ a ++ c :: b) with ((pre ++ a ++ [c]) ++ b) at 2
      by (rewrite <- !app_assoc; reflexivity).
    rewrite IH by (rewrite length_app in Hf; cbn [length] in Hf; lia).
    rewrite skipn_length_app, Hx.
    replace (length pre + length a - length pre) with (length a) by lia.
    rewrite firstn_length_app.
    rewrite flat_map_app, (replaceChar_none _ _ _ Ha).
    cbn [flat_map]. unfold replaceChar at 2. rewrite Ascii.eqb_refl. reflexivity.
Qed.

Lemma String_replace_char re c repl text :
  pattern re = Seq (Char c) Empty -> ignoreCase re = false ->
  plainText repl = true ->
  String_replace text re repl = flat_map (replaceChar c repl) text.
Proof.
  intros Hp Hi Hr. unfold String_replace.
  exact (replaceFrom_char re c repl Hp Hi Hr (length text + 2) [] text ltac:(lia)).
Qed.

(** ** [esc] *)

Lemma esc_chars s : esc s = flat_map escChar s.
Proof.
  unfold esc.
  rewrite (String_replace_char lt_regexp "<" (str "&lt;") s eq_refl eq_refl eq_refl).
  rewrite (String_replace_char gt_regexp ">" (str "&gt;") _ eq_refl eq_refl eq_refl).
  induction s as [|x s IH]; [reflexivity|].
  cbn [flat_map]. rewrite flat_map_app, IH. f_equal.
  unfold replaceChar at 2, escChar.
  destruct (Ascii.eqb x "<") eqn:E1; [reflexivity|].
  cbn [flat_map]. unfold replaceChar. rewrite app_nil_r. reflexivity.
Qed.

Lemma esc_app a b : esc (a ++ b) = esc a ++ esc b.
Proof. rewrite !esc_chars. apply flat_map_app. Qed.

Lemma escChar_noAngle c : noAngle (escChar c) = true.
Proof.
  unfold escChar.
  destruct (Ascii.eqb c "<") eqn:E1; [reflexivity|].
  destruct (Ascii.eqb c ">") eqn:E2; [reflexivity|].
  unfold noAngle, isAngle. cbn [forallb]. rewrite E1, E2. reflexivity.
Qed.

Lemma esc_noAngle s : noAngle (esc s) = true.
Proof.
  rewrite esc_chars. induction s as [|x s IH]; [reflexivity|].
  cbn [flat_map]. unfold noAngle in *. rewrite forallb_app.
  rewrite IH, andb_true_r. apply escChar_noAngle.
Qed.

Lemma esc_same s : noAngle s = true -> esc s = s.
Proof.
  rewrite esc_chars. induction s as [|x s IH]; intros H; [reflexivity|].
  unfold noAngle in H. cbn [forallb] in H. apply andb_prop in H. destruct H as [Hx H].
  cbn [flat_map]. rewrite (IH H). unfold escChar.
  unfold isAngle in Hx. apply negb_true_iff, orb_false_iff in Hx.
  destruct Hx as [-> ->]. reflexivity.
Qed.

Lemma esc_length s :
  length (esc s) = length s + 3 * length (filter isAngle s).
Proof.
  rewrite esc_chars. induction s as [|x s IH]; [reflexivity|].
  cbn [flat_map filter]. rewrite length_app, IH. unfold escChar, isAngle.
  destruct (Ascii.eqb x "<"); [cbn; lia|].
  destruct (Ascii.eqb x ">"); cbn; lia.
Qed.

Lemma noAngle_filter s : noAngle s = true <-> filter isAngle s = [].
Proof.
  induction s as [|x s IH]; [split; reflexivity|].
  unfold noAngle in *. cbn [forallb filter].
  destruct (isAngle x); cbn [negb andb].
  - split; discriminate.
  - exact IH.
Qed.

Lemma esc_same_iff s : esc s = s <-> noAngle s = true.
Proof.
  split; [|apply esc_same].
  intros H. apply noAngle_filter.
  pose proof (esc_length s) as L. rewrite H in L.
  destruct (filter isAngle s); [reflexivity|]. cbn [length] in L. lia.
Qed.

(** ** [substr] and [substring] inside the excerpt *)

Lemma substr_head text n :
  String_substr_int text 0 (Some n) = firstn (Z.to_nat n) text.
Proof.
  unfold String_substr_int. cbn [Z.leb Z.compare]. rewrite Z.sub_0_r.
  cbn [Z.to_nat skipn].
  destruct (Z.leb (Z.min (Z.max n 0) (Z.of_nat (length text))) 0) eqn:E.
  - apply Z.leb_le in E.
    destruct (Z_le_gt_dec n 0) as [Hn|Hn].
    + replace (Z.to_nat n) with 0 by lia. reflexivity.
    + assert (length text = 0) by lia. destruct text; [|discriminate].
      rewrite firstn_nil. reflexivity.
  - apply Z.leb_gt in E.
    destruct (Z_le_gt_dec n (Z.of_nat (length text))) as [Hn|Hn].
    + f_equal. lia.
    + rewrite !firstn_all2 by lia. reflexivity.
Qed.

Lemma substr_tail text n :
  (0 <= n)%Z -> String_substr_int text n None = skipn (Z.to_nat n) text.
Proof.
  intros Hn. unfold String_substr_int.
  replace (Z.leb 0 n) with true by (symmetry; apply Z.leb_le; exact Hn).
  destruct (Z.leb (Z.of_nat (length text) - n) 0) eqn:E.
  - apply Z.leb_le in E. rewrite skipn_all2 by lia. reflexivity.
  - apply Z.leb_gt in E. apply firstn_all2. rewrite length_skipn. lia.
Qed.

Lemma substring_mid text a b :
  (a <= b)%Z ->
  String_substring text a b
  = firstn (Z.to_nat b - Z.to_nat a) (skipn (Z.to_nat a) text).
Proof.
  intros Hab. unfold String_substring.
  set (len := Z.of_nat (length text)).
  assert (Hlen : (0 <= len)%Z) by (unfold len; lia).
  destruct (Z_le_gt_dec len (Z.max a 0)) as [H1|H1].
  - (* the start is at the end of the text or after it *)
    rewrite (skipn_all2 text (n := Z.to_nat a)) by (unfold len in *; lia).
    rewrite firstn_nil.
    replace (Z.min (Z.max a 0) len) with len by lia.
    replace (Z.min (Z.max b 0) len) with len by lia.
    rewrite Z.min_id, Z.max_id, Z.sub_diag. reflexivity.
  - replace (Z.min (Z.max a 0) len) with (Z.max a 0) by lia.
    replace (Z.min (Z.max a 0) (Z.min (Z.max b 0) len)) with (Z.max a 0) by lia.
    replace (Z.max (Z.max a 0) (Z.min (Z.max b 0) len))
      with (Z.min (Z.max b 0) len) by lia.
    replace (Z.to_nat (Z.max a 0)) with (Z.to_nat a) by lia.
    destruct (Z_le_gt_dec (Z.max b 0) len) as [H2|H2].
    + f_equal. lia.
    + rewrite !firstn_all2; [reflexivity| |]; rewrite length_skipn; unfold len in *; lia.
Qed.

(** The three parts that [highlightMatch] cuts the excerpt into. *)
Lemma highlightMatch_parts text a b :
  (a <= b)%Z -> (0 <= b)%Z ->
  highlightMatch text a b
  = esc (firstn (Z.to_nat a) text)
    ++ str "<span class='highlight'>"
    ++ esc (firstn (Z.to_nat b - Z.to_nat a) (skipn (Z.to_nat a) text))
    ++ str "</span>"
    ++ esc (skipn (Z.to_nat b) text).
Proof.
  intros Hab Hb. unfold highlightMatch.
  rewrite substr_head, substr_tail, substring_mid by assumption. reflexivity.
Qed.

Lemma parts_of_text {A} (l : list A) i j :
  i <= j -> firstn i l ++ firstn (j - i) (skipn i l) ++ skipn j l = l.
Proof.
  intros H.
  replace (skipn j l) with (skipn (j - i) (skipn i l))
    by (rewrite skipn_skipn; f_equal; lia).
  rewrite (firstn_skipn (j - i) (skipn i l)). apply firstn_skipn.
Qed.

(** ** The rows of the table *)

Lemma matchRows_spec item ms : forall k,
  k <= FIND_IN_FILES_MAX ->
  matchRows item ms k
  = (firstn (FIND_IN_FILES_MAX - k) (map (matchRow item) ms),
     Nat.min FIND_IN_FILES_MAX (k + length ms)).
Proof.
  induction ms as [|mt ms IH]; intros k Hk.
  - cbn [matchRows map length]. rewrite firstn_nil. f_equal. lia.
  - cbn [matchRows map length].
    destruct (Nat.ltb k FIND_IN_FILES_MAX) eqn:E.
    + apply Nat.ltb_lt in E. rewrite IH by lia.
      replace (FIND_IN_FILES_MAX - k) with (S (FIND_IN_FILES_MAX - S k)) by lia.
      cbn [firstn]. f_equal. lia.
    + apply Nat.ltb_ge in E. rewrite IH by lia.
      replace (FIND_IN_FILES_MAX - k) with 0 by lia. cbn [firstn]. f_equal. lia.
Qed.

Lemma resultRows_full rs : forall k, FIND_IN_FILES_MAX <= k -> resultRows rs k = [].
Proof.
  induction rs as [|item rs IH]; intros k Hk; [reflexivity|].
  cbn [resultRows]. replace (Nat.ltb k FIND_IN_FILES_MAX) with false.
  - apply IH. exact Hk.
  - symmetry. apply Nat.ltb_ge. exact Hk.
Qed.

Lemma filter_matchRows item ms :
  filter isMatchRow (map (matchRow item) ms) = map (matchRow item) ms.
Proof. induction ms as [|mt ms IH]; [reflexivity|]. cbn. rewrite IH. reflexivity. Qed.

Lemma filter_firstn_matchRows item ms n :
  filter isMatchRow (firstn n (map (matchRow item) ms)) = firstn n (map (matchRow item) ms).
Proof.
  rewrite firstn_map. apply filter_matchRows.
Qed.

Lemma firstn_app_min {A} (l1 l2 : list A) n :
  firstn n (l1 ++ l2) = firstn n l1 ++ firstn (n - Nat.min n (length l1)) l2.
Proof.
  rewrite firstn_app. f_equal.
  destruct (Nat.le_ge_cases n (length l1)) as [H|H].
  - replace (n - length l1) with 0 by lia. replace (n - Nat.min n (length l1)) with 0 by lia.
    reflexivity.
  - f_equal. lia.
Qed.

Lemma resultRows_matches rs : forall k,
  k <= FIND_IN_FILES_MAX ->
  filter isMatchRow (resultRows rs k) = firstn (FIND_IN_FILES_MAX - k) (allMatchRows rs).
Proof.
  induction rs as [|item rs IH]; intros k Hk.
  - cbn [resultRows allMatchRows flat_map]. rewrite firstn_nil. reflexivity.
  - cbn [resultRows]. change (allMatchRows (item :: rs))
      with (map (matchRow item) (matches item) ++ allMatchRows rs).
    destruct (Nat.ltb k FIND_IN_FILES_MAX) eqn:E.
    + rewrite matchRows_spec by exact Hk. cbn [filter isMatchRow].
      rewrite filter_app, filter_firstn_matchRows, IH by lia.
      rewrite firstn_app. f_equal. rewrite length_map. f_equal. lia.
    + apply Nat.ltb_ge in E. rewrite resultRows_full by exact E.
      replace (FIND_IN_FILES_MAX - k) with 0 by lia. reflexivity.
Qed.

Lemma numMatches_fold rs : forall n,
  fold_left (fun n item => n + length (matches item)) rs n
  = n + length (allMatchRows rs).
Proof.
  induction rs as [|item rs IH]; intros n.
  - cbn. lia.
  - cbn [fold_left]. rewrite IH.
    change (allMatchRows (item :: rs))
      with (map (matchRow item) (matches item) ++ allMatchRows rs).
    rewrite length_app, length_map. lia.
Qed.

Lemma headed_matchRows item ms n rest :
  headed (firstn n (map (matchRow item) ms) ++ rest) = headed rest.
Proof.
  revert n. induction ms as [|mt ms IH]; intros n.
  - cbn [map]. rewrite firstn_nil. reflexivity.
  - destruct n as [|n]; [reflexivity|]. cbn [map firstn app headed matchRow]. apply IH.
Qed.

Lemma sameString_refl a : sameString a a = true.
Proof. unfold sameString. destruct (list_eq_dec _ a a); [reflexivity|contradiction]. Qed.

Lemma resultRows_headed rs : forall k,
  forallb hasMatches rs = true -> headed (resultRows rs k) = true.
Proof.
  induction rs as [|item rs IH]; intros k H; [reflexivity|].
  cbn [forallb] in H. apply andb_prop in H. destruct H as [Hi H].
  cbn [resultRows].
  destruct (Nat.ltb k FIND_IN_FILES_MAX) eqn:E; [|apply IH; exact H].
  apply Nat.ltb_lt in E. rewrite matchRows_spec by lia.
  unfold hasMatches in Hi. destruct (matches item) as [|mt ms]; [discriminate|].
  replace (FIND_IN_FILES_MAX - k) with (S (FIND_IN_FILES_MAX - S k)) by lia.
  cbn [map firstn app headed]. unfold matchRow at 1.
  rewrite sameString_refl. cbn [andb].
  rewrite headed_matchRows. apply IH. exact H.
Qed.

(** ** The dialog *)

Lemma fieldHandler_closed e this :
  closed this = true -> dialog this = Some false -> fieldHandler e this = Some this.
Proof.
  intros H Hd. destruct e as [t|k|]; cbn [fieldHandler].
  - rewrite Hd. reflexivity.
  - unfold _close. rewrite H. destruct (_ || _)%bool; reflexivity.
  - unfold _close. rewrite H. reflexivity.
Qed.

Lemma fieldEvents_closed es : forall this,
  closed this = true -> dialog this = Some false -> fieldEvents es this = Some this.
Proof.
  induction es as [|e es IH]; intros this H Hd; [reflexivity|].
  cbn [fieldEvents]. rewrite (fieldHandler_closed e this H Hd). apply IH; assumption.
Qed.

Lemma fieldEvents_open es : forall text n,
  staysOpen es = true ->
  fieldEvents es (mkDialog false (Some Pending) (Some true) text n)
  = Some (mkDialog false (Some Pending) (Some true) (typed es text) n).
Proof.
  induction es as [|e es IH]; intros text n H; [reflexivity|].
  unfold staysOpen in H. cbn [forallb] in H. apply andb_prop in H. destruct H as [He H].
  cbn [fieldEvents]. destruct e as [t|k|]; cbn [fieldHandler closes typed dialog] in *.
  - cbn [closed result focusEditorCalls]. apply IH. exact H.
  - apply negb_true_iff in He. rewrite He. apply IH. exact H.
  - discriminate.
Qed.

Lemma fieldHandler_closing e text n :
  closes e = true ->
  fieldHandler e (mkDialog false (Some Pending) (Some true) text n)
  = Some (mkDialog true (Some (ResolvedWith (closingValue e text))) (Some false) text (S n)).
Proof.
  destruct e as [t|k|]; cbn [closes fieldHandler closingValue]; intros H.
  - discriminate.
  - rewrite H. unfold _close. cbn [closed dialog result resolve searchField focusEditorCalls].
    destruct (Z.eqb k 13) eqn:E13.
    + apply Z.eqb_eq in E13. subst k. reflexivity.
    + cbn [orb] in H. rewrite H. reflexivity.
  - reflexivity.
Qed.

Lemma fieldEvents_app es1 es2 this this' :
  fieldEvents es1 this = Some this' ->
  fieldEvents (es1 ++ es2) this = fieldEvents es2 this'.
Proof.
  revert this. induction es1 as [|e es1 IH]; intros this H.
  - injection H as <-. reflexivity.
  - cbn [app fieldEvents] in *. destruct (fieldHandler e this); [|discriminate].
    apply IH. exact H.
Qed.

(** The first event that closes the dialog settles everything. *)
Lemma fieldEvents_first_close selectedText pre e post :
  staysOpen pre = true -> closes e = true ->
  fieldEvents (pre ++ e :: post) (showDialog selectedText FindInFilesDialog_new)
  = Some (mkDialog true
            (Some (ResolvedWith
                     (closingValue e
                        (typed pre (match selectedText with Some s => s | None => [] end)))))
            (Some false)
            (typed pre (match selectedText with Some s => s | None => [] end))
            1).
Proof.
  intros Hp He. unfold showDialog, FindInFilesDialog_new.
  cbn [closed focusEditorCalls].
  rewrite (fieldEvents_app pre (e :: post) _ _ (fieldEvents_open pre _ 0 Hp)).
  cbn [fieldEvents]. rewrite (fieldHandler_closing e _ 0 He).
  apply fieldEvents_closed; reflexivity.
Qed.

(** ** The height of the panel *)

Lemma heightFor_bounds mv y :
  (MIN_HEIGHT <= heightFor mv y <= Z.max MIN_HEIGHT (mv - EDITOR_MIN_HEIGHT))%Z.
Proof. unfold heightFor, MIN_HEIGHT, EDITOR_MIN_HEIGHT. lia. Qed.

Lemma setHeight_within top h l :
  (MIN_HEIGHT <= h <= top)%Z -> layoutWithin top (_setHeight h l).
Proof.
  intros H h' E. cbn in E. injection E as <-. cbn. repeat split; lia.
Qed.

Lemma redraws_within top down ds : forall l,
  Forall (fun d => (MIN_HEIGHT <= newHeight d <= top)%Z) ds ->
  layoutWithin top l ->
  Forall (fun d => (MIN_HEIGHT <= newHeight d <= top)%Z) (fst (redraws down ds l))
  /\ layoutWithin top (snd (redraws down ds l)).
Proof.
  induction ds as [|d ds IH]; intros l Hd Hl; [split; [constructor|exact Hl]|].
  inversion Hd as [|d0 ds0 H1 H2]; subst.
  cbn [redraws]. unfold doRedraw.
  destruct (redrawRequested d); [destruct down; cbn [negb]|].
  - destruct (IH (_setHeight (newHeight d) l) H2 (setHeight_within _ _ _ H1)) as [Ha Hb].
    destruct (redraws true ds (_setHeight (newHeight d) l)) as [ds' l']. cbn [fst snd] in *.
    split; [constructor; assumption|assumption].
  - destruct (IH l H2 Hl) as [Ha Hb].
    destruct (redraws false ds l) as [ds' l']. cbn [fst snd] in *.
    split; [constructor; [exact H1|assumption]|assumption].
  - destruct (IH l H2 Hl) as [Ha Hb].
    destruct (redraws down ds l) as [ds' l']. cbn [fst snd] in *.
    split; [constructor; assumption|assumption].
Qed.

Lemma mouseupHandlers_within top (bound : list Drag) : forall r,
  dragsWithin top r ->
  dragsWithin top (fold_left (fun r _ => mouseupHandler r) bound r).
Proof.
  induction bound as [|b bound IH]; intros r H; [exact H|].
  cbn [fold_left]. apply IH. destruct H as [Hd Hl]. split; [|exact Hl].
  cbn [mouseupHandler drags]. apply Forall_map. exact Hd.
Qed.

Lemma resizerEvent_within mv r e :
  mainViewIs mv e ->
  dragsWithin (Z.max MIN_HEIGHT (mv - EDITOR_MIN_HEIGHT)%Z) r ->
  dragsWithin (Z.max MIN_HEIGHT (mv - EDITOR_MIN_HEIGHT)%Z) (resizerEvent r e).
Proof.
  intros He [Hd Hl]. destruct e as [h y|h y| |]; cbn [resizerEvent mainViewIs] in *.
  - subst h. split; [|exact Hl]. cbn [onMousedown drags].
    apply Forall_app. split; [exact Hd|]. constructor; [|constructor].
    cbn [newHeight]. apply heightFor_bounds.
  - subst h. split; [|exact Hl]. cbn [drags]. apply Forall_map.
    eapply Forall_impl; [|exact Hd]. intros d Hx. unfold onMousemove.
    destruct (mousemoveBound d); [|exact Hx]. cbn [newHeight]. apply heightFor_bounds.
  - unfold onMouseup.
    pose proof (mouseupHandlers_within _ (filter mouseupBound (drags r)) r (conj Hd Hl))
      as [Hd' Hl'].
    split; [|exact Hl']. cbn [drags]. apply Forall_map. exact Hd'.
  - unfold onAnimationFrame.
    pose proof (redraws_within _ (isMouseDown r) (drags r) (layout r) Hd Hl) as [Ha Hb].
    destruct (redraws (isMouseDown r) (drags r) (layout r)) as [ds l].
    split; assumption.
Qed.

Lemma resizerEvents_within mv es : forall r,
  Forall (mainViewIs mv) es ->
  dragsWithin (Z.max MIN_HEIGHT (mv - EDITOR_MIN_HEIGHT)%Z) r ->
  dragsWithin (Z.max MIN_HEIGHT (mv - EDITOR_MIN_HEIGHT)%Z) (resizerEvents es r).
Proof.
  induction es as [|e es IH]; intros r He H; [exact H|].
  inversion He as [|e0 es0 H1 H2]; subst.
  cbn [resizerEvents fold_left]. apply (IH _ H2).
  apply resizerEvent_within; assumption.
Qed.

Lemma redraws_mouseup down ds : forall l,
  map mouseupBound (fst (redraws down ds l)) = map mouseupBound ds.
Proof.
  induction ds as [|d ds IH]; intros l; [reflexivity|].
  cbn [redraws]. unfold doRedraw.
  destruct (redrawRequested d); [destruct down; cbn [negb]|].
  - specialize (IH (_setHeight (newHeight d) l)).
    destruct (redraws true ds (_setHeight (newHeight d) l)) as [ds' l'].
    cbn [fst map] in *. rewrite IH. reflexivity.
  - specialize (IH l). destruct (redraws false ds l) as [ds' l'].
    cbn [fst map mouseupBound] in *. rewrite IH. reflexivity.
  - specialize (IH l). destruct (redraws down ds l) as [ds' l'].
    cbn [fst map] in *. rewrite IH. reflexivity.
Qed.

Lemma existsb_map_id (ds : list Drag) :
  existsb mouseupBound ds = existsb (fun b => b) (map mouseupBound ds).
Proof. induction ds as [|d ds IH]; [reflexivity|]. cbn. rewrite IH. reflexivity. Qed.

Lemma mouseupHandlers_down (bound : list Drag) : forall r,
  bound <> [] ->
  isMouseDown (fold_left (fun r _ => mouseupHandler r) bound r) = false.
Proof.
  induction bound as [|b bound IH]; intros r H; [contradiction|].
  cbn [fold_left]. destruct bound as [|b' bound]; [reflexivity|].
  apply IH. discriminate.
Qed.

Lemma filter_nil_existsb {A} (f : A -> bool) l : filter f l = [] -> existsb f l = false.
Proof.
  induction l as [|x l IH]; [reflexivity|]. cbn. destruct (f x); [discriminate|exact IH].
Qed.

Lemma onMouseup_down r : canRelease r -> isMouseDown (onMouseup r) = false.
Proof.
  intros H. unfold onMouseup. cbn [isMouseDown].
  destruct (filter mouseupBound (drags r)) as [|b bound] eqn:E.
  - cbn [fold_left]. destruct (isMouseDown r) eqn:Ed; [|reflexivity].
    unfold canRelease in H. rewrite (filter_nil_existsb _ _ E) in H.
    discriminate (H Ed).
  - apply mouseupHandlers_down. discriminate.
Qed.

Lemma resizerEvent_canRelease r e : canRelease r -> canRelease (resizerEvent r e).
Proof.
  intros H. unfold canRelease in *. destruct e as [h y|h y| |]; cbn [resizerEvent].
  - intros _. cbn [onMousedown drags]. rewrite existsb_app. cbn. apply orb_true_r.
  - intros Hd. cbn [isMouseDown drags] in *. specialize (H Hd).
    rewrite existsb_map_id in H. rewrite existsb_map_id, map_map.
    erewrite map_ext; [exact H|].
    intros d. unfold onMousemove. destruct (mousemoveBound d); reflexivity.
  - intros Hd. rewrite (onMouseup_down r H) in Hd. discriminate.
  - unfold onAnimationFrame. pose proof (redraws_mouseup (isMouseDown r) (drags r) (layout r)) as E.
    destruct (redraws (isMouseDown r) (drags r) (layout r)) as [ds l].
    cbn [fst] in E. intros Hd. cbn [isMouseDown drags] in *.
    rewrite existsb_map_id, E, <- existsb_map_id. exact (H Hd).
Qed.

Lemma resizerEvents_canRelease es : forall r, canRelease r -> canRelease (resizerEvents es r).
Proof.
  induction es as [|e es IH]; intros r H; [exact H|].
  cbn [resizerEvents fold_left]. apply IH. apply resizerEvent_canRelease. exact H.
Qed.

Lemma resizerEvents_app es1 es2 r :
  resizerEvents (es1 ++ es2) r = resizerEvents es2 (resizerEvents es1 r).
Proof. apply fold_left_app. Qed.

(** With the mouse up, a frame resizes nothing and asks for no further
    frame. *)
Lemma redraws_up ds : forall l,
  redraws false ds l
  = (map (fun d => mkDrag (newHeight d) false (mousemoveBound d) (mouseupBound d)) ds, l).
Proof.
  induction ds as [|d ds IH]; intros l; [reflexivity|].
  destruct d as [h [|] mm mu]; cbn [redraws doRedraw redrawRequested negb map];
    rewrite IH; reflexivity.
Qed.

Lemma frames_up n : forall r,
  isMouseDown r = false ->
  layout (resizerEvents (repeat AnimationFrame n) r) = layout r
  /\ isMouseDown (resizerEvents (repeat AnimationFrame n) r) = false
  /\ (0 < n ->
      forallb (fun d => negb (redrawRequested d))
              (drags (resizerEvents (repeat AnimationFrame n) r)) = true).
Proof.
  induction n as [|n IH]; intros r H.
  - repeat split; [exact H|lia].
  - cbn [repeat resizerEvents fold_left resizerEvent].
    assert (E : onAnimationFrame r
                = mkResizer false
                    (map (fun d => mkDrag (newHeight d) false (mousemoveBound d)
                                          (mouseupBound d)) (drags r))
                    (horResizing r) (layout r)).
    { unfold onAnimationFrame. rewrite H, redraws_up. reflexivity. }
    rewrite E.
    destruct (IH (mkResizer false
                    (map (fun d => mkDrag (newHeight d) false (mousemoveBound d)
                                          (mouseupBound d)) (drags r))
                    (horResizing r) (layout r)) eq_refl) as (H1 & H2 & H3).
    split; [exact H1|]. split; [exact H2|]. intros _.
    destruct n as [|n]; [|apply H3; lia].
    cbn [repeat resizerEvents fold_left drags].
    rewrite forallb_forall. intros d Hin. apply in_map_iff in Hin.
    destruct Hin as (d0 & <- & _). reflexivity.
Qed.

(** ** A drag follows the mouse *)

Lemma moves_follow moves : forall down ds h hr l,
  forallb isMousemove moves = true ->
  exists ds',
    resizerEvents moves (mkResizer down (ds ++ [mkDrag h true true true]) hr l)
    = mkResizer down (ds' ++ [mkDrag (lastHeight moves h) true true true]) hr l.
Proof.
  induction moves as [|e moves IH]; intros down ds h hr l H.
  - exists ds. reflexivity.
  - cbn [forallb] in H. apply andb_prop in H. destruct H as [He H].
    destruct e as [mv y|mv y| |]; try discriminate.
    cbn [resizerEvents fold_left resizerEvent isMouseDown drags horResizing layout lastHeight].
    rewrite map_app. cbn [map]. unfold onMousemove at 2.
    cbn [mousemoveBound redrawRequested mouseupBound].
    apply (IH down (map (onMousemove mv y) ds) (heightFor mv y) hr l H).
Qed.

Lemma redraws_last ds : forall d l,
  redrawRequested d = true ->
  snd (redraws true (ds ++ [d]) l)
  = _setHeight (newHeight d) (snd (redraws true ds l)).
Proof.
  induction ds as [|d0 ds IH]; intros d l H.
  - cbn [app redraws]. unfold doRedraw. rewrite H. reflexivity.
  - cbn [app redraws].
    destruct (doRedraw true d0 l) as [d0' l'].
    specialize (IH d l' H).
    destruct (redraws true (ds ++ [d]) l') as [a b].
    destruct (redraws true ds l') as [a' b']. cbn [snd] in *. exact IH.
Qed.

(** ** The calls of [exec] *)

Lemma searchLoop_counts text lines : forall fuel re ms log,
  status (searchLoop fuel text lines re ms log) = Returned ->
  length (filter isExec (steps (searchLoop fuel text lines re ms log)))
  <= length (filter isExec log) + fuel
  /\ S (length (produced (searchLoop fuel text lines re ms log))) <= length ms + fuel.
Proof.
  induction fuel as [|fuel IH]; intros re ms log Hs; [discriminate|].
  cbn [searchLoop] in *.
  destruct (RegExp_exec re text) as [re' [mt|]].
  - destruct (matchRecord text lines mt) as [M|]; [|discriminate].
    destruct (IH _ _ _ Hs) as [H1 H2].
    rewrite filter_app, !length_app in *. cbn [filter isExec length] in *. lia.
  - cbn [steps produced value]. rewrite filter_app, length_app. cbn. lia.
Qed.

Lemma getSearchMatches_counts text re fuel :
  status (_getSearchMatches fuel text re) = Returned ->
  execCalls (_getSearchMatches fuel text re) <= fuel
  /\ length (produced (_getSearchMatches fuel text re)) <= fuel - 1.
Proof.
  unfold _getSearchMatches, execCalls.
  destruct (Z.eqb (String_search text re) (-1)); [cbn; lia|].
  intros H. destruct (searchLoop_counts _ _ _ _ _ _ H) as [H1 H2].
  cbn [filter isExec length] in *. lia.
Qed.

(** ** A match behind the excerpt *)

Lemma matchRecord_line_length text lines mt M :
  matchRecord text lines mt = Some M -> length (line M) <= 200.
Proof.
  unfold matchRecord. destruct (nth_error lines _) as [l|]; [|discriminate].
  intros H. injection H as <-. cbn [line]. unfold String_substr.
  rewrite length_firstn. apply Nat.le_trans with (Nat.min 200 (length l)).
  - apply Nat.le_min_l.
  - apply Nat.le_min_l.
Qed.

Lemma matchRecord_columns text lines mt M :
  matchRecord text lines mt = Some M ->
  (Position.ch (start M) <= Position.ch (end_ M))%Z.
Proof.
  unfold matchRecord. destruct (nth_error lines _) as [l|]; [|discriminate].
  intros H. injection H as <-. cbn [start end_ Position.ch]. lia.
Qed.

Lemma esc_nil : esc [] = [].
Proof. reflexivity. Qed.

Lemma highlightMatch_outside text a b :
  (Z.of_nat (length text) <= a)%Z -> (a <= b)%Z ->
  highlightMatch text a b = esc text ++ str "<span class='highlight'></span>".
Proof.
  intros Ha Hb. rewrite highlightMatch_parts by lia.
  rewrite firstn_all2 by lia.
  rewrite (skipn_all2 text (n := Z.to_nat a)) by lia.
  rewrite (skipn_all2 text (n := Z.to_nat b)) by lia.
  rewrite firstn_nil, esc_nil. reflexivity.
Qed.

(** ** The panel with a result *)

Lemma showSearchResults_some rs p :
  rs <> [] ->
  table (_showSearchResults rs p) = resultRows rs 0
  /\ shown (_showSearchResults rs p) = true
  /\ summary (_showSearchResults rs p)
     = Some (mkSummary (length (allMatchRows rs))
                       (if Nat.ltb 1 (length (allMatchRows rs))
                        then FIND_IN_FILES_MATCHES else FIND_IN_FILES_MATCH)
                       (length rs)
                       (if Nat.ltb 1 (length rs)
                        then FIND_IN_FILES_FILES else FIND_IN_FILES_FILE)
                       (Nat.ltb FIND_IN_FILES_MAX (length (allMatchRows rs)))).
Proof.
  intros H. unfold _showSearchResults.
  destruct rs as [|item rs]; [contradiction|].
  cbn [length Nat.eqb negb table shown summary].
  rewrite numMatches_fold. cbn [Nat.add]. repeat split.
Qed.

(** ** A loop that stays at an empty match *)

Lemma searchLoop_stays re text lines j mt M :
  global re = true ->
  firstMatchFrom re text j = Some mt -> endOf mt = j ->
  matchRecord text lines mt = Some M ->
  forall fuel ms log,
    status (searchLoop fuel text lines (setLastIndex j re) ms log) = Running
    /\ produced (searchLoop fuel text lines (setLastIndex j re) ms log)
       = ms ++ repeat M fuel.
Proof.
  intros Hg Hm He HM. induction fuel as [|fuel IH]; intros ms log.
  - cbn. rewrite app_nil_r. split; reflexivity.
  - cbn [searchLoop]. rewrite RegExp_exec_at, Hg, Hm, He, HM.
    destruct (IH (ms ++ [M]) (log ++ [StepExec])) as [H1 H2].
    split; [exact H1|]. rewrite H2, <- app_assoc. reflexivity.
Qed.

(** ** The first match of a text that has one *)

Lemma hasMatch_first re text :
  hasMatch re text -> exists mt, firstMatchFrom re text 0 = Some mt.
Proof.
  intros H. destruct (firstMatchFrom re text 0) as [mt|] eqn:E; [exists mt; reflexivity|].
  exfalso. apply (proj1 (no_match_iff re text) E). exact H.
Qed.

Lemma getSearchMatches_first text re mt :
  lastIndex re = 0 ->
  firstMatchFrom re text 0 = Some mt ->
  exists M,
    matchRecord text (getLines text) mt = Some M
    /\ forall fuel,
        exists more, value (_getSearchMatches (S fuel) text re) = Some (M :: more).
Proof.
  intros Hl Hm.
  destruct (firstMatchFrom_bound _ _ _ _ Hm) as [Hb _].
  destruct (matchRecord_defined text mt) as (M & HM); [lia|].
  exists M. split; [exact HM|]. intros fuel.
  unfold _getSearchMatches, String_search. rewrite Hm.
  replace (Z.eqb (Z.of_nat (index mt)) (-1)) with false by (symmetry; apply Z.eqb_neq; lia).
  cbn [searchLoop]. unfold RegExp_exec. rewrite Hl.
  assert (E : (if global re then 0 else 0) = 0) by (destruct (global re); reflexivity).
  rewrite E, Hm, HM. cbn [app].
  assert (Hre : exists j, (if global re then setLastIndex (endOf mt) re else re)
                          = setLastIndex j re).
  { destruct (global re); [eexists; reflexivity|].
    exists (lastIndex re). symmetry. apply setLastIndex_same. }
  destruct Hre as (j & ->).
  destruct (searchLoop_value re text fuel j [M] [StepSearch; StepGetLines; StepExec])
    as (more & ->).
  exists more. reflexivity.
Qed.

Lemma getSearchMatches_with_getLines fuel text re :
  _getSearchMatches fuel text re
  = _getSearchMatches_with (fun t => Some (getLines t)) fuel text re.
Proof. reflexivity. Qed.

Lemma getSearchMatches_with_no_match getLines fuel text re :
  firstMatchFrom re text 0 = None ->
  _getSearchMatches_with getLines fuel text re = mkRun Returned None re [StepSearch].
Proof.
  intros H. unfold _getSearchMatches_with.
  apply String_search_none in H. rewrite H. reflexivity.
Qed.

(** ** The column of a match that begins at a line break *)

Lemma lineSplit_at_LF text offset pre l post :
  lineSplit text offset pre l post ->
  nth_error text offset = Some LF ->
  offset = length pre + length l.
Proof.
  intros (Ht & Hl & _ & _ & Hb) Hn. subst text.
  destruct (Nat.eq_dec offset (length pre + length l)) as [E|E]; [exact E|].
  exfalso.
  rewrite nth_error_app2 in Hn by lia.
  rewrite nth_error_app1 in Hn by lia.
  apply nth_error_In in Hn.
  rewrite forallb_forall in Hl. specialize (Hl LF Hn).
  unfold notLF in Hl. rewrite Ascii.eqb_refl in Hl. discriminate Hl.
Qed.

(** * The search, property by property *)

(** ** Literal queries *)

(** C1: a query that has not the shape [/body/flags] is compiled as a
    literal: each metacharacter gets a backslash, the pattern is global
    and ignores case, and a search with it finds the first literal
    occurrence of the query from any position on and misses none.  The
    query [a.b] is found in the text [a.b] and not in [axb]. *)
Theorem C1_literal_query_finds_literal_occurrences :
  (forall query,
      ~ hasShape query ->
      exists re,
        _getQueryRegExp query = Some re
        /\ source re = escapeQuery query
        /\ global re = true /\ ignoreCase re = true /\ lastIndex re = 0
        /\ (forall text i mt,
               firstMatchFrom re text i = Some mt ->
               i <= index mt
               /\ occursAt true query text (index mt) = true
               /\ matched mt = firstn (length query) (skipn (index mt) text)
               /\ (forall j, i <= j < index mt -> occursAt true query text j = false))
        /\ (forall text i,
               firstMatchFrom re text i = None ->
               forall j, i <= j -> occursAt true query text j = false))
  /\ (exists re,
         _getQueryRegExp (str "a.b") = Some re
         /\ source re = str "a\.b"
         /\ String_search (str "a.b") re = 0%Z
         /\ String_search (str "axb") re = (-1)%Z).
Proof.
  split.
  - intros query H. apply not_shape_no_match in H.
    eexists. split; [exact (compile_literal query H)|].
    cbn [source global ignoreCase lastIndex].
    do 4 (split; [reflexivity|]). split.
    + intros text i mt Hm.
      exact (firstMatchFrom_lit_Some
               (mkRegExp (escapeQuery query) (lit query) true true false 0)
               query text i mt eq_refl Hm).
    + intros text i Hm j Hj.
      exact (firstMatchFrom_lit_None
               (mkRegExp (escapeQuery query) (lit query) true true false 0)
               query text i eq_refl Hm j Hj).
  - eexists. split; [vm_compute; reflexivity|].
    repeat split.
Qed.

(** C1 at the query [a.b]. *)
Lemma C1_witness :
  ~ hasShape (str "a.b")
  /\ exists re,
      _getQueryRegExp (str "a.b") = Some re
      /\ source re = escapeQuery (str "a.b")
      /\ global re = true /\ ignoreCase re = true /\ lastIndex re = 0
      /\ (forall text i mt,
             firstMatchFrom re text i = Some mt ->
             i <= index mt
             /\ occursAt true (str "a.b") text (index mt) = true
             /\ matched mt = firstn (length (str "a.b")) (skipn (index mt) text)
             /\ (forall j, i <= j < index mt -> occursAt true (str "a.b") text j = false))
      /\ (forall text i,
             firstMatchFrom re text i = None ->
             forall j, i <= j -> occursAt true (str "a.b") text j = false).
Proof.
  assert (H : ~ hasShape (str "a.b")).
  { intros (body & flags & E & _). discriminate E. }
  split; [exact H|].
  exact (proj1 C1_literal_query_finds_literal_occurrences (str "a.b") H).
Defined.

(** ** Termination of the scan *)

(** C2: the query [//] compiles to the empty pattern with the global
    flag; whatever the text, every [exec] matches the empty string at
    offset zero and leaves [lastIndex] there, so the loop of the extractor
    is still running after any number of turns, with one match pushed at
    each. *)
Theorem C2_empty_pattern_never_returns :
  forall text fuel,
    exists re,
      _getQueryRegExp (str "//") = Some re
      /\ source re = []
      /\ status (_getSearchMatches fuel text re) = Running
      /\ length (produced (_getSearchMatches fuel text re)) = fuel.
Proof.
  intros text fuel.
  exists (mkRegExp [] Empty true false false 0).
  split; [vm_compute; reflexivity|]. split; [reflexivity|].
  set (re := mkRegExp [] Empty true false false 0).
  assert (Hm : firstMatchFrom re text 0 = Some (mkMatchArray 0 [] noCaptures)).
  { unfold firstMatchFrom. cbn [Nat.ltb Nat.leb charBefore skipn].
    destruct text; reflexivity. }
  assert (Hloop : forall fuel ms log,
             status (searchLoop fuel text (getLines text) re ms log) = Running
             /\ length (produced (searchLoop fuel text (getLines text) re ms log))
                = length ms + fuel).
  { clear fuel. induction fuel as [|fuel IH]; intros ms log.
    - cbn. split; [reflexivity|lia].
    - cbn [searchLoop]. unfold RegExp_exec.
      change (if global re then lastIndex re else 0) with 0. rewrite Hm.
      destruct (matchRecord_defined text (mkMatchArray 0 [] noCaptures)) as (M & ->);
        [cbn; lia|].
      change (if global re then setLastIndex (endOf (mkMatchArray 0 [] noCaptures)) re else re)
        with re.
      destruct (IH (ms ++ [M]) (log ++ [StepExec])) as [H1 H2].
      split; [exact H1|]. rewrite H2, length_app. cbn [length]. lia. }
  unfold _getSearchMatches, String_search. rewrite Hm. cbn [index Z.of_nat Z.eqb].
  destruct (Hloop fuel [] [StepSearch; StepGetLines]) as [H1 H2].
  split; [exact H1|exact H2].
Qed.

(** ** Flags of a regular-expression query *)

(** C3: for a query [/body/flags] whose flags hold no g, line 283 adds
    it: the pattern is made with the flags [g] or [ig]; every pattern
    that [_getQueryRegExp] makes is global.  For the text [AAA] and the
    query [/a/i] the extractor returns three matches.  A scan that
    returns has passed over no match.  But a scan need not return: for
    the query [/a*/i] and the text [aXa] the pattern matches the [a] at
    offset 2, and the extractor pushes the [a] at offset 0 and then the
    empty match at offset 1 at every turn, so that it never returns and
    never comes to offset 2. *)
Theorem C3_global_flag_is_added :
  (forall body flags,
      forallb notLineTerminator body = true ->
      forallb isI flags = true ->
      _getQueryRegExp ("/"%char :: body ++ "/"%char :: flags)
      = RegExp_new body (match flags with [] => str "g" | _ => str "ig" end)
      /\ (forall re,
             _getQueryRegExp ("/"%char :: body ++ "/"%char :: flags) = Some re ->
             global re = true))
  /\ (forall query re, _getQueryRegExp query = Some re -> global re = true)
  /\ (exists re,
         _getQueryRegExp (str "/a/i") = Some re
         /\ global re = true /\ ignoreCase re = true
         /\ forall extra,
             status (_getSearchMatches (4 + extra) (str "AAA") re) = Returned
             /\ positions (_getSearchMatches (4 + extra) (str "AAA") re)
                = [(pos 0 0, pos 0 1); (pos 0 1, pos 0 2); (pos 0 2, pos 0 3)])
  /\ (forall query re text fuel,
         _getQueryRegExp query = Some re ->
         status (_getSearchMatches fuel text re) = Returned ->
         forall j mt,
           firstMatchFrom re text j = Some mt ->
           reported re text (_getSearchMatches fuel text re) j mt)
  /\ (exists re,
         _getQueryRegExp (str "/a*/i") = Some re
         /\ global re = true /\ ignoreCase re = true
         /\ (exists mt,
                firstMatchFrom re (str "aXa") 2 = Some mt
                /\ index mt = 2 /\ matched mt = str "a")
         /\ forall fuel,
             status (_getSearchMatches fuel (str "aXa") re) = Running
             /\ positions (_getSearchMatches (S fuel) (str "aXa") re)
                = (pos 0 0, pos 0 1) :: repeat (pos 0 1, pos 0 1) fuel).
Proof.
  split.
  - intros body flags Hb Hf. split.
    + rewrite (compile_shape body flags Hb (isI_flag _ Hf)).
      f_equal. unfold usedFlags. destruct flags as [|c tl]; [reflexivity|].
      rewrite (isI_last _ _ Hf). reflexivity.
    + intros re H. exact (proj1 (compiled_global _ _ H)).
  - split; [intros query re H; exact (proj1 (compiled_global _ _ H))|].
    split.
    { eexists. split; [vm_compute; reflexivity|].
      split; [reflexivity|]. split; [reflexivity|].
      intros extra. split; vm_compute; reflexivity. }
    split.
    { intros query re text fuel Hq Hs j mt Hm.
      destruct (compiled_global _ _ Hq) as [Hg Hl].
      exact (getSearchMatches_complete fuel text re Hg Hl Hs j mt Hm). }
    set (re := mkRegExp (str "a*") (Seq (Quant 0 None true (Char "a")) Empty)
                        true true false 0).
    exists re. split; [vm_compute; reflexivity|].
    split; [reflexivity|]. split; [reflexivity|]. split.
    { eexists. split; [vm_compute; reflexivity|]. split; reflexivity. }
    assert (H0 : firstMatchFrom re (str "aXa") 0 = Some (mkMatchArray 0 (str "a") noCaptures))
      by (vm_compute; reflexivity).
    assert (H1 : firstMatchFrom re (str "aXa") 1 = Some (mkMatchArray 1 [] noCaptures))
      by (vm_compute; reflexivity).
    assert (HM0 : matchRecord (str "aXa") (getLines (str "aXa"))
                    (mkMatchArray 0 (str "a") noCaptures)
                  = Some (mkMatch (pos 0 0) (pos 0 1) (str "aXa")))
      by (vm_compute; reflexivity).
    assert (HM1 : matchRecord (str "aXa") (getLines (str "aXa"))
                    (mkMatchArray 1 [] noCaptures)
                  = Some (mkMatch (pos 0 1) (pos 0 1) (str "aXa")))
      by (vm_compute; reflexivity).
    assert (Hrun : forall fuel,
               _getSearchMatches (S fuel) (str "aXa") re
               = searchLoop fuel (str "aXa") (getLines (str "aXa")) (setLastIndex 1 re)
                   [mkMatch (pos 0 0) (pos 0 1) (str "aXa")]
                   [StepSearch; StepGetLines; StepExec]).
    { intros fuel. unfold _getSearchMatches, String_search. rewrite H0.
      cbn [index Z.of_nat Z.eqb searchLoop].
      change re with (setLastIndex 0 re) at 1.
      rewrite RegExp_exec_at. change (global re) with true. cbn iota.
      rewrite H0, HM0. reflexivity. }
    intros fuel.
    pose proof (searchLoop_stays re (str "aXa") (getLines (str "aXa")) 1 _ _
                  eq_refl H1 eq_refl HM1) as Hs.
    split.
    + destruct fuel as [|fuel]; [reflexivity|].
      rewrite Hrun. apply Hs.
    + unfold positions. rewrite Hrun.
      rewrite (proj2 (Hs fuel _ _)). cbn [app map start end_].
      f_equal. induction fuel as [|fuel IH]; [reflexivity|].
      cbn [repeat map start end_]. rewrite IH. reflexivity.
Qed.

(** C3 at the query [/a/i]. *)
Lemma C3_witness :
  forallb notLineTerminator (str "a") = true
  /\ forallb isI (str "i") = true
  /\ _getQueryRegExp (str "/a/i") = RegExp_new (str "a") (str "ig")
  /\ (forall re, _getQueryRegExp (str "/a/i") = Some re -> global re = true).
Proof.
  split; [reflexivity|]. split; [reflexivity|].
  exact (proj1 C3_global_flag_is_added (str "a") (str "i") eq_refl eq_refl).
Defined.

(** C4: capture 2 of the shape test is only the last flag, so the flags
    written before a final g are dropped: [/body/...g] is compiled with
    the flags [g] alone.  The query [/a/ig] gives a pattern that does not
    ignore case and finds nothing in the text [A]. *)
Theorem C4_flags_before_the_last_are_dropped :
  (forall body flags,
      forallb notLineTerminator body = true ->
      forallb isFlagChar flags = true ->
      _getQueryRegExp ("/"%char :: body ++ "/"%char :: flags ++ str "g")
      = RegExp_new body (str "g"))
  /\ (exists re,
         _getQueryRegExp (str "/a/ig") = Some re
         /\ ignoreCase re = false
         /\ forall fuel,
             _getSearchMatches fuel (str "A") re = mkRun Returned None re [StepSearch]).
Proof.
  split.
  - intros body flags Hb Hf.
    assert (Hf' : forallb isFlagChar (flags ++ str "g") = true).
    { rewrite forallb_app, Hf. reflexivity. }
    rewrite (compile_shape body _ Hb Hf'). f_equal. unfold usedFlags.
    destruct (flags ++ str "g") as [|c tl] eqn:E.
    + destruct flags; discriminate E.
    + replace (last tl c) with (last (flags ++ ["g"%char]) "g"%char).
      * rewrite last_last. reflexivity.
      * change ["g"%char] with (str "g"). rewrite E. apply last_cons_default.
  - eexists. split; [vm_compute; reflexivity|]. split; [reflexivity|].
    intros fuel. apply getSearchMatches_no_match. vm_compute. reflexivity.
Qed.

(** C4 at the query [/a/ig]. *)
Lemma C4_witness :
  forallb notLineTerminator (str "a") = true
  /\ forallb isFlagChar (str "i") = true
  /\ _getQueryRegExp (str "/a/ig") = RegExp_new (str "a") (str "g").
Proof.
  split; [reflexivity|]. split; [reflexivity|].
  exact (proj1 C4_flags_before_the_last_are_dropped (str "a") (str "i") eq_refl eq_refl).
Defined.

(** ** Line and column of a match *)

(** The column formula does not hold for every match: at a match that
    begins at a line break the column of the extractor is -1, below
    every value that the formula can take. *)
Lemma column_formula_fails_at_a_line_break :
  ~ (forall query re fuel text M,
        _getQueryRegExp query = Some re ->
        In M (produced (_getSearchMatches fuel text re)) ->
        exists i mt,
          firstMatchFrom re text i = Some mt
          /\ Position.line (start M) = Z.of_nat (countLF (firstn (index mt) text))
          /\ Position.ch (start M)
             = (Z.of_nat (index mt) - prevNewline text (index mt) - 1)%Z).
Proof.
  intros H.
  destruct (H (str "/\n/")
              (mkRegExp (str "\n") (Seq (Char LF) Empty) true false false 0)
              2 newlineText
              (mkMatch (pos 0 (-1)) (pos 0 0) (str "a")))
    as (i & mt & _ & _ & Hc).
  - vm_compute. reflexivity.
  - vm_compute. left. reflexivity.
  - cbn [start pos Position.ch] in Hc.
    pose proof (prevNewline_lt newlineText (index mt)). lia.
Qed.

(** C5: for every match that the extractor pushes, the line number is
    the count of line breaks before the offset of the match.  When the
    match does not begin at a line break, the column is that offset,
    minus the offset of the last line break before it, minus one; when
    it does, line 164 finds that very line break and the column is -1,
    while the value of the formula is not negative.  For the text [foo],
    line break, [bar foo], line break, and the query [foo], the
    extractor returns the matches (0,0)-(0,3) and (1,4)-(1,7).  For the
    query [/\n/] and the text of the two lines [a] and [b] it returns
    the match (0,-1)-(0,0), where the formula gives the column 1. *)
Theorem C5_line_and_column_of_a_match :
  (forall fuel text re M,
      In M (produced (_getSearchMatches fuel text re)) ->
      exists i mt,
        firstMatchFrom re text i = Some mt
        /\ matchRecord text (getLines text) mt = Some M
        /\ Position.line (start M) = Z.of_nat (countLF (firstn (index mt) text))
        /\ (nth_error text (index mt) <> Some LF ->
            Position.ch (start M)
            = (Z.of_nat (index mt) - prevNewline text (index mt) - 1)%Z)
        /\ (nth_error text (index mt) = Some LF ->
            Position.ch (start M) = (-1)%Z
            /\ (0 <= Z.of_nat (index mt) - prevNewline text (index mt) - 1)%Z))
  /\ (exists re,
         _getQueryRegExp (str "foo") = Some re
         /\ forall extra,
             status (_getSearchMatches (3 + extra) fooText re) = Returned
             /\ produced (_getSearchMatches (3 + extra) fooText re)
                = [mkMatch (pos 0 0) (pos 0 3) (str "foo");
                   mkMatch (pos 1 4) (pos 1 7) (str "bar foo")])
  /\ (exists re,
         _getQueryRegExp (str "/\n/") = Some re
         /\ (forall extra,
                status (_getSearchMatches (2 + extra) newlineText re) = Returned
                /\ produced (_getSearchMatches (2 + extra) newlineText re)
                   = [mkMatch (pos 0 (-1)) (pos 0 0) (str "a")])
         /\ (exists mt,
                firstMatchFrom re newlineText 0 = Some mt
                /\ index mt = 1
                /\ (Z.of_nat (index mt) - prevNewline newlineText (index mt) - 1)%Z = 1%Z))
  /\ ~ (forall query re fuel text M,
          _getQueryRegExp query = Some re ->
          In M (produced (_getSearchMatches fuel text re)) ->
          exists i mt,
            firstMatchFrom re text i = Some mt
            /\ Position.line (start M) = Z.of_nat (countLF (firstn (index mt) text))
            /\ Position.ch (start M)
               = (Z.of_nat (index mt) - prevNewline text (index mt) - 1)%Z).
Proof.
  split; [|split; [|split; [|exact column_formula_fails_at_a_line_break]]].
  - intros fuel text re M HM.
    destruct (produced_inv fuel text re M HM) as (i & mt & Hm & Hb & HR).
    exists i, mt. split; [exact Hm|]. split; [exact HR|].
    destruct (matchRecord_inv text mt M Hb HR)
      as (pre & l & post & Hs & Hl & _ & Hc & _).
    split; [|split].
    + rewrite Hl, (lineSplit_countLF _ _ _ _ _ Hs). reflexivity.
    + intros Hn. rewrite Hc, String_lastIndexOf_prev; [reflexivity|].
      intros c Hnc E. subst c. exact (Hn Hnc).
    + intros Hn. split.
      * rewrite Hc, (String_lastIndexOf_at _ _ Hn). lia.
      * pose proof (prevNewline_lt text (index mt)). lia.
  - eexists. split; [vm_compute; reflexivity|].
    intros extra. split; vm_compute; reflexivity.
  - eexists. split; [vm_compute; reflexivity|]. split.
    + intros extra. split; vm_compute; reflexivity.
    + eexists. split; [vm_compute; reflexivity|]. split; reflexivity.
Qed.

(** C5 at the second match of the query [foo] in [fooText]. *)
Lemma C5_witness :
  In (mkMatch (pos 1 4) (pos 1 7) (str "bar foo"))
     (produced (_getSearchMatches 3 fooText
                  (mkRegExp (str "foo") (lit (str "foo")) true true false 0)))
  /\ exists i mt,
      firstMatchFrom (mkRegExp (str "foo") (lit (str "foo")) true true false 0) fooText i
      = Some mt
      /\ matchRecord fooText (getLines fooText) mt
         = Some (mkMatch (pos 1 4) (pos 1 7) (str "bar foo"))
      /\ Position.line (start (mkMatch (pos 1 4) (pos 1 7) (str "bar foo")))
         = Z.of_nat (countLF (firstn (index mt) fooText))
      /\ (nth_error fooText (index mt) <> Some LF ->
          Position.ch (start (mkMatch (pos 1 4) (pos 1 7) (str "bar foo")))
          = (Z.of_nat (index mt) - prevNewline fooText (index mt) - 1)%Z)
      /\ (nth_error fooText (index mt) = Some LF ->
          Position.ch (start (mkMatch (pos 1 4) (pos 1 7) (str "bar foo"))) = (-1)%Z
          /\ (0 <= Z.of_nat (index mt) - prevNewline fooText (index mt) - 1)%Z).
Proof.
  assert (H : In (mkMatch (pos 1 4) (pos 1 7) (str "bar foo"))
                 (produced (_getSearchMatches 3 fooText
                    (mkRegExp (str "foo") (lit (str "foo")) true true false 0)))).
  { vm_compute. right. left. reflexivity. }
  split; [exact H|].
  exact (proj1 C5_line_and_column_of_a_match 3 fooText _ _ H).
Defined.

(** C6: every match that the extractor pushes starts no later than it
    ends, ends on the line on which it starts, and its columns differ by
    the length of the matched text. *)
Theorem C6_match_stays_on_its_line :
  forall fuel text re M,
    In M (produced (_getSearchMatches fuel text re)) ->
    exists i mt,
      firstMatchFrom re text i = Some mt
      /\ matchRecord text (getLines text) mt = Some M
      /\ posLe (start M) (end_ M)
      /\ Position.line (end_ M) = Position.line (start M)
      /\ (Position.ch (end_ M) - Position.ch (start M))%Z
         = Z.of_nat (length (matched mt)).
Proof.
  intros fuel text re M HM.
  destruct (produced_inv fuel text re M HM) as (i & mt & Hm & Hb & HR).
  exists i, mt. split; [exact Hm|]. split; [exact HR|].
  destruct (matchRecord_inv text mt M Hb HR)
    as (pre & l & post & _ & Hl & Hl' & _ & Hc & _).
  split; [|split].
  - right. split; [congruence|lia].
  - congruence.
  - lia.
Qed.

(** C6 at the second match of the query [foo] in [fooText]. *)
Lemma C6_witness :
  In (mkMatch (pos 1 4) (pos 1 7) (str "bar foo"))
     (produced (_getSearchMatches 3 fooText
                  (mkRegExp (str "foo") (lit (str "foo")) true true false 0)))
  /\ exists i mt,
      firstMatchFrom (mkRegExp (str "foo") (lit (str "foo")) true true false 0) fooText i
      = Some mt
      /\ matchRecord fooText (getLines fooText) mt
         = Some (mkMatch (pos 1 4) (pos 1 7) (str "bar foo"))
      /\ posLe (pos 1 4) (pos 1 7)
      /\ Position.line (pos 1 7) = Position.line (pos 1 4)
      /\ (Position.ch (pos 1 7) - Position.ch (pos 1 4))%Z = Z.of_nat (length (matched mt)).
Proof.
  assert (H : In (mkMatch (pos 1 4) (pos 1 7) (str "bar foo"))
                 (produced (_getSearchMatches 3 fooText
                    (mkRegExp (str "foo") (lit (str "foo")) true true false 0)))).
  { vm_compute. right. left. reflexivity. }
  split; [exact H|].
  exact (C6_match_stays_on_its_line 3 fooText _ _ H).
Defined.

(** ** The excerpt *)

(** C7: the excerpt of every match is the first min(200, length)
    characters of the line in which the match starts.  The columns do
    not depend on the cut: when the match does not begin at a line
    break, its start column is its offset in the whole line; when it
    does, the match lies at the end of that line and line 164 makes its
    start column -1.  The end column is the start column plus the length
    of the matched text.  In a line of 10000 characters with [foo] at
    offset 5000 the excerpt is the first 200 characters and the columns
    are 5000 and 5003.  For the query [/\s+foo/] and the text [a], line
    break, two blanks, [foo], the match begins at offset 1 of the line
    [a] and gets the columns -1 and 5. *)
Theorem C7_excerpt_is_cut_at_200 :
  (forall fuel text re M,
      In M (produced (_getSearchMatches fuel text re)) ->
      exists i mt pre l post,
        firstMatchFrom re text i = Some mt
        /\ matchRecord text (getLines text) mt = Some M
        /\ lineSplit text (index mt) pre l post
        /\ line M = firstn (Nat.min 200 (length l)) l
        /\ length (line M) = Nat.min 200 (length l)
        /\ (nth_error text (index mt) <> Some LF ->
            Position.ch (start M) = (Z.of_nat (index mt) - Z.of_nat (length pre))%Z)
        /\ (nth_error text (index mt) = Some LF ->
            Position.ch (start M) = (-1)%Z
            /\ (Z.of_nat (index mt) - Z.of_nat (length pre))%Z = Z.of_nat (length l))
        /\ Position.ch (end_ M)
           = (Position.ch (start M) + Z.of_nat (length (matched mt)))%Z)
  /\ (length longLine = N.to_nat 10000
      /\ exists re,
          _getQueryRegExp (str "foo") = Some re
          /\ forall extra,
              status (_getSearchMatches (2 + extra) longLine re) = Returned
              /\ produced (_getSearchMatches (2 + extra) longLine re)
                 = [mkMatch (pos 0 5000) (pos 0 5003) (repeat "x"%char 200)])
  /\ (exists re,
         _getQueryRegExp (str "/\s+foo/") = Some re
         /\ (forall extra,
                status (_getSearchMatches (2 + extra) blankLineText re) = Returned
                /\ produced (_getSearchMatches (2 + extra) blankLineText re)
                   = [mkMatch (pos 0 (-1)) (pos 0 5) (str "a")])
         /\ exists mt,
             firstMatchFrom re blankLineText 0 = Some mt
             /\ index mt = 1
             /\ lineSplit blankLineText (index mt) [] (str "a") (LF :: str "  foo")).
Proof.
  split; [|split].
  - intros fuel text re M HM.
    destruct (produced_inv fuel text re M HM) as (i & mt & Hm & Hb & HR).
    destruct (matchRecord_inv text mt M Hb HR)
      as (pre & l & post & Hs & _ & _ & Hc & He & Hl).
    exists i, mt, pre, l, post.
    split; [exact Hm|]. split; [exact HR|]. split; [exact Hs|]. split; [exact Hl|].
    split; [|split; [|split]].
    + rewrite Hl, length_firstn. lia.
    + intros Hn. rewrite Hc, String_lastIndexOf_prev.
      * rewrite (lineSplit_prevNewline _ _ _ _ _ Hs). lia.
      * intros c Hnc E. subst c. exact (Hn Hnc).
    + intros Hn. split.
      * rewrite Hc, (String_lastIndexOf_at _ _ Hn). lia.
      * rewrite (lineSplit_at_LF _ _ _ _ _ Hs Hn). lia.
    + exact He.
  - split; [vm_compute; reflexivity|].
    eexists. split; [vm_compute; reflexivity|].
    intros extra. split; vm_compute; reflexivity.
  - eexists. split; [vm_compute; reflexivity|]. split.
    + intros extra. split; vm_compute; reflexivity.
    + eexists. split; [vm_compute; reflexivity|]. split; [reflexivity|].
      cbn [index]. unfold lineSplit, blankLineText.
      split; [reflexivity|]. split; [reflexivity|].
      split; [left; reflexivity|]. split; [right; eexists; reflexivity|].
      cbn [length str list_ascii_of_string]. lia.
Qed.

(** C7 at the second match of the query [foo] in [fooText]. *)
Lemma C7_witness :
  In (mkMatch (pos 1 4) (pos 1 7) (str "bar foo"))
     (produced (_getSearchMatches 3 fooText
                  (mkRegExp (str "foo") (lit (str "foo")) true true false 0)))
  /\ exists i mt pre l post,
      firstMatchFrom (mkRegExp (str "foo") (lit (str "foo")) true true false 0) fooText i
      = Some mt
      /\ matchRecord fooText (getLines fooText) mt
         = Some (mkMatch (pos 1 4) (pos 1 7) (str "bar foo"))
      /\ lineSplit fooText (index mt) pre l post
      /\ str "bar foo" = firstn (Nat.min 200 (length l)) l
      /\ length (str "bar foo") = Nat.min 200 (length l)
      /\ (nth_error fooText (index mt) <> Some LF ->
          Position.ch (pos 1 4) = (Z.of_nat (index mt) - Z.of_nat (length pre))%Z)
      /\ (nth_error fooText (index mt) = Some LF ->
          Position.ch (pos 1 4) = (-1)%Z
          /\ (Z.of_nat (index mt) - Z.of_nat (length pre))%Z = Z.of_nat (length l))
      /\ Position.ch (pos 1 7)
         = (Position.ch (pos 1 4) + Z.of_nat (length (matched mt)))%Z.
Proof.
  assert (H : In (mkMatch (pos 1 4) (pos 1 7) (str "bar foo"))
                 (produced (_getSearchMatches 3 fooText
                    (mkRegExp (str "foo") (lit (str "foo")) true true false 0)))).
  { vm_compute. right. left. reflexivity. }
  split; [exact H|].
  exact (proj1 C7_excerpt_is_cut_at_200 3 fooText _ _ H).
Defined.

(** ** Empty results *)

(** C8: for a compiled pattern the extractor returns an empty result
    exactly when the pattern matches nowhere in the text.  Without a
    match it returns [null] after the call of [search] alone, whatever
    the number of turns allowed and whatever [StringUtils.getLines] would
    do, even throw: the text is not split into lines, and the pattern is
    left as it was.  With a match the result is never [null]: from the
    first turn of the loop on, the array begins with the record of the
    first match of the text, and when no match of the pattern is empty
    the run returns that array as soon as more turns are allowed than
    the text has characters. *)
Theorem C8_empty_exactly_when_no_match :
  forall query re text,
    _getQueryRegExp query = Some re ->
    ((exists fuel,
         status (_getSearchMatches fuel text re) = Returned
         /\ emptyResult (_getSearchMatches fuel text re))
     <-> ~ hasMatch re text)
    /\ (~ hasMatch re text ->
        forall fuel,
          _getSearchMatches fuel text re = mkRun Returned None re [StepSearch])
    /\ (forall fuel,
           _getSearchMatches fuel text re
           = _getSearchMatches_with (fun t => Some (getLines t)) fuel text re)
    /\ (~ hasMatch re text ->
        forall getLines fuel,
          _getSearchMatches_with getLines fuel text re
          = mkRun Returned None re [StepSearch])
    /\ (hasMatch re text ->
        exists mt M,
          firstMatchFrom re text 0 = Some mt
          /\ matchRecord text (getLines text) mt = Some M
          /\ (forall fuel,
                 exists more,
                   value (_getSearchMatches (S fuel) text re) = Some (M :: more))
          /\ (neverEmpty re text ->
              forall fuel,
                length text < fuel ->
                status (_getSearchMatches fuel text re) = Returned
                /\ ~ emptyResult (_getSearchMatches fuel text re))).
Proof.
  intros query re text Hq.
  destruct (compiled_global _ _ Hq) as [Hg Hl].
  assert (Hnone : ~ hasMatch re text ->
                  forall fuel,
                    _getSearchMatches fuel text re = mkRun Returned None re [StepSearch]).
  { intros H fuel. apply getSearchMatches_no_match, no_match_iff, H. }
  split; [|split; [exact Hnone|split; [|split]]].
  - split.
    + intros (fuel & Hs & He) (i & mt & Hm).
      destruct (firstMatchFrom re text 0) as [mt0|] eqn:E0.
      * destruct (getSearchMatches_found fuel text re mt0 Hl E0 Hs) as (M & ms & Hv).
        unfold emptyResult, produced in He. rewrite Hv in He. discriminate He.
      * rewrite (firstMatchFrom_None_later re text i E0) in Hm. discriminate Hm.
    + intros H. exists 0. rewrite (Hnone H 0). split; reflexivity.
  - intros fuel. apply getSearchMatches_with_getLines.
  - intros H gl fuel. apply getSearchMatches_with_no_match, no_match_iff, H.
  - intros H. destruct (hasMatch_first re text H) as (mt & Hm).
    destruct (getSearchMatches_first text re mt Hl Hm) as (M & HM & Hv).
    exists mt, M. split; [exact Hm|]. split; [exact HM|]. split; [exact Hv|].
    intros Hne fuel Hf.
    pose proof (getSearchMatches_terminates fuel text re Hg Hl Hne Hf) as Hs.
    split; [exact Hs|].
    destruct fuel as [|fuel]; [lia|].
    destruct (Hv fuel) as (more & E).
    unfold emptyResult, produced. rewrite E. discriminate.
Qed.

(** C8 at the query [foo], on the text [bar], which has no match, and on
    the text [x foo], which has one. *)
Lemma C8_witness :
  _getQueryRegExp (str "foo")
  = Some (mkRegExp (str "foo") (lit (str "foo")) true true false 0)
  /\ (~ hasMatch (mkRegExp (str "foo") (lit (str "foo")) true true false 0) (str "bar")
      /\ forall getLines fuel,
          _getSearchMatches_with getLines fuel (str "bar")
            (mkRegExp (str "foo") (lit (str "foo")) true true false 0)
          = mkRun Returned None
              (mkRegExp (str "foo") (lit (str "foo")) true true false 0) [StepSearch])
  /\ (hasMatch (mkRegExp (str "foo") (lit (str "foo")) true true false 0) (str "x foo")
      /\ neverEmpty (mkRegExp (str "foo") (lit (str "foo")) true true false 0) (str "x foo")
      /\ exists mt M,
          firstMatchFrom (mkRegExp (str "foo") (lit (str "foo")) true true false 0)
            (str "x foo") 0 = Some mt
          /\ matchRecord (str "x foo") (getLines (str "x foo")) mt = Some M
          /\ (forall fuel,
                 exists more,
                   value (_getSearchMatches (S fuel) (str "x foo")
                            (mkRegExp (str "foo") (lit (str "foo")) true true false 0))
                   = Some (M :: more))
          /\ (neverEmpty (mkRegExp (str "foo") (lit (str "foo")) true true false 0)
                (str "x foo") ->
              forall fuel,
                length (str "x foo") < fuel ->
                status (_getSearchMatches fuel (str "x foo")
                          (mkRegExp (str "foo") (lit (str "foo")) true true false 0))
                = Returned
                /\ ~ emptyResult
                       (_getSearchMatches fuel (str "x foo")
                          (mkRegExp (str "foo") (lit (str "foo")) true true false 0)))).
Proof.
  assert (H : _getQueryRegExp (str "foo")
              = Some (mkRegExp (str "foo") (lit (str "foo")) true true false 0)).
  { vm_compute. reflexivity. }
  assert (Hno : ~ hasMatch (mkRegExp (str "foo") (lit (str "foo")) true true false 0)
                  (str "bar")).
  { apply no_match_iff. vm_compute. reflexivity. }
  assert (Hyes : hasMatch (mkRegExp (str "foo") (lit (str "foo")) true true false 0)
                   (str "x foo")).
  { exists 0. eexists. vm_compute. reflexivity. }
  assert (Hne : neverEmpty (mkRegExp (str "foo") (lit (str "foo")) true true false 0)
                  (str "x foo")).
  { apply (lit_neverEmpty _ (str "foo")); [reflexivity|discriminate]. }
  split; [exact H|]. split.
  - split; [exact Hno|].
    exact (proj1 (proj2 (proj2 (proj2
             (C8_empty_exactly_when_no_match (str "foo") _ (str "bar") H)))) Hno).
  - split; [exact Hyes|]. split; [exact Hne|].
    exact (proj2 (proj2 (proj2 (proj2
             (C8_empty_exactly_when_no_match (str "foo") _ (str "x foo") H)))) Hyes).
Defined.

(** ** Files that fail to load *)

(** C9: a file whose load fails changes nothing: the search gives what
    it gives without that file, it never ends in the failure branch nor
    in an exception, and every entry of the result belongs to a file that
    was loaded and has a match.  A literal query always comes to its
    result.  Of three files with the second one failing to load, the
    other two make up the result. *)
Theorem C9_failed_load_is_skipped :
  (forall fuel query files,
      doFindInFiles fuel query files = doFindInFiles fuel query (filter isLoaded files)
      /\ doFindInFiles fuel query files <> LoggedFailure
      /\ (forall results, doFindInFiles fuel query files <> Crashed results)
      /\ (forall results r,
             doFindInFiles fuel query files = Shown results ->
             In r results ->
             (exists text, In (fullPath r, Document text) files) /\ matches r <> []))
  /\ (forall query files,
         query <> [] -> ~ hasShape query ->
         exists fuel results, doFindInFiles fuel (Some query) files = Shown results)
  /\ (forall extra,
         doFindInFiles (2 + extra) (Some (str "foo")) threeFiles
         = Shown [mkFileResult (str "a.js") [mkMatch (pos 0 0) (pos 0 3) (str "foo")];
                  mkFileResult (str "c.js") [mkMatch (pos 0 2) (pos 0 5) (str "x foo")]]).
Proof.
  split; [|split].
  - intros fuel query files. unfold doFindInFiles.
    destruct query as [[|c q]|]; try (repeat split; discriminate).
    destruct (_getQueryRegExp (c :: q)) as [re|]; [|repeat split; discriminate].
    rewrite <- doInParallel_loaded.
    pose proof (doInParallel_resolved fuel files (mkSearch re [])) as Hr.
    pose proof (doInParallel_not_threw fuel files (mkSearch re []) Resolved) as Ht.
    pose proof (doInParallel_results fuel files (mkSearch re []) Resolved) as Hres.
    destruct (doInParallel fuel (mkSearch re []) files Resolved) as [[s st] p].
    cbn [fst snd] in Hr, Ht, Hres. subst p.
    split; [reflexivity|].
    destruct s; try contradiction; (split; [discriminate|]); (split; [discriminate|]).
    + intros results r E Hin. injection E as <-.
      destruct (Hres r Hin) as [[]|H]. exact H.
    + intros results r E. discriminate E.
  - intros query files Hq Hs.
    pose proof (compile_literal query (not_shape_no_match query Hs)) as Hc.
    set (re := mkRegExp (escapeQuery query) (lit query) true true false 0) in *.
    destruct (doInParallel_terminates (S (longest files)) re eq_refl eq_refl
                (lit_neverEmpty re query eq_refl Hq) files [] (Nat.lt_succ_diag_r _))
      as (results & Hd).
    exists (S (longest files)), results. unfold doFindInFiles.
    destruct query as [|c q]; [contradiction|]. rewrite Hc, Hd. reflexivity.
  - intros extra. vm_compute. reflexivity.
Qed.

(** C9 at the query [foo] and [threeFiles]. *)
Lemma C9_witness :
  str "foo" <> [] /\ ~ hasShape (str "foo")
  /\ exists fuel results, doFindInFiles fuel (Some (str "foo")) threeFiles = Shown results.
Proof.
  assert (H1 : str "foo" <> []) by discriminate.
  assert (H2 : ~ hasShape (str "foo")).
  { intros (body & flags & E & _). discriminate E. }
  split; [exact H1|]. split; [exact H2|].
  exact (proj1 (proj2 C9_failed_load_is_skipped) (str "foo") threeFiles H1 H2).
Defined.

(** ** Which queries are regular expressions *)

(** C10: the test of line 278 is passed by the queries of the shape
    only: slash, body, slash, and flags that are all g or i.  These are
    compiled as regular expressions, every other query as a literal; a
    query whose text after the last slash holds another character, such
    as [/a/m], is one of those, and is searched for with its slashes. *)
Theorem C10_only_g_and_i_make_a_regular_expression :
  (forall query isRE, String_match query isRE_regexp = Some isRE -> hasShape query)
  /\ (forall body flags,
         forallb notLineTerminator body = true ->
         forallb isFlagChar flags = true ->
         _getQueryRegExp ("/"%char :: body ++ "/"%char :: flags)
         = RegExp_new body (usedFlags flags))
  /\ (forall query,
         ~ hasShape query ->
         _getQueryRegExp query
         = Some (mkRegExp (escapeQuery query) (lit query) true true false 0))
  /\ (forall body flags,
         forallb notSlash flags = true ->
         forallb isFlagChar flags = false ->
         ~ hasShape ("/"%char :: body ++ "/"%char :: flags))
  /\ (exists re,
         _getQueryRegExp (str "/a/m") = Some re
         /\ re = mkRegExp (str "/a/m") (lit (str "/a/m")) true true false 0
         /\ String_search (str "x/A/My") re = 1%Z
         /\ String_search (str "a") re = (-1)%Z).
Proof.
  split; [|split; [|split; [|split]]].
  - intros query isRE H. apply isRE_iff_shape. exists isRE. exact H.
  - exact compile_shape.
  - intros query H. apply compile_literal, not_shape_no_match, H.
  - intros body flags Hs Hf (body' & flags' & E & _ & Hf').
    injection E as E.
    pose proof (last_slash_unique _ _ _ _ E Hs (isFlagChar_notSlash_b _ Hf')) as ->.
    rewrite Hf in Hf'. discriminate Hf'.
  - eexists. split; [vm_compute; reflexivity|]. repeat split.
Qed.

(** C10 at the query [/a/m]. *)
Lemma C10_witness :
  forallb notSlash (str "m") = true
  /\ forallb isFlagChar (str "m") = false
  /\ ~ hasShape (str "/a/m")
  /\ _getQueryRegExp (str "/a/m")
     = Some (mkRegExp (escapeQuery (str "/a/m")) (lit (str "/a/m")) true true false 0).
Proof.
  split; [reflexivity|]. split; [reflexivity|].
  assert (H : ~ hasShape (str "/a/m")).
  { exact (proj1 (proj2 (proj2 (proj2 C10_only_g_and_i_make_a_regular_expression)))
                 (str "a") (str "m") eq_refl eq_refl). }
  split; [exact H|].
  exact (proj1 (proj2 (proj2 C10_only_g_and_i_make_a_regular_expression)) (str "/a/m") H).
Defined.

(** * Further properties of the search *)

(** X1: a literal query that is not empty cannot loop: on every text the
    extractor returns once the fuel exceeds the length of the text, and
    it leaves the pattern object as it found it, ready for the next
    file. *)
Theorem X1_literal_scan_terminates :
  forall query text fuel,
    query <> [] -> ~ hasShape query -> length text < fuel ->
    exists re,
      _getQueryRegExp query = Some re
      /\ status (_getSearchMatches fuel text re) = Returned
      /\ regexp (_getSearchMatches fuel text re) = re.
Proof.
  intros query text fuel Hq Hs Hf.
  pose proof (compile_literal query (not_shape_no_match query Hs)) as Hc.
  set (re := mkRegExp (escapeQuery query) (lit query) true true false 0) in *.
  assert (Hr : status (_getSearchMatches fuel text re) = Returned).
  { apply getSearchMatches_terminates; try reflexivity; [|exact Hf].
    exact (lit_neverEmpty re query eq_refl Hq text). }
  exists re. split; [exact Hc|]. split; [exact Hr|].
  exact (getSearchMatches_returned fuel text re eq_refl Hr).
Qed.

(** X1 at the query [foo] and the text [foo bar foo]. *)
Lemma X1_witness :
  str "foo" <> [] /\ ~ hasShape (str "foo") /\ length (str "foo bar foo") < 12
  /\ exists re,
      _getQueryRegExp (str "foo") = Some re
      /\ status (_getSearchMatches 12 (str "foo bar foo") re) = Returned
      /\ regexp (_getSearchMatches 12 (str "foo bar foo") re) = re.
Proof.
  assert (H1 : str "foo" <> []) by discriminate.
  assert (H2 : ~ hasShape (str "foo")).
  { intros (body & flags & E & _). discriminate E. }
  assert (H3 : length (str "foo bar foo") < 12) by (vm_compute; lia).
  split; [exact H1|]. split; [exact H2|]. split; [exact H3|].
  exact (X1_literal_scan_terminates (str "foo") (str "foo bar foo") 12 H1 H2 H3).
Defined.

(** X2: for a global pattern that starts at [lastIndex] zero, a run that
    returns has put [lastIndex] back to zero: the one pattern object can
    be used for the next file. *)
Theorem X2_returned_scan_resets_lastIndex :
  forall query re fuel text,
    _getQueryRegExp query = Some re ->
    status (_getSearchMatches fuel text re) = Returned ->
    regexp (_getSearchMatches fuel text re) = re
    /\ lastIndex (regexp (_getSearchMatches fuel text re)) = 0.
Proof.
  intros query re fuel text Hq Hs.
  destruct (compiled_global _ _ Hq) as [_ Hl].
  rewrite (getSearchMatches_returned fuel text re Hl Hs).
  split; [reflexivity|exact Hl].
Qed.

(** X2 at the query [/a/i] and the text [AAA]. *)
Lemma X2_witness :
  _getQueryRegExp (str "/a/i")
  = Some (mkRegExp (str "a") (Seq (Char "a") Empty) true true false 0)
  /\ status (_getSearchMatches 4 (str "AAA")
               (mkRegExp (str "a") (Seq (Char "a") Empty) true true false 0)) = Returned
  /\ regexp (_getSearchMatches 4 (str "AAA")
               (mkRegExp (str "a") (Seq (Char "a") Empty) true true false 0))
     = mkRegExp (str "a") (Seq (Char "a") Empty) true true false 0
  /\ lastIndex (regexp (_getSearchMatches 4 (str "AAA")
                          (mkRegExp (str "a") (Seq (Char "a") Empty) true true false 0)))
     = 0.
Proof.
  assert (H1 : _getQueryRegExp (str "/a/i")
               = Some (mkRegExp (str "a") (Seq (Char "a") Empty) true true false 0)).
  { vm_compute. reflexivity. }
  assert (H2 : status (_getSearchMatches 4 (str "AAA")
                         (mkRegExp (str "a") (Seq (Char "a") Empty) true true false 0))
               = Returned).
  { vm_compute. reflexivity. }
  split; [exact H1|]. split; [exact H2|].
  exact (X2_returned_scan_resets_lastIndex (str "/a/i") _ 4 (str "AAA") H1 H2).
Defined.

(** X3: a run of the extractor that returns has passed over no match: a
    match that the pattern has from any offset of the text is one of the
    matches pushed, or the search for it starts inside a match pushed. *)
Theorem X3_no_match_is_passed_over :
  forall query re fuel text,
    _getQueryRegExp query = Some re ->
    status (_getSearchMatches fuel text re) = Returned ->
    forall j mt,
      firstMatchFrom re text j = Some mt ->
      reported re text (_getSearchMatches fuel text re) j mt.
Proof.
  intros query re fuel text Hq Hs j mt Hm.
  destruct (compiled_global _ _ Hq) as [Hg Hl].
  exact (getSearchMatches_complete fuel text re Hg Hl Hs j mt Hm).
Qed.

(** X3 at the query [aa] and the text [aaa]: the occurrence at offset 1
    starts inside the match pushed for offset 0. *)
Lemma X3_witness :
  _getQueryRegExp (str "aa")
  = Some (mkRegExp (str "aa") (lit (str "aa")) true true false 0)
  /\ status (_getSearchMatches 4 (str "aaa")
               (mkRegExp (str "aa") (lit (str "aa")) true true false 0)) = Returned
  /\ firstMatchFrom (mkRegExp (str "aa") (lit (str "aa")) true true false 0) (str "aaa") 1
     = Some (mkMatchArray 1 (str "aa") noCaptures)
  /\ reported (mkRegExp (str "aa") (lit (str "aa")) true true false 0) (str "aaa")
       (_getSearchMatches 4 (str "aaa")
          (mkRegExp (str "aa") (lit (str "aa")) true true false 0))
       1 (mkMatchArray 1 (str "aa") noCaptures).
Proof.
  assert (H1 : _getQueryRegExp (str "aa")
               = Some (mkRegExp (str "aa") (lit (str "aa")) true true false 0)).
  { vm_compute. reflexivity. }
  assert (H2 : status (_getSearchMatches 4 (str "aaa")
                         (mkRegExp (str "aa") (lit (str "aa")) true true false 0))
               = Returned).
  { vm_compute. reflexivity. }
  assert (H3 : firstMatchFrom (mkRegExp (str "aa") (lit (str "aa")) true true false 0)
                 (str "aaa") 1
               = Some (mkMatchArray 1 (str "aa") noCaptures)).
  { vm_compute. reflexivity. }
  split; [exact H1|]. split; [exact H2|]. split; [exact H3|].
  exact (X3_no_match_is_passed_over (str "aa") _ 4 (str "aaa") H1 H2 1 _ H3).
Defined.

(** ** The scan and the query *)

(** X4: once the extractor has pushed an empty match, it never returns
    its matches, however many turns of the loop are allowed. *)
Theorem X4_scan_with_an_empty_match_never_returns :
  forall query re text fuel M,
    _getQueryRegExp query = Some re ->
    In M (produced (_getSearchMatches fuel text re)) ->
    isEmptyMatch M ->
    forall fuel', status (_getSearchMatches fuel' text re) <> Returned.
Proof.
  intros query re text fuel M Hq Hin HE fuel'.
  destruct (compiled_global _ _ Hq) as [Hg Hl].
  exact (getSearchMatches_empty_hangs re text Hg Hl fuel M Hin HE fuel').
Qed.

(** X4 at the query [/a*/] and the text [b]. *)
Lemma X4_witness :
  _getQueryRegExp (str "/a*/")
  = Some (mkRegExp (str "a*") (Seq (Quant 0 None true (Char "a")) Empty)
                   true false false 0)
  /\ In (mkMatch (pos 0 0) (pos 0 0) (str "b"))
        (produced (_getSearchMatches 1 (str "b")
                     (mkRegExp (str "a*") (Seq (Quant 0 None true (Char "a")) Empty)
                               true false false 0)))
  /\ isEmptyMatch (mkMatch (pos 0 0) (pos 0 0) (str "b"))
  /\ forall fuel',
      status (_getSearchMatches fuel' (str "b")
                (mkRegExp (str "a*") (Seq (Quant 0 None true (Char "a")) Empty)
                          true false false 0)) <> Returned.
Proof.
  assert (H1 : _getQueryRegExp (str "/a*/")
               = Some (mkRegExp (str "a*") (Seq (Quant 0 None true (Char "a")) Empty)
                                true false false 0)).
  { vm_compute. reflexivity. }
  assert (H2 : In (mkMatch (pos 0 0) (pos 0 0) (str "b"))
                  (produced (_getSearchMatches 1 (str "b")
                               (mkRegExp (str "a*")
                                         (Seq (Quant 0 None true (Char "a")) Empty)
                                         true false false 0)))).
  { vm_compute. left. reflexivity. }
  assert (H3 : isEmptyMatch (mkMatch (pos 0 0) (pos 0 0) (str "b"))) by reflexivity.
  split; [exact H1|]. split; [exact H2|]. split; [exact H3|].
  exact (X4_scan_with_an_empty_match_never_returns (str "/a*/") _ (str "b") 1 _ H1 H2 H3).
Defined.

(** X5: a scan that returns does so within as many calls of [exec] as the
    text has characters, and one more: it is the scan with that many
    turns allowed, and it has at most as many matches as the text has
    characters. *)
Theorem X5_scan_returns_within_length_turns :
  forall query re text fuel,
    _getQueryRegExp query = Some re ->
    status (_getSearchMatches fuel text re) = Returned ->
    _getSearchMatches (S (length text)) text re = _getSearchMatches fuel text re
    /\ execCalls (_getSearchMatches fuel text re) <= S (length text)
    /\ length (produced (_getSearchMatches fuel text re)) <= length text.
Proof.
  intros query re text fuel Hq Hs.
  destruct (compiled_global _ _ Hq) as [Hg Hl].
  pose proof (getSearchMatches_returns_early text re fuel Hg Hl Hs) as Hr.
  assert (E : _getSearchMatches (S (length text)) text re = _getSearchMatches fuel text re).
  { destruct (Nat.le_ge_cases fuel (S (length text))) as [H|H].
    - apply getSearchMatches_more_fuel; assumption.
    - symmetry. apply getSearchMatches_more_fuel; assumption. }
  split; [exact E|]. rewrite <- E.
  destruct (getSearchMatches_counts _ _ _ Hr) as [H1 H2].
  split; [exact H1|]. cbn [Nat.sub] in H2. lia.
Qed.

(** X5 at the query [foo] and the text [foo bar foo], with 50 turns. *)
Lemma X5_witness :
  _getQueryRegExp (str "foo")
  = Some (mkRegExp (str "foo") (lit (str "foo")) true true false 0)
  /\ status (_getSearchMatches 50 (str "foo bar foo")
               (mkRegExp (str "foo") (lit (str "foo")) true true false 0)) = Returned
  /\ _getSearchMatches (S (length (str "foo bar foo"))) (str "foo bar foo")
       (mkRegExp (str "foo") (lit (str "foo")) true true false 0)
     = _getSearchMatches 50 (str "foo bar foo")
         (mkRegExp (str "foo") (lit (str "foo")) true true false 0)
  /\ execCalls (_getSearchMatches 50 (str "foo bar foo")
                  (mkRegExp (str "foo") (lit (str "foo")) true true false 0))
     <= S (length (str "foo bar foo"))
  /\ length (produced (_getSearchMatches 50 (str "foo bar foo")
                         (mkRegExp (str "foo") (lit (str "foo")) true true false 0)))
     <= length (str "foo bar foo").
Proof.
  assert (H1 : _getQueryRegExp (str "foo")
               = Some (mkRegExp (str "foo") (lit (str "foo")) true true false 0)).
  { vm_compute. reflexivity. }
  assert (H2 : status (_getSearchMatches 50 (str "foo bar foo")
                         (mkRegExp (str "foo") (lit (str "foo")) true true false 0))
               = Returned).
  { vm_compute. reflexivity. }
  split; [exact H1|]. split; [exact H2|].
  exact (X5_scan_returns_within_length_turns (str "foo") _ (str "foo bar foo") 50 H1 H2).
Defined.



(** ** The markup of a row *)

(** X8: [esc] puts [&lt;] for each [<] and [&gt;] for each [>] and leaves
    every other character, so it goes through a concatenation part by
    part and its result has no angle bracket. *)
Theorem X8_esc_replaces_the_angle_brackets :
  forall s t,
    esc s = flat_map escChar s
    /\ esc (s ++ t) = esc s ++ esc t
    /\ noAngle (esc s) = true.
Proof.
  intros s t. split; [apply esc_chars|]. split; [apply esc_app|apply esc_noAngle].
Qed.

(** X9: [esc] leaves a text as it is exactly when the text has no angle
    bracket: an ampersand is not escaped, and escaping twice is escaping
    once. *)
Theorem X9_esc_leaves_ampersands_alone :
  forall s,
    (esc s = s <-> noAngle s = true)
    /\ esc (esc s) = esc s.
Proof.
  intros s. split; [apply esc_same_iff|]. apply esc_same. apply esc_noAngle.
Qed.

(** X10: for columns [from <= to] with [to] not negative, [highlightMatch]
    cuts the excerpt in three at the two columns, escapes each part and
    puts the middle one into the highlighting [span]; the three parts
    make up the excerpt. *)
Theorem X10_highlightMatch_cuts_the_excerpt_in_three :
  forall text from to,
    (from <= to)%Z -> (0 <= to)%Z ->
    highlightMatch text from to
    = esc (firstn (Z.to_nat from) text)
      ++ str "<span class='highlight'>"
      ++ esc (firstn (Z.to_nat to - Z.to_nat from) (skipn (Z.to_nat from) text))
      ++ str "</span>"
      ++ esc (skipn (Z.to_nat to) text)
    /\ firstn (Z.to_nat from) text
       ++ firstn (Z.to_nat to - Z.to_nat from) (skipn (Z.to_nat from) text)
       ++ skipn (Z.to_nat to) text
       = text.
Proof.
  intros text from to H1 H2. split.
  - apply highlightMatch_parts; assumption.
  - apply parts_of_text. lia.
Qed.

(** X10 at the excerpt [a<b foo] and the columns 4 and 7. *)
Lemma X10_witness :
  (4 <= 7)%Z /\ (0 <= 7)%Z
  /\ highlightMatch (str "a<b foo") 4 7
     = esc (firstn (Z.to_nat 4) (str "a<b foo"))
       ++ str "<span class='highlight'>"
       ++ esc (firstn (Z.to_nat 7 - Z.to_nat 4) (skipn (Z.to_nat 4) (str "a<b foo")))
       ++ str "</span>"
       ++ esc (skipn (Z.to_nat 7) (str "a<b foo"))
  /\ firstn (Z.to_nat 4) (str "a<b foo")
     ++ firstn (Z.to_nat 7 - Z.to_nat 4) (skipn (Z.to_nat 4) (str "a<b foo"))
     ++ skipn (Z.to_nat 7) (str "a<b foo")
     = str "a<b foo".
Proof.
  assert (H1 : (4 <= 7)%Z) by lia.
  assert (H2 : (0 <= 7)%Z) by lia.
  split; [exact H1|]. split; [exact H2|].
  exact (X10_highlightMatch_cuts_the_excerpt_in_three (str "a<b foo") 4 7 H1 H2).
Defined.

(** X11: a match that starts at column 200 or later lies behind the
    excerpt: its row shows the excerpt with nothing highlighted. *)
Theorem X11_match_behind_the_excerpt_is_not_highlighted :
  forall re text fuel M,
    In M (produced (_getSearchMatches fuel text re)) ->
    (200 <= Position.ch (start M))%Z ->
    highlightMatch (line M) (Position.ch (start M)) (Position.ch (end_ M))
    = esc (line M) ++ str "<span class='highlight'></span>".
Proof.
  intros re text fuel M Hin Hc.
  pose proof (getSearchMatches_produced fuel text re) as Hp.
  rewrite Forall_forall in Hp. destruct (Hp M Hin) as (i & mt & _ & HM).
  pose proof (matchRecord_line_length _ _ _ _ HM) as Hl.
  pose proof (matchRecord_columns _ _ _ _ HM) as Hlt.
  apply highlightMatch_outside; lia.
Qed.

(** X11 at the query [foo] and a line of 10000 characters with [foo] at
    column 5000. *)
Lemma X11_witness :
  In (mkMatch (pos 0 5000) (pos 0 5003) (repeat "x"%char 200))
     (produced (_getSearchMatches 3 longLine
                  (mkRegExp (str "foo") (lit (str "foo")) true true false 0)))
  /\ (200 <= Position.ch (start (mkMatch (pos 0 5000) (pos 0 5003) (repeat "x"%char 200))))%Z
  /\ highlightMatch (repeat "x"%char 200) 5000 5003
     = esc (repeat "x"%char 200) ++ str "<span class='highlight'></span>".
Proof.
  assert (H1 : In (mkMatch (pos 0 5000) (pos 0 5003) (repeat "x"%char 200))
                  (produced (_getSearchMatches 3 longLine
                               (mkRegExp (str "foo") (lit (str "foo")) true true false 0)))).
  { vm_compute. left. reflexivity. }
  assert (H2 : (200 <= Position.ch
                         (start (mkMatch (pos 0 5000) (pos 0 5003) (repeat "x"%char 200))))%Z).
  { cbn. lia. }
  split; [exact H1|]. split; [exact H2|].
  exact (X11_match_behind_the_excerpt_is_not_highlighted _ longLine 3 _ H1 H2).
Defined.

(** ** The table of the results *)

(** X12: the table shows the matches in the order of the result, file
    after file, and stops after the first [FIND_IN_FILES_MAX] of them. *)
Theorem X12_table_shows_the_first_hundred_matches :
  forall searchResults p,
    searchResults <> [] ->
    filter isMatchRow (table (_showSearchResults searchResults p))
    = firstn FIND_IN_FILES_MAX (allMatchRows searchResults).
Proof.
  intros rs p H. destruct (showSearchResults_some rs p H) as (-> & _).
  rewrite resultRows_matches by lia. rewrite Nat.sub_0_r. reflexivity.
Qed.

(** X12 at a result of 120 files with one match each. *)
Lemma X12_witness :
  oneMatchEach 120 <> []
  /\ filter isMatchRow (table (_showSearchResults (oneMatchEach 120) noPanel))
     = firstn FIND_IN_FILES_MAX (allMatchRows (oneMatchEach 120)).
Proof.
  assert (H : oneMatchEach 120 <> []) by discriminate.
  split; [exact H|].
  exact (X12_table_shows_the_first_hundred_matches (oneMatchEach 120) noPanel H).
Defined.

(** X13: the header counts every match of the result, shown or not, and
    has the note about the limit exactly when some match has no row. *)
Theorem X13_note_exactly_when_matches_are_left_out :
  forall searchResults p,
    searchResults <> [] ->
    exists s,
      summary (_showSearchResults searchResults p) = Some s
      /\ numMatches s = length (allMatchRows searchResults)
      /\ numFiles s = length searchResults
      /\ (maxNote s = true <->
          length (filter isMatchRow (table (_showSearchResults searchResults p)))
          < numMatches s).
Proof.
  intros rs p H. destruct (showSearchResults_some rs p H) as (Ht & _ & Hs).
  eexists. split; [exact Hs|]. cbn [numMatches numFiles maxNote].
  split; [reflexivity|]. split; [reflexivity|].
  rewrite Ht, resultRows_matches by lia. rewrite Nat.sub_0_r, length_firstn.
  rewrite Nat.ltb_lt. lia.
Qed.

(** X13 at a result of 120 files with one match each. *)
Lemma X13_witness :
  oneMatchEach 120 <> []
  /\ exists s,
      summary (_showSearchResults (oneMatchEach 120) noPanel) = Some s
      /\ numMatches s = length (allMatchRows (oneMatchEach 120))
      /\ numFiles s = length (oneMatchEach 120)
      /\ (maxNote s = true <->
          length (filter isMatchRow
                    (table (_showSearchResults (oneMatchEach 120) noPanel)))
          < numMatches s).
Proof.
  assert (H : oneMatchEach 120 <> []) by discriminate.
  split; [exact H|].
  exact (X13_note_exactly_when_matches_are_left_out (oneMatchEach 120) noPanel H).
Defined.

(** X14: when every file of the result has a match, as line 321 sees to,
    every file header of the table has a match of that file in the next
    row: the limit never leaves a header alone at the end. *)
Theorem X14_no_file_header_without_a_match_row :
  forall searchResults p,
    searchResults <> [] ->
    forallb hasMatches searchResults = true ->
    headed (table (_showSearchResults searchResults p)) = true.
Proof.
  intros rs p H Hm. destruct (showSearchResults_some rs p H) as (-> & _).
  apply resultRows_headed. exact Hm.
Qed.

(** X14 at a result of 120 files with one match each. *)
Lemma X14_witness :
  oneMatchEach 120 <> []
  /\ forallb hasMatches (oneMatchEach 120) = true
  /\ headed (table (_showSearchResults (oneMatchEach 120) noPanel)) = true.
Proof.
  assert (H1 : oneMatchEach 120 <> []) by discriminate.
  assert (H2 : forallb hasMatches (oneMatchEach 120) = true) by (vm_compute; reflexivity).
  split; [exact H1|]. split; [exact H2|].
  exact (X14_no_file_header_without_a_match_row (oneMatchEach 120) noPanel H1 H2).
Defined.

(** ** The dialog and the search *)

(** X15: the first Enter, Esc or loss of focus settles the dialog: its
    promise is resolved with the text of the field for Enter and with
    [null] otherwise, the dialog is taken out of the page and the editor
    focused once, and whatever comes later changes nothing. *)
Theorem X15_first_closing_event_settles_the_dialog :
  forall selectedText pre e post,
    staysOpen pre = true -> closes e = true ->
    fieldEvents (pre ++ e :: post) (showDialog selectedText FindInFilesDialog_new)
    = Some (mkDialog true
              (Some (ResolvedWith
                       (closingValue e
                          (typed pre (match selectedText with Some s => s | None => [] end)))))
              (Some false)
              (typed pre (match selectedText with Some s => s | None => [] end))
              1).
Proof.
  intros selectedText pre e post Hp He.
  exact (fieldEvents_first_close selectedText pre e post Hp He).
Qed.

(** X15 with [foo] typed, then Enter, then the loss of the focus. *)
Lemma X15_witness :
  staysOpen [Input (str "foo")] = true
  /\ closes (Keydown 13) = true
  /\ fieldEvents ([Input (str "foo")] ++ Keydown 13 :: [Blur])
       (showDialog None FindInFilesDialog_new)
     = Some (mkDialog true
               (Some (ResolvedWith (closingValue (Keydown 13) (typed [Input (str "foo")] []))))
               (Some false)
               (typed [Input (str "foo")] [])
               1).
Proof.
  assert (H1 : staysOpen [Input (str "foo")] = true) by reflexivity.
  assert (H2 : closes (Keydown 13) = true) by reflexivity.
  split; [exact H1|]. split; [exact H2|].
  exact (X15_first_closing_event_settles_the_dialog None [Input (str "foo")] (Keydown 13)
           [Blur] H1 H2).
Defined.

(** X16: a search is made only when the dialog is closed by Enter on a
    field that is not empty: Esc, the loss of the focus and Enter on an
    empty field make none, and while no closing event has come the
    dialog is open. *)
Theorem X16_search_only_after_enter_on_a_text :
  (forall fuel selectedText pre e post files,
      staysOpen pre = true -> closes e = true ->
      doFindInFiles_dialog fuel selectedText (pre ++ e :: post) files
      = Some (doFindInFiles fuel
                (closingValue e
                   (typed pre (match selectedText with Some s => s | None => [] end)))
                files)
      /\ (doFindInFiles_dialog fuel selectedText (pre ++ e :: post) files = Some NoSearch
          <-> isEnter e = false
              \/ typed pre (match selectedText with Some s => s | None => [] end) = []))
  /\ (forall fuel selectedText es files,
         staysOpen es = true -> doFindInFiles_dialog fuel selectedText es files = None).
Proof.
  split.
  - intros fuel selectedText pre e post files Hp He.
    assert (E : doFindInFiles_dialog fuel selectedText (pre ++ e :: post) files
                = Some (doFindInFiles fuel
                          (closingValue e
                             (typed pre
                                (match selectedText with Some s => s | None => [] end)))
                          files)).
    { unfold doFindInFiles_dialog.
      rewrite (fieldEvents_first_close selectedText pre e post Hp He). reflexivity. }
    split; [exact E|]. rewrite E.
    set (text := typed pre (match selectedText with Some s => s | None => [] end)).
    destruct e as [t|k|]; cbn [closingValue isEnter].
    + discriminate He.
    + destruct (Z.eqb k 13).
      * destruct text as [|c text].
        -- split; [right; reflexivity|reflexivity].
        -- split.
           ++ unfold doFindInFiles.
              destruct (_getQueryRegExp (c :: text)) as [re|]; [|discriminate].
              destruct (doInParallel fuel (mkSearch re []) files Resolved)
                as [[[| |] st] [|]]; discriminate.
           ++ intros [H|H]; discriminate H.
      * split; [left; reflexivity|reflexivity].
    + split; [left; reflexivity|reflexivity].
  - intros fuel selectedText es files H.
    unfold doFindInFiles_dialog, showDialog, FindInFilesDialog_new.
    cbn [closed focusEditorCalls]. rewrite (fieldEvents_open es _ 0 H). reflexivity.
Qed.

(** X16 with [foo] typed over a selected text and the focus lost. *)
Lemma X16_witness :
  staysOpen [Input (str "foo")] = true
  /\ closes Blur = true
  /\ doFindInFiles_dialog 9 (Some (str "bar")) ([Input (str "foo")] ++ Blur :: []) threeFiles
     = Some (doFindInFiles 9
               (closingValue Blur (typed [Input (str "foo")] (str "bar"))) threeFiles)
  /\ (doFindInFiles_dialog 9 (Some (str "bar")) ([Input (str "foo")] ++ Blur :: []) threeFiles
      = Some NoSearch
      <-> isEnter Blur = false \/ typed [Input (str "foo")] (str "bar") = []).
Proof.
  assert (H1 : staysOpen [Input (str "foo")] = true) by reflexivity.
  assert (H2 : closes Blur = true) by reflexivity.
  split; [exact H1|]. split; [exact H2|].
  exact (proj1 X16_search_only_after_enter_on_a_text 9 (Some (str "bar"))
           [Input (str "foo")] Blur [] threeFiles H1 H2).
Defined.

(** ** Resizing the panel *)

(** X17: while the main view keeps its height, whatever the mouse does,
    the panel is never set lower than [MIN_HEIGHT] nor so high that less
    than [EDITOR_MIN_HEIGHT] is left above it, unless that takes less
    than [MIN_HEIGHT]; its content is 30 lower than the panel, and the
    height is written to the preferences. *)
Theorem X17_panel_height_stays_within_its_bounds :
  forall mainViewHeight es,
    Forall (mainViewIs mainViewHeight) es ->
    layoutWithin (Z.max MIN_HEIGHT (mainViewHeight - EDITOR_MIN_HEIGHT))
                 (layout (resizerEvents es (_initSearchResizer noLayout))).
Proof.
  intros mv es H.
  apply (resizerEvents_within mv es (_initSearchResizer noLayout) H).
  split; [constructor|]. intros h E. discriminate E.
Qed.

(** X17 with a main view of 900, the mouse pressed at 300 and moved to
    850: the panel is set to 100. *)
Lemma X17_witness :
  Forall (mainViewIs 900) [Mousedown 900 300; Mousemove 900 850; AnimationFrame]
  /\ searchResultsHeight
       (layout (resizerEvents [Mousedown 900 300; Mousemove 900 850; AnimationFrame]
                  (_initSearchResizer noLayout)))
     = Some 100%Z
  /\ layoutWithin (Z.max MIN_HEIGHT (900 - EDITOR_MIN_HEIGHT))
       (layout (resizerEvents [Mousedown 900 300; Mousemove 900 850; AnimationFrame]
                  (_initSearchResizer noLayout))).
Proof.
  assert (H : Forall (mainViewIs 900)
                [Mousedown 900 300; Mousemove 900 850; AnimationFrame]).
  { repeat constructor. }
  split; [exact H|]. split; [reflexivity|].
  exact (X17_panel_height_stays_within_its_bounds 900 _ H).
Defined.

(** X18: once the mouse button is released, no animation frame resizes
    the panel any more, and after the first frame no redraw is requested
    for the next one. *)
Theorem X18_no_resize_after_the_mouse_is_released :
  forall es n l0,
    layout (resizerEvents (es ++ Mouseup :: repeat AnimationFrame n) (_initSearchResizer l0))
    = layout (resizerEvents (es ++ [Mouseup]) (_initSearchResizer l0))
    /\ (0 < n ->
        forallb (fun d => negb (redrawRequested d))
                (drags (resizerEvents (es ++ Mouseup :: repeat AnimationFrame n)
                          (_initSearchResizer l0)))
        = true).
Proof.
  intros es n l0.
  assert (Hc : canRelease (resizerEvents es (_initSearchResizer l0))).
  { apply resizerEvents_canRelease. intros H. discriminate H. }
  assert (Hd : isMouseDown (resizerEvents (es ++ [Mouseup]) (_initSearchResizer l0)) = false).
  { rewrite resizerEvents_app. cbn [resizerEvents fold_left resizerEvent].
    apply onMouseup_down. exact Hc. }
  replace (es ++ Mouseup :: repeat AnimationFrame n)
    with ((es ++ [Mouseup]) ++ repeat AnimationFrame n)
    by (rewrite <- app_assoc; reflexivity).
  rewrite (resizerEvents_app (es ++ [Mouseup])).
  destruct (frames_up n _ Hd) as (H1 & _ & H3).
  split; [exact H1|exact H3].
Qed.

(** X19: after a press of the mouse button and any moves, the next
    animation frame sets the panel to the height for the last position
    of the mouse, whatever happened before the press. *)
Theorem X19_panel_follows_the_mouse :
  forall es mainViewHeight clientY moves l0,
    forallb isMousemove moves = true ->
    searchResultsHeight
      (layout (resizerEvents
                 (es ++ Mousedown mainViewHeight clientY :: moves ++ [AnimationFrame])
                 (_initSearchResizer l0)))
    = Some (lastHeight moves (heightFor mainViewHeight clientY)).
Proof.
  intros es mv y moves l0 H.
  rewrite resizerEvents_app.
  set (r := resizerEvents es (_initSearchResizer l0)).
  change (Mousedown mv y :: moves ++ [AnimationFrame])
    with ([Mousedown mv y] ++ moves ++ [AnimationFrame]).
  rewrite !resizerEvents_app.
  change (resizerEvents [Mousedown mv y] r)
    with (mkResizer true (drags r ++ [mkDrag (heightFor mv y) true true true])
                    (negb (horResizing r)) (layout r)).
  destruct (moves_follow moves true (drags r) (heightFor mv y) (negb (horResizing r))
              (layout r) H) as (ds' & ->).
  change (resizerEvents [AnimationFrame] ?x) with (onAnimationFrame x).
  unfold onAnimationFrame. cbn [isMouseDown drags layout horResizing].
  pose proof (redraws_last ds' (mkDrag (lastHeight moves (heightFor mv y)) true true true)
                (layout r) eq_refl) as Hl.
  destruct (redraws true (ds' ++ [_]) (layout r)) as [ds'' l''].
  cbn [snd layout] in *. rewrite Hl. reflexivity.
Qed.

(** X19 with a main view of 900, the mouse pressed at 300 and moved to
    600 and to 450. *)
Lemma X19_witness :
  forallb isMousemove [Mousemove 900 600; Mousemove 900 450] = true
  /\ searchResultsHeight
       (layout (resizerEvents
                  ([] ++ Mousedown 900 300
                      :: [Mousemove 900 600; Mousemove 900 450] ++ [AnimationFrame])
                  (_initSearchResizer noLayout)))
     = Some (lastHeight [Mousemove 900 600; Mousemove 900 450] (heightFor 900 300)).
Proof.
  assert (H : forallb isMousemove [Mousemove 900 600; Mousemove 900 450] = true)
    by reflexivity.
  split; [exact H|].
  exact (X19_panel_follows_the_mouse [] 900 300 [Mousemove 900 600; Mousemove 900 450]
           noLayout H).
Defined.
